(** * amorcer: a shallow embedding of [index.js]

    The scaffolding tool is one JavaScript module.  This development embeds
    its functions as Rocq functions and proves properties of them:

    - [JsString]: JavaScript strings as sequences of UTF-16 code units,
      with [trim] and the regular-expression replacements of the source;
    - [Regex]: regular expressions and [RegExp.prototype.test];
    - [Names]: [formatTargetDir], [isValidPackageName] and
      [toValidPackageName];
    - [Exn]: exceptions and results;
    - [Fs]: the file system as a tree, the [node:fs] calls of the program,
      [isEmpty], [emptyDir] and [copy];
    - [Json]: [JSON.parse], the assignment of [name] and
      [JSON.stringify] on texts, and the rewriting of the manifest;
    - [Paths]: the [node:path] functions of the program;
    - [Catalog]: [LAYOUTS], [TEMPLATES] and [renameFiles];
    - [Prompts]: the engine of the prompt library, run on a script of
      user responses;
    - [Workflow]: the questions and [init].

    What belongs to the runtime or to a library and has no definition in
    the program enters as a parameter of a section: the lower-casing of
    strings, the reading and writing of Numbers, the colouring of
    text. *)

From Stdlib Require Import String Ascii List NArith ZArith Bool Lia.
Import ListNotations.

Set Implicit Arguments.
Set Warnings "-register-all".

(* ================================================================== *)
(** * JavaScript strings *)
(* ================================================================== *)

Module JsString.

(** A JavaScript string is a finite sequence of UTF-16 code units. *)
Definition jsstring := list N.

(** Code units of an ASCII literal. *)
Definition str (s : string) : jsstring :=
  map N_of_ascii (list_ascii_of_string s).

Definition is_nil (A : Type) (l : list A) : bool :=
  match l with [] => true | _ :: _ => false end.

Definition between (lo hi c : N) : bool := (lo <=? c)%N && (c <=? hi)%N.

(** [a-z] and [\d]. *)
Definition is_lower (c : N) : bool := between 97 122 c.
Definition is_upper (c : N) : bool := between 65 90 c.
Definition is_digit (c : N) : bool := between 48 57 c.

Definition chr (a : ascii) (c : N) : bool := (c =? N_of_ascii a)%N.

(** [a === b] on strings. *)
Fixpoint eqs (a b : jsstring) : bool :=
  match a, b with
  | [], [] => true
  | x :: a', y :: b' => (x =? y)%N && eqs a' b'
  | _, _ => false
  end.

(** ECMAScript WhiteSpace and LineTerminator code points: the set that
    [String.prototype.trim] strips and that [\s] matches. *)
Definition is_ws (c : N) : bool :=
  between 9 13 c               (* TAB LF VT FF CR *)
  || (c =? 32)%N               (* SPACE *)
  || (c =? 160)%N              (* NO-BREAK SPACE *)
  || (c =? 5760)%N             (* U+1680 *)
  || between 8192 8202 c       (* U+2000 .. U+200A *)
  || (c =? 8232)%N || (c =? 8233)%N   (* LS, PS *)
  || (c =? 8239)%N             (* U+202F *)
  || (c =? 8287)%N             (* U+205F *)
  || (c =? 12288)%N            (* U+3000 *)
  || (c =? 65279)%N.           (* U+FEFF *)

(** Drop the longest prefix whose code units satisfy [p]. *)
Fixpoint drop_leading (p : N -> bool) (s : jsstring) : jsstring :=
  match s with
  | [] => []
  | c :: t => if p c then drop_leading p t else s
  end.

(** Drop the longest suffix whose code units satisfy [p]. *)
Definition drop_trailing (p : N -> bool) (s : jsstring) : jsstring :=
  fold_right (fun c acc => if p c && is_nil acc then [] else c :: acc) [] s.

(** [String.prototype.trim]. *)
Definition trim (s : jsstring) : jsstring :=
  drop_trailing is_ws (drop_leading is_ws s).

(** [s.replace(/[p]+/g, r)]: every maximal run of code units in the class
    [p] is replaced by [r].  [inrun] tells whether the previous code unit
    belonged to a run that has already been replaced. *)
Fixpoint runs_from (p : N -> bool) (r : jsstring) (inrun : bool)
    (s : jsstring) : jsstring :=
  match s with
  | [] => []
  | c :: t =>
      if p c then (if inrun then [] else r) ++ runs_from p r true t
      else c :: runs_from p r false t
  end.

Definition replace_runs (p : N -> bool) (r s : jsstring) : jsstring :=
  runs_from p r false s.

(** [s.replace(/^[p]/, '')]: one leading code unit of the class [p] is
    removed. *)
Definition strip_first (p : N -> bool) (s : jsstring) : jsstring :=
  match s with
  | c :: t => if p c then t else s
  | [] => []
  end.

(** Does the string end (resp. start) with a code unit of the class? *)
Fixpoint ends_in (p : N -> bool) (s : jsstring) : bool :=
  match s with
  | [] => false
  | [c] => p c
  | _ :: t => ends_in p t
  end.

Definition starts_in (p : N -> bool) (s : jsstring) : bool :=
  match s with c :: _ => p c | [] => false end.

(** ASCII lowering: [A-Z] to [a-z], everything else unchanged. *)
Definition lower_ascii (c : N) : N := if is_upper c then (c + 32)%N else c.

Definition is_ascii (c : N) : bool := (c <? 128)%N.

(** ** Facts about the string primitives *)

Lemma eqs_eq a b : eqs a b = true <-> a = b.
Proof.
  revert b. induction a as [|x a IH]; intros [|y b]; simpl; split;
    intros H; try discriminate; try reflexivity.
  - apply andb_prop in H as [H1 H2]. apply N.eqb_eq in H1. apply IH in H2.
    congruence.
  - inversion H; subst. rewrite N.eqb_refl. apply IH. reflexivity.
Qed.

Lemma eqs_refl a : eqs a a = true.
Proof. apply eqs_eq. reflexivity. Qed.

Lemma eqs_neq a b : eqs a b = false <-> a <> b.
Proof.
  split.
  - intros H E. apply eqs_eq in E. congruence.
  - intros H. destruct (eqs a b) eqn:E; [|reflexivity].
    apply eqs_eq in E. contradiction.
Qed.

Lemma eqs_sym_false a b : eqs a b = false -> eqs b a = false.
Proof. rewrite !eqs_neq. auto. Qed.

(** Decide the comparisons of a goal about one code unit whose range is
    known from the context. *)
Ltac cmp :=
  repeat match goal with
    | |- context [(?a <=? ?b)%N] => destruct (N.leb_spec a b); try lia
    | |- context [(?a <? ?b)%N] => destruct (N.ltb_spec a b); try lia
    | |- context [(?a =? ?b)%N] => destruct (N.eqb_spec a b); try lia
    end;
  cbn [andb orb negb]; try reflexivity; try lia.


Lemma drop_trailing_cons p c t :
  drop_trailing p (c :: t) =
  if p c && is_nil (drop_trailing p t) then [] else c :: drop_trailing p t.
Proof. reflexivity. Qed.

Lemma drop_trailing_fixed p s :
  ends_in p s = false -> drop_trailing p s = s.
Proof.
  induction s as [|c t IH]; [reflexivity|].
  intros H. rewrite drop_trailing_cons.
  destruct t as [|d t'].
  - simpl in *. rewrite H. reflexivity.
  - rewrite IH by exact H. simpl. rewrite andb_false_r. reflexivity.
Qed.

Lemma drop_trailing_ends p s : ends_in p (drop_trailing p s) = false.
Proof.
  induction s as [|c t IH]; [reflexivity|].
  rewrite drop_trailing_cons.
  destruct (drop_trailing p t) as [|d u] eqn:E.
  - simpl. rewrite andb_true_r. destruct (p c) eqn:Pc; simpl; auto.
  - rewrite andb_false_r. exact IH.
Qed.

Lemma drop_trailing_starts p q s :
  starts_in q (drop_trailing p s) = true -> starts_in q s = true.
Proof.
  destruct s as [|c t]; [discriminate|].
  rewrite drop_trailing_cons.
  destruct (p c && is_nil (drop_trailing p t)); [discriminate|auto].
Qed.

Lemma drop_leading_starts p s : starts_in p (drop_leading p s) = false.
Proof.
  induction s as [|c t IH]; [reflexivity|].
  simpl. destruct (p c) eqn:E; [exact IH|]. simpl. exact E.
Qed.

Lemma drop_leading_fixed p s :
  starts_in p s = false -> drop_leading p s = s.
Proof. destruct s as [|c t]; simpl; [reflexivity|]. intros ->. reflexivity. Qed.

Lemma drop_leading_none p s :
  forallb p s = true -> drop_leading p s = [].
Proof.
  induction s as [|c t IH]; [reflexivity|]. simpl.
  intros H. apply andb_prop in H as [-> H]. auto.
Qed.

Lemma ends_in_exists p s :
  ends_in p s = true -> exists c, In c s /\ p c = true.
Proof.
  induction s as [|c t IH]; [discriminate|].
  destruct t as [|d u].
  - simpl. intros H. exists c. auto.
  - intros H. destruct (IH H) as (x & Hin & Hx). exists x. split; [right|]; auto.
Qed.

Lemma ends_in_none p s :
  forallb (fun c => negb (p c)) s = true -> ends_in p s = false.
Proof.
  intros H. destruct (ends_in p s) eqn:E; [|reflexivity].
  destruct (ends_in_exists _ _ E) as (c & Hin & Hc).
  rewrite forallb_forall in H. specialize (H c Hin). rewrite Hc in H. discriminate.
Qed.

Lemma runs_from_fixed p r b s :
  forallb (fun c => negb (p c)) s = true -> runs_from p r b s = s.
Proof.
  revert b. induction s as [|c t IH]; intros b H; [reflexivity|].
  simpl in *. apply andb_prop in H as [Hc Ht].
  destruct (p c); [discriminate|]. rewrite IH by exact Ht. reflexivity.
Qed.

(** After replacing the runs of the class [p] by [r], what is left is
    outside [p] or comes from [r]. *)
Lemma runs_from_class p (q : N -> bool) r b s :
  forallb q r = true ->
  (forall c, p c = false -> q c = true) ->
  forallb q (runs_from p r b s) = true.
Proof.
  intros Hr Hq. revert b. induction s as [|c t IH]; intros b; [reflexivity|].
  simpl. destruct (p c) eqn:Pc.
  - rewrite forallb_app, IH, andb_true_r. destruct b; [reflexivity|exact Hr].
  - simpl. rewrite (Hq c Pc), IH. reflexivity.
Qed.

Lemma trim_fixed s :
  forallb (fun c => negb (is_ws c)) s = true -> trim s = s.
Proof.
  intros H. unfold trim.
  assert (E : drop_leading is_ws s = s).
  { apply drop_leading_fixed. destruct s as [|c t]; [reflexivity|].
    simpl in *. apply andb_prop in H as [Hc _].
    destruct (is_ws c); [discriminate|reflexivity]. }
  rewrite E. apply drop_trailing_fixed, ends_in_none, H.
Qed.

Lemma trim_blank s : forallb is_ws s = true -> trim s = [].
Proof. intros H. unfold trim. rewrite drop_leading_none by exact H. reflexivity. Qed.

End JsString.

(* ================================================================== *)
(** * Regular expressions and [RegExp.prototype.test] *)
(* ================================================================== *)

Module Regex.
Import JsString.

(** The fragment of the regular-expression syntax that the source uses:
    character classes, concatenation, alternation (for [(?: ... )?]) and
    repetition.  A pattern written between [^] and [$] without flags is
    matched against the whole string. *)
Inductive regex : Type :=
| Never : regex
| Eps : regex
| Cls : (N -> bool) -> regex
| Cat : regex -> regex -> regex
| Alt : regex -> regex -> regex
| Star : regex -> regex.

Definition Opt (r : regex) : regex := Alt r Eps.

Fixpoint nullable (r : regex) : bool :=
  match r with
  | Never => false
  | Eps => true
  | Cls _ => false
  | Cat r1 r2 => nullable r1 && nullable r2
  | Alt r1 r2 => nullable r1 || nullable r2
  | Star _ => true
  end.

(** Brzozowski derivative of [r] by the code unit [c]. *)
Fixpoint deriv (c : N) (r : regex) : regex :=
  match r with
  | Never => Never
  | Eps => Never
  | Cls p => if p c then Eps else Never
  | Cat r1 r2 =>
      if nullable r1 then Alt (Cat (deriv c r1) r2) (deriv c r2)
      else Cat (deriv c r1) r2
  | Alt r1 r2 => Alt (deriv c r1) (deriv c r2)
  | Star r1 => Cat (deriv c r1) (Star r1)
  end.

(** [/^r$/.test(s)]. *)
Fixpoint test (r : regex) (s : jsstring) : bool :=
  match s with
  | [] => nullable r
  | c :: t => test (deriv c r) t
  end.

(** The language of a regular expression. *)
Inductive lang : regex -> jsstring -> Prop :=
| L_eps : lang Eps []
| L_cls p c : p c = true -> lang (Cls p) [c]
| L_cat r1 r2 s1 s2 : lang r1 s1 -> lang r2 s2 -> lang (Cat r1 r2) (s1 ++ s2)
| L_alt_l r1 r2 s : lang r1 s -> lang (Alt r1 r2) s
| L_alt_r r1 r2 s : lang r2 s -> lang (Alt r1 r2) s
| L_star_nil r : lang (Star r) []
| L_star_cons r s1 s2 :
    lang r s1 -> lang (Star r) s2 -> lang (Star r) (s1 ++ s2).

#[local] Hint Constructors lang : core.

Ltac inv H := inversion H; subst; clear H.

Lemma nullable_lang r : nullable r = true <-> lang r [].
Proof.
  induction r as [| |p|r1 IH1 r2 IH2|r1 IH1 r2 IH2|r1 IH1]; simpl; split;
    intros H; try discriminate; auto.
  - inv H.
  - inv H.
  - apply andb_prop in H as [H1 H2].
    change (@nil N) with (@nil N ++ @nil N). constructor; tauto.
  - inv H.
    match goal with E : _ ++ _ = [] |- _ => apply app_eq_nil in E as [-> ->] end.
    apply andb_true_intro; tauto.
  - apply orb_prop in H as [H|H]; [apply L_alt_l|apply L_alt_r]; tauto.
  - apply orb_true_intro. inv H; tauto.
Qed.

(** A word of [Star r] that starts with [c] splits off a non-empty first
    iteration. *)
Lemma star_cons_inv r c s :
  lang (Star r) (c :: s) ->
  exists s1 s2, s = s1 ++ s2 /\ lang r (c :: s1) /\ lang (Star r) s2.
Proof.
  intros H. remember (Star r) as r' eqn:Er. remember (c :: s) as w eqn:Ew.
  induction H as [| | | | | |r0 s1 s2 H1 _ H2 IH2]; try discriminate.
  inversion Er; subst r0.
  destruct s1 as [|d s1]; simpl in Ew.
  - apply IH2; auto.
  - inversion Ew; subst. exists s1, s2. auto.
Qed.

(** Splitting a word [c :: s] of a concatenation. *)
Lemma cat_cons_inv r1 r2 c s :
  lang (Cat r1 r2) (c :: s) ->
  (lang r1 [] /\ lang r2 (c :: s)) \/
  (exists s1 s2, s = s1 ++ s2 /\ lang r1 (c :: s1) /\ lang r2 s2).
Proof.
  intros H. inversion H as [| |? ? s1 s2 Ha Hb [E1 E2] E| | | |]; subst.
  destruct s1 as [|d s1]; simpl in E.
  - subst s2. left. auto.
  - inversion E; subst. right. eauto.
Qed.

Lemma lang_cat_cons r1 r2 c s1 s2 :
  lang r1 (c :: s1) -> lang r2 s2 -> lang (Cat r1 r2) (c :: s1 ++ s2).
Proof. intros. change (c :: s1 ++ s2) with ((c :: s1) ++ s2). auto. Qed.

Lemma deriv_lang r : forall c s, lang (deriv c r) s <-> lang r (c :: s).
Proof.
  induction r as [| |p|r1 IH1 r2 IH2|r1 IH1 r2 IH2|r1 IH1]; intros c s; simpl.
  - split; intros H; inv H.
  - split; intros H; inv H.
  - destruct (p c) eqn:Pc; split; intros H; inv H; auto; congruence.
  - destruct (nullable r1) eqn:Nu; split; intros H.
    + inv H.
      * match goal with H' : lang (Cat _ _) _ |- _ => inv H' end.
        apply lang_cat_cons; [apply IH1|]; assumption.
      * change (c :: s) with ([] ++ c :: s).
        constructor; [apply nullable_lang; exact Nu|apply IH2; assumption].
    + apply cat_cons_inv in H as [[_ Hb]|(s1 & s2 & -> & Ha & Hb)].
      * apply L_alt_r, IH2, Hb.
      * apply L_alt_l. constructor; [apply IH1|]; auto.
    + inv H. apply lang_cat_cons; [apply IH1|]; assumption.
    + apply cat_cons_inv in H as [[Ha _]|(s1 & s2 & -> & Ha & Hb)].
      * apply nullable_lang in Ha. congruence.
      * constructor; [apply IH1|]; auto.
  - split; intros H; inv H;
      solve [apply L_alt_l, IH1; auto | apply L_alt_r, IH2; auto].
  - split; intros H.
    + inv H. change (c :: s1 ++ s2) with ((c :: s1) ++ s2).
      constructor; [apply IH1|]; assumption.
    + apply star_cons_inv in H as (s1 & s2 & -> & Ha & Hb).
      constructor; [apply IH1|]; auto.
Qed.

(** [test] decides membership in the language. *)
Theorem test_lang r s : test r s = true <-> lang r s.
Proof.
  revert r. induction s as [|c t IH]; intros r; simpl.
  - apply nullable_lang.
  - rewrite IH. apply deriv_lang.
Qed.

(** Words of [[p]*] and of [[p][q]*]. *)
Lemma lang_star_cls p s : lang (Star (Cls p)) s <-> forallb p s = true.
Proof.
  split.
  - intros H. remember (Star (Cls p)) as r eqn:Er.
    induction H as [| | | | | |r0 s1 s2 H1 _ H2 IH2]; try discriminate; auto.
    inversion Er; subst r0. inversion H1; subst. simpl.
    rewrite IH2 by reflexivity. rewrite andb_true_r. assumption.
  - induction s as [|c t IH]; simpl; intros H; [auto|].
    apply andb_prop in H as [Hc Ht].
    change (c :: t) with ([c] ++ t). auto.
Qed.

Lemma lang_cls_star p q s :
  lang (Cat (Cls p) (Star (Cls q))) s <->
  exists c t, s = c :: t /\ p c = true /\ forallb q t = true.
Proof.
  split.
  - intros H. inv H.
    match goal with Ha : lang (Cls _) _ |- _ => inv Ha end.
    match goal with Hb : lang (Star _) _ |- _ => apply lang_star_cls in Hb end.
    simpl. eauto.
  - intros (c & t & -> & Hc & Ht). change (c :: t) with ([c] ++ t).
    constructor; [auto|apply lang_star_cls; exact Ht].
Qed.

End Regex.

(* ================================================================== *)
(** * Path and name utilities *)
(* ================================================================== *)

Module Names.
Import JsString Regex.

Definition is_slash : N -> bool := chr "/".

(** [formatTargetDir]: [targetDir?.trim().replace(/\/+$/g, '')].
    [None] is [undefined], which optional chaining passes through. *)
Definition formatTargetDir (targetDir : option jsstring) : option jsstring :=
  match targetDir with
  | None => None
  | Some s => Some (drop_trailing is_slash (trim s))
  end.

(** The character classes of the package-name pattern. *)
Definition scope_first (c : N) : bool :=           (* [a-z\d\-*~] *)
  is_lower c || is_digit c || chr "-" c || chr "*" c || chr "~" c.
Definition scope_rest (c : N) : bool :=            (* [a-z\d\-*._~] *)
  is_lower c || is_digit c || chr "-" c || chr "*" c || chr "." c
  || chr "_" c || chr "~" c.
Definition pkg_first (c : N) : bool :=             (* [a-z\d\-~] *)
  is_lower c || is_digit c || chr "-" c || chr "~" c.
Definition pkg_rest (c : N) : bool :=              (* [a-z\d\-._~] *)
  is_lower c || is_digit c || chr "-" c || chr "." c || chr "_" c
  || chr "~" c.

(** [@[a-z\d\-*~][a-z\d\-*._~]*\/] *)
Definition scope_re : regex :=
  Cat (Cls (chr "@"))
      (Cat (Cat (Cls scope_first) (Star (Cls scope_rest))) (Cls is_slash)).

(** [/^(?:@[a-z\d\-*~][a-z\d\-*._~]*\/)?[a-z\d\-~][a-z\d\-._~]*$/] *)
Definition package_name_re : regex :=
  Cat (Opt scope_re) (Cat (Cls pkg_first) (Star (Cls pkg_rest))).

Definition isValidPackageName (projectName : jsstring) : bool :=
  test package_name_re projectName.

Definition dot_or_underscore (c : N) : bool := chr "." c || chr "_" c.
Definition not_pkg_first (c : N) : bool := negb (pkg_first c).

(** A segment: one code unit of the class [first], then any number of
    the class [rest]. *)
Definition segment (first rest : N -> bool) (s : jsstring) : bool :=
  match s with
  | c :: t => first c && forallb rest t
  | [] => false
  end.

Section Lowering.

(** [String.prototype.toLowerCase] follows the Unicode case tables, which
    are not part of the program.  It enters as a parameter. *)
Variable toLowerCase : jsstring -> jsstring.

(** [toValidPackageName]:
[[
  projectName.trim().toLowerCase()
    .replace(/\s+/g, '-')
    .replace(/^[._]/, '')
    .replace(/[^a-z\d\-~]+/g, '-')
]] *)
Definition toValidPackageName (projectName : jsstring) : jsstring :=
  replace_runs not_pkg_first (str "-")
    (strip_first dot_or_underscore
      (replace_runs is_ws (str "-")
        (toLowerCase (trim projectName)))).

End Lowering.

(** [toLowerCase] on ASCII strings, to run the functions on ASCII
    inputs. *)
Definition toLowerCase_ascii_strings (s : jsstring) : jsstring :=
  map lower_ascii s.

(** ** [formatTargetDir] *)

Lemma drop_trailing_split p s :
  exists r, s = drop_trailing p s ++ r /\ forallb p r = true.
Proof.
  induction s as [|c t (r & E & Hr)]; [exists []; auto|].
  rewrite drop_trailing_cons.
  destruct (p c && is_nil (drop_trailing p t)) eqn:B.
  - apply andb_prop in B as [Pc Nil].
    destruct (drop_trailing p t); [|discriminate].
    exists (c :: r). simpl in *. rewrite Pc, Hr, E at 1. auto.
  - exists r. simpl. rewrite E at 1. auto.
Qed.

Lemma is_slash_eq c : is_slash c = true -> c = 47%N.
Proof. unfold is_slash, chr. apply N.eqb_eq. Qed.

Lemma all_slashes r : forallb is_slash r = true -> r = repeat 47%N (length r).
Proof.
  induction r as [|c t IH]; simpl; [reflexivity|].
  intros H. apply andb_prop in H as [Hc Ht].
  rewrite (is_slash_eq _ Hc), <- IH by exact Ht. reflexivity.
Qed.

Lemma trim_starts s : starts_in is_ws (trim s) = false.
Proof.
  unfold trim. destruct (starts_in _ _) eqn:E; [|reflexivity].
  apply drop_trailing_starts in E. rewrite drop_leading_starts in E. discriminate.
Qed.

Lemma formatted_starts s :
  starts_in is_ws (drop_trailing is_slash (trim s)) = false.
Proof.
  destruct (starts_in _ _) eqn:E; [|reflexivity].
  apply drop_trailing_starts in E. rewrite trim_starts in E. discriminate.
Qed.

(** The second application changes nothing exactly when the first result
    does not end in white space. *)
Lemma formatted_twice s :
  let z := drop_trailing is_slash (trim s) in
  drop_trailing is_slash (trim z) = z <-> ends_in is_ws z = false.
Proof.
  intros z.
  assert (Hl : drop_leading is_ws z = z)
    by (apply drop_leading_fixed, formatted_starts).
  assert (Ht : trim z = drop_trailing is_ws z) by (unfold trim; rewrite Hl; reflexivity).
  assert (Hs : ends_in is_slash z = false) by apply drop_trailing_ends.
  rewrite Ht. clearbody z. split.
  - intros E.
    destruct (drop_trailing_split is_ws z) as (r1 & E1 & _).
    destruct (drop_trailing_split is_slash (drop_trailing is_ws z)) as (r2 & E2 & _).
    rewrite E in E2. rewrite E2, <- app_assoc in E1.
    rewrite <- (app_nil_r z) in E1 at 1.
    apply app_inv_head in E1. symmetry in E1.
    apply app_eq_nil in E1 as [-> _]. rewrite app_nil_r in E2.
    rewrite <- E2. apply drop_trailing_ends.
  - intros H. rewrite (drop_trailing_fixed _ _ H).
    apply drop_trailing_fixed, Hs.
Qed.

(** C6, as stated, fails: with white space before the trailing slash the
    first application leaves a trailing blank, which the second removes.
    [formatTargetDir("a /")] is ["a "] and [formatTargetDir("a ")] is
    ["a"]. *)
Lemma formatTargetDir_not_idempotent :
  formatTargetDir (Some (str "a /")) = Some (str "a ") /\
  formatTargetDir (formatTargetDir (Some (str "a /"))) = Some (str "a") /\
  ~ (forall x : jsstring,
       formatTargetDir (formatTargetDir (Some x)) = formatTargetDir (Some x)).
Proof.
  split; [reflexivity|]. split; [reflexivity|].
  intros H. specialize (H (str "a /")). vm_compute in H. discriminate.
Qed.

(** C6 (amended): [formatTargetDir] applied twice gives the same as
    applied once exactly when the first result does not end in white
    space.  The function trims the input and then removes the whole run
    of trailing slashes of the trimmed string (["foo///"] gives ["foo"]):
    its result never ends with a slash and never starts with white space.
    The empty string and [undefined] are returned unchanged. *)
Theorem formatTargetDir_spec :
  (forall x : jsstring,
     exists y n,
       formatTargetDir (Some x) = Some y /\
       trim x = y ++ repeat 47%N n /\
       ends_in is_slash y = false /\
       starts_in is_ws y = false /\
       (formatTargetDir (formatTargetDir (Some x)) = formatTargetDir (Some x)
        <-> ends_in is_ws y = false)) /\
  formatTargetDir (Some (str "foo///")) = Some (str "foo") /\
  formatTargetDir (Some (str "  foo/  ")) = Some (str "foo") /\
  formatTargetDir (Some []) = Some [] /\
  formatTargetDir None = None.
Proof.
  split; [|repeat split; reflexivity].
  intros x. destruct (drop_trailing_split is_slash (trim x)) as (r & E & Hr).
  exists (drop_trailing is_slash (trim x)), (length r).
  split; [reflexivity|]. split; [rewrite <- (all_slashes _ Hr); exact E|].
  split; [apply drop_trailing_ends|]. split; [apply formatted_starts|].
  simpl. rewrite <- (formatted_twice x). simpl.
  split; [intros H; injection H; auto|intros ->; reflexivity].
Qed.

(** ** [isValidPackageName] *)

Lemma chr_eq a c : chr a c = true -> c = N_of_ascii a.
Proof. unfold chr. apply N.eqb_eq. Qed.

Lemma segment_iff first rest s :
  segment first rest s = true <->
  exists c t, s = c :: t /\ first c = true /\ forallb rest t = true.
Proof.
  destruct s as [|c t]; simpl; split.
  - discriminate.
  - intros (c & t & E & _). discriminate.
  - intros H. apply andb_prop in H as [H1 H2]. eauto.
  - intros (c' & t' & E & H1 & H2). inversion E; subst. rewrite H1, H2. reflexivity.
Qed.

Lemma lang_scope_re s :
  lang scope_re s <->
  exists sc, s = 64%N :: sc ++ [47%N] /\ segment scope_first scope_rest sc = true.
Proof.
  unfold scope_re. split.
  - intros H. inv H.
    match goal with Ha : lang (Cls _) _ |- _ => inv Ha end.
    match goal with Hb : lang (Cat _ (Cls _)) _ |- _ => inv Hb end.
    match goal with Hc : lang (Cls _) _ |- _ => inv Hc end.
    match goal with Hd : lang (Cat _ _) _ |- _ => apply lang_cls_star in Hd end.
    repeat match goal with Hx : chr _ _ = true |- _ => apply chr_eq in Hx; subst end.
    match goal with Hx : is_slash _ = true |- _ => apply is_slash_eq in Hx; subst end.
    eexists. split; [reflexivity|]. apply segment_iff. assumption.
  - intros (sc & -> & Hsc). apply segment_iff in Hsc.
    change (64%N :: sc ++ [47%N]) with ([64%N] ++ (sc ++ [47%N])).
    constructor; [constructor; reflexivity|].
    constructor; [apply lang_cls_star; assumption|constructor; reflexivity].
Qed.

(** The pattern, read as a grammar: a package segment, optionally
    preceded by ['@'], a scope segment and ['/']. *)
Lemma isValidPackageName_iff s :
  isValidPackageName s = true <->
  segment pkg_first pkg_rest s = true \/
  exists sc p, s = 64%N :: sc ++ 47%N :: p /\
               segment scope_first scope_rest sc = true /\
               segment pkg_first pkg_rest p = true.
Proof.
  unfold isValidPackageName, package_name_re, Opt. rewrite test_lang. split.
  - intros H. inv H.
    match goal with Hb : lang (Cat (Cls _) _) _ |- _ =>
      apply lang_cls_star, segment_iff in Hb end.
    match goal with Ha : lang (Alt _ _) _ |- _ => inv Ha end.
    + match goal with Ha : lang scope_re _ |- _ =>
        apply lang_scope_re in Ha as (sc & -> & Hsc) end.
      right. exists sc. eexists. split; [|split; eassumption].
      simpl. rewrite <- app_assoc. reflexivity.
    + match goal with Ha : lang Eps _ |- _ => inv Ha end. left. assumption.
  - intros [H|(sc & p & -> & Hsc & Hp)].
    + change s with ([] ++ s). constructor; [apply L_alt_r; constructor|].
      apply lang_cls_star, segment_iff, H.
    + change (64%N :: sc ++ 47%N :: p) with ((64%N :: sc) ++ [47%N] ++ p).
      rewrite app_assoc. constructor.
      * apply L_alt_l, lang_scope_re. exists sc. split; [reflexivity|assumption].
      * apply lang_cls_star, segment_iff, Hp.
Qed.

Lemma forallb_impl (p q : N -> bool) s :
  (forall c, p c = true -> q c = true) ->
  forallb p s = true -> forallb q s = true.
Proof.
  intros Hpq. induction s as [|c t IH]; simpl; [reflexivity|].
  intros H. apply andb_prop in H as [Hc Ht]. rewrite (Hpq c Hc), IH; auto.
Qed.

Lemma pkg_first_rest c : pkg_first c = true -> pkg_rest c = true.
Proof.
  unfold pkg_first, pkg_rest. intros H.
  repeat (apply orb_prop in H as [H|H]); rewrite H; repeat rewrite orb_true_r; reflexivity.
Qed.

Lemma segment_no_star s :
  segment pkg_first pkg_rest s = true -> ~ In 42%N s.
Proof.
  intros H Hin. apply segment_iff in H as (c & t & -> & Hc & Ht).
  apply pkg_first_rest in Hc.
  assert (Hall : forallb pkg_rest (c :: t) = true) by (simpl; rewrite Hc, Ht; reflexivity).
  rewrite forallb_forall in Hall. specialize (Hall _ Hin). discriminate.
Qed.

(** C4, as stated, fails on its third example: the class for the first
    character of the package segment, [[a-z\d\-~]], contains the dash. *)
Lemma isValidPackageName_examples_refuted :
  isValidPackageName (str "-leading-dash") = true /\
  ~ (isValidPackageName (str "@scope/pkg-name") = true /\
     isValidPackageName (str "My Project") = false /\
     isValidPackageName (str "-leading-dash") = false).
Proof.
  split; [reflexivity|]. intros (_ & _ & H). vm_compute in H. discriminate.
Qed.

(** C4 (amended): [isValidPackageName("@scope/pkg-name")] is true,
    [isValidPackageName("My Project")] is false and
    [isValidPackageName("-leading-dash")] is true. *)
Theorem isValidPackageName_examples :
  isValidPackageName (str "@scope/pkg-name") = true /\
  isValidPackageName (str "My Project") = false /\
  isValidPackageName (str "-leading-dash") = true.
Proof. repeat split; reflexivity. Qed.

(** C9: a star is accepted at every position of the scope segment, the
    first one included, and at no position of the package segment: in an
    accepted name every star is followed, later on, by the slash that
    ends the scope. *)
Theorem isValidPackageName_star :
  isValidPackageName (str "@*/pkg") = true /\
  isValidPackageName (str "@a*b/c") = true /\
  (forall pre post p : jsstring,
     (pre = [] \/ starts_in scope_first pre = true) ->
     forallb scope_rest pre = true ->
     forallb scope_rest post = true ->
     segment pkg_first pkg_rest p = true ->
     isValidPackageName (str "@" ++ pre ++ str "*" ++ post ++ str "/" ++ p) = true) /\
  isValidPackageName (str "*") = false /\
  isValidPackageName (str "a*b") = false /\
  isValidPackageName (str "@a/b*") = false /\
  (forall s pre post : jsstring,
     isValidPackageName s = true ->
     s = pre ++ str "*" ++ post ->
     In 47%N post).
Proof.
  split; [reflexivity|]. split; [reflexivity|]. split; [|repeat split; try reflexivity].
  - intros pre post p Hfirst Hpre Hpost Hp.
    apply isValidPackageName_iff. right. exists (pre ++ 42%N :: post), p.
    split; [simpl; rewrite <- app_assoc; reflexivity|]. split; [|exact Hp].
    destruct pre as [|c t]; simpl.
    + rewrite Hpost. reflexivity.
    + destruct Hfirst as [Hfirst|Hfirst]; [discriminate|]. simpl in Hfirst, Hpre.
      apply andb_prop in Hpre as [_ Ht].
      rewrite Hfirst, forallb_app, Ht. simpl. rewrite Hpost. reflexivity.
  - intros s pre post Hs E. simpl in E.
    apply isValidPackageName_iff in Hs as [Hs|(sc & p & E' & _ & Hp)].
    + exfalso. apply (segment_no_star _ Hs). subst s. apply in_elt.
    + assert (Hnp := segment_no_star _ Hp).
      rewrite E in E'. change (64%N :: sc ++ 47%N :: p) with ((64%N :: sc) ++ 47%N :: p) in E'.
      apply app_eq_app in E' as (l & [[E1 E2]|[E1 E2]]).
      * destruct l as [|d l]; simpl in E2.
        -- inversion E2.
        -- inversion E2; subst. exfalso. apply Hnp, in_elt.
      * destruct l as [|d l]; simpl in E2.
        -- inversion E2.
        -- inversion E2; subst. apply in_elt.
Qed.

Lemma isValidPackageName_star_witness :
  isValidPackageName (str "@" ++ str "a" ++ str "*" ++ str "b" ++ str "/" ++ str "c") = true /\
  In 47%N (str "b/c").
Proof.
  destruct isValidPackageName_star as (_ & _ & H1 & _ & _ & _ & H2). split.
  - apply H1; [right; reflexivity|reflexivity|reflexivity|reflexivity].
  - apply (H2 (str "@a*b/c") (str "@a") (str "b/c")); reflexivity.
Defined.

(** ** [toValidPackageName] *)

Lemma pkg_first_range c :
  pkg_first c = true ->
  (97 <= c <= 122 \/ 48 <= c <= 57 \/ c = 45 \/ c = 126)%N.
Proof.
  unfold pkg_first, is_lower, is_digit, between, chr. simpl N_of_ascii.
  intros H. repeat (apply orb_prop in H as [H|H]).
  - apply andb_prop in H as [H1 H2]. apply N.leb_le in H1, H2. lia.
  - apply andb_prop in H as [H1 H2]. apply N.leb_le in H1, H2. lia.
  - apply N.eqb_eq in H. lia.
  - apply N.eqb_eq in H. lia.
Qed.

(** A code unit of [[a-z\d\-~]] is ASCII, is no white space, is its own
    lower case and is neither a dot nor an underscore. *)
Lemma pkg_first_plain c :
  pkg_first c = true ->
  is_ascii c = true /\ negb (is_ws c) = true /\ lower_ascii c = c /\
  dot_or_underscore c = false /\ negb (not_pkg_first c) = true.
Proof.
  intros H. pose proof (pkg_first_range _ H) as R.
  unfold not_pkg_first. rewrite H.
  unfold is_ascii, is_ws, lower_ascii, is_upper, dot_or_underscore, between, chr.
  simpl N_of_ascii.
  repeat split; destruct R as [R|[R|[R|R]]]; cmp.
Qed.

Section LoweringFacts.

(** What is used of [toLowerCase] is what it does on ASCII strings: it
    maps the letters [A] to [Z] to [a] to [z] and leaves the rest. *)
Variable toLowerCase : jsstring -> jsstring.
Hypothesis toLowerCase_ascii :
  forall s, forallb is_ascii s = true -> toLowerCase s = map lower_ascii s.

Let tvpn := toValidPackageName toLowerCase.

(** Every code unit of a sanitized name is in [[a-z\d\-~]]. *)
Lemma toValidPackageName_class s : forallb pkg_first (tvpn s) = true.
Proof.
  unfold tvpn, toValidPackageName, replace_runs.
  apply runs_from_class; [reflexivity|].
  intros c. unfold not_pkg_first. destruct (pkg_first c); [reflexivity|discriminate].
Qed.

(** On such a string every step of [toValidPackageName] is the
    identity. *)
Lemma toValidPackageName_fixed t :
  forallb pkg_first t = true -> tvpn t = t.
Proof.
  intros H. unfold tvpn, toValidPackageName, replace_runs.
  assert (Hws : forallb (fun c => negb (is_ws c)) t = true)
    by (revert H; apply forallb_impl; intros c Hc; apply pkg_first_plain, Hc).
  assert (Has : forallb is_ascii t = true)
    by (revert H; apply forallb_impl; intros c Hc; apply pkg_first_plain, Hc).
  assert (Hnp : forallb (fun c => negb (not_pkg_first c)) t = true)
    by (revert H; apply forallb_impl; intros c Hc; apply pkg_first_plain, Hc).
  rewrite (trim_fixed _ Hws), (toLowerCase_ascii _ Has).
  assert (Hlow : map lower_ascii t = t).
  { clear - H. induction t as [|c u IH]; [reflexivity|].
    simpl in *. apply andb_prop in H as [Hc Hu].
    destruct (pkg_first_plain _ Hc) as (_ & _ & -> & _). rewrite IH; auto. }
  rewrite Hlow, (runs_from_fixed _ _ _ _ Hws).
  assert (Hst : strip_first dot_or_underscore t = t).
  { destruct t as [|c u]; [reflexivity|]. simpl in *.
    apply andb_prop in H as [Hc _].
    destruct (pkg_first_plain _ Hc) as (_ & _ & _ & -> & _). reflexivity. }
  rewrite Hst. apply runs_from_fixed, Hnp.
Qed.

(** C5: [toValidPackageName] is idempotent. *)
Theorem toValidPackageName_idempotent (s : jsstring) :
  toValidPackageName toLowerCase (toValidPackageName toLowerCase s) =
  toValidPackageName toLowerCase s.
Proof. apply toValidPackageName_fixed, toValidPackageName_class. Qed.

(** On an input whose trimmed form is ASCII the function can be run with
    the ASCII lowering. *)
Lemma toValidPackageName_ascii s :
  forallb is_ascii (trim s) = true ->
  tvpn s = toValidPackageName toLowerCase_ascii_strings s.
Proof.
  intros H. unfold tvpn, toValidPackageName.
  rewrite (toLowerCase_ascii _ H). reflexivity.
Qed.

(** C10: the sanitized name is not always a valid package name: for
    ["."], ["_"] and every string of white space only it is the empty
    string, which [isValidPackageName] rejects. *)
Theorem toValidPackageName_not_always_valid :
  toValidPackageName toLowerCase (str ".") = [] /\
  toValidPackageName toLowerCase (str "_") = [] /\
  (forall s, forallb is_ws s = true -> toValidPackageName toLowerCase s = []) /\
  isValidPackageName [] = false /\
  (exists s, isValidPackageName (toValidPackageName toLowerCase s) = false).
Proof.
  assert (Hws : forall s, forallb is_ws s = true ->
                          toValidPackageName toLowerCase s = []).
  { intros s H. fold tvpn. rewrite toValidPackageName_ascii.
    - unfold toValidPackageName. rewrite (trim_blank _ H). reflexivity.
    - rewrite (trim_blank _ H). reflexivity. }
  split; [fold tvpn; rewrite toValidPackageName_ascii; reflexivity|].
  split; [fold tvpn; rewrite toValidPackageName_ascii; reflexivity|].
  split; [exact Hws|]. split; [reflexivity|].
  exists (str "   "). rewrite Hws; reflexivity.
Qed.

End LoweringFacts.

Lemma toLowerCase_ascii_strings_ok s :
  forallb is_ascii s = true -> toLowerCase_ascii_strings s = map lower_ascii s.
Proof. reflexivity. Qed.

Lemma toValidPackageName_idempotent_witness :
  toValidPackageName toLowerCase_ascii_strings (str "my-cool-app-") =
  toValidPackageName toLowerCase_ascii_strings (str " My Cool App!!").
Proof.
  exact (toValidPackageName_idempotent toLowerCase_ascii_strings
           toLowerCase_ascii_strings_ok (str " My Cool App!!")).
Defined.

Lemma toValidPackageName_not_always_valid_witness :
  toValidPackageName toLowerCase_ascii_strings (str "." ) = [] /\
  toValidPackageName toLowerCase_ascii_strings [9; 32; 160]%N = [].
Proof.
  destruct (toValidPackageName_not_always_valid toLowerCase_ascii_strings
              toLowerCase_ascii_strings_ok) as (H1 & _ & H3 & _).
  split; [exact H1|apply H3; reflexivity].
Defined.

End Names.

(* ================================================================== *)
(** * Exceptions *)
(* ================================================================== *)

Module Exn.
Import JsString.

(** Error codes of the [node:fs] calls that the program makes. *)
Inductive errno : Type := ENOENT | ENOTDIR | EISDIR | EEXIST.

(** What a call can throw: [new Error(message)] of the program itself, a
    system error of [node:fs], and the [SyntaxError] and [TypeError] of
    the language.  A system error carries what the call was given: an
    absolute path that the program made with [path.join] or
    [path.resolve] ([SystemError]), or a path name as the user wrote it
    ([SystemErrorAt]). *)
Inductive exn : Type :=
| Error (message : jsstring)
| SystemError (code : errno) (at_path : list jsstring)
| SystemErrorAt (code : errno) (name : jsstring)
| SyntaxError
| TypeError.

Inductive result (A : Type) : Type :=
| Ok (a : A)
| Throw (e : exn).

Arguments Ok {A} a.
Arguments Throw {A} e.

Definition bind (A B : Type) (r : result A) (k : A -> result B) : result B :=
  match r with
  | Ok a => k a
  | Throw e => Throw e
  end.

End Exn.

Notation "x <- r ;; k" := (Exn.bind r (fun x => k))
  (at level 61, r at next level, right associativity).

(* ================================================================== *)
(** * The file system *)
(* ================================================================== *)

Module Fs.
Import JsString Exn.

(** A file-system tree.  A directory lists its entries in the order in
    which [readdirSync] reports them. *)
Inductive node : Type :=
| File (content : jsstring)
| Dir (entries : list (jsstring * node)).

(** An absolute path: the entry names from the root. *)
Definition path := list jsstring.

(** The state of the file system is its root directory. *)
Definition fs := node.

Fixpoint find (name : jsstring) (es : list (jsstring * node)) : option node :=
  match es with
  | [] => None
  | (k, v) :: t => if eqs k name then Some v else find name t
  end.

(** Apply [f] to the entry called [name] (the one [find] returns). *)
Fixpoint alter_entry (name : jsstring) (f : node -> node)
    (es : list (jsstring * node)) : list (jsstring * node) :=
  match es with
  | [] => []
  | (k, v) :: t =>
      if eqs k name then (k, f v) :: t else (k, v) :: alter_entry name f t
  end.

Definition without (name : jsstring) (es : list (jsstring * node))
  : list (jsstring * node) :=
  filter (fun e => negb (eqs (fst e) name)) es.

Fixpoint lookup (n : node) (p : path) : option node :=
  match p with
  | [] => Some n
  | name :: p' =>
      match n with
      | File _ => None
      | Dir es =>
          match find name es with
          | Some child => lookup child p'
          | None => None
          end
      end
  end.

(** Replace the node at an existing path. *)
Fixpoint put (p : path) (new : node) (n : node) : node :=
  match p with
  | [] => new
  | name :: p' =>
      match n with
      | File _ => n
      | Dir es => Dir (alter_entry name (put p' new) es)
      end
  end.

(** Does the path run through a regular file, that is, does it go on
    after a name that is one? *)
Fixpoint through_file (n : node) (p : path) : bool :=
  match p with
  | [] => false
  | name :: p' =>
      match n with
      | File _ => true
      | Dir es =>
          match find name es with
          | Some child => through_file child p'
          | None => false
          end
      end
  end.

(** What a call throws at a path where there is nothing: ENOTDIR when
    the path runs through a regular file, ENOENT when it leads
    nowhere. *)
Definition nothing_at (s : fs) (p : path) : exn :=
  SystemError (if through_file s p then ENOTDIR else ENOENT) p.

(** [fs.existsSync(p)] *)
Definition existsSync (s : fs) (p : path) : bool :=
  match lookup s p with Some _ => true | None => false end.

(** [fs.statSync(p).isDirectory()] *)
Definition statSync_isDirectory (s : fs) (p : path) : result bool :=
  match lookup s p with
  | Some (Dir _) => Ok true
  | Some (File _) => Ok false
  | None => Throw (nothing_at s p)
  end.

(** [fs.readdirSync(p)] *)
Definition readdirSync (s : fs) (p : path) : result (list jsstring) :=
  match lookup s p with
  | Some (Dir es) => Ok (map fst es)
  | Some (File _) => Throw (SystemError ENOTDIR p)
  | None => Throw (nothing_at s p)
  end.

(** [fs.readFileSync(p, 'utf-8')] *)
Definition readFileSync (s : fs) (p : path) : result jsstring :=
  match lookup s p with
  | Some (File c) => Ok c
  | Some (Dir _) => Throw (SystemError EISDIR p)
  | None => Throw (nothing_at s p)
  end.

(** [fs.rmSync(p, { recursive: true, force: true })]: the entry and all
    below it disappear; a path that does not exist is no error. *)
Fixpoint remove_at (p : path) (n : node) : node :=
  match p with
  | [] => n
  | [name] =>
      match n with
      | File _ => n
      | Dir es => Dir (without name es)
      end
  | name :: p' =>
      match n with
      | File _ => n
      | Dir es => Dir (alter_entry name (remove_at p') es)
      end
  end.

Definition rmSync (s : fs) (p : path) : fs := remove_at p s.

(** [fs.mkdirSync(p, { recursive: true })] *)
Fixpoint mkdir_at (whole p : path) (n : node) : result node :=
  match p with
  | [] =>
      match n with
      | Dir _ => Ok n
      | File _ => Throw (SystemError EEXIST whole)
      end
  | name :: p' =>
      match n with
      | File _ => Throw (SystemError ENOTDIR whole)
      | Dir es =>
          match find name es with
          | Some child =>
              c <- mkdir_at whole p' child ;;
              Ok (Dir (alter_entry name (fun _ => c) es))
          | None =>
              c <- mkdir_at whole p' (Dir []) ;;
              Ok (Dir (es ++ [(name, c)]))
          end
      end
  end.

Definition mkdirSync (s : fs) (p : path) : result fs := mkdir_at p p s.

(** [fs.writeFileSync(p, content)] *)
Fixpoint write_at (whole p : path) (content : jsstring) (n : node)
  : result node :=
  match p with
  | [] => Throw (SystemError EISDIR whole)
  | name :: p' =>
      match n with
      | File _ => Throw (SystemError ENOTDIR whole)
      | Dir es =>
          match find name es, p' with
          | Some (Dir _), [] => Throw (SystemError EISDIR whole)
          | Some (File _), [] =>
              Ok (Dir (alter_entry name (fun _ => File content) es))
          | None, [] => Ok (Dir (es ++ [(name, File content)]))
          | Some child, _ :: _ =>
              c <- write_at whole p' content child ;;
              Ok (Dir (alter_entry name (fun _ => c) es))
          | None, _ :: _ => Throw (SystemError ENOENT whole)
          end
      end
  end.

Definition writeFileSync (s : fs) (p : path) (content : jsstring) : result fs :=
  write_at p p content s.

(** [fs.copyFileSync(src, destination)] *)
Definition copyFileSync (s : fs) (src destination : path) : result fs :=
  content <- readFileSync s src ;;
  writeFileSync s destination content.

Definition dot_git : jsstring := str ".git".

(** [isEmpty]:
[[
  const files = fs.readdirSync(path)
  return files.length === 0 || (files.length === 1 && files[0] === '.git')
]] *)
Definition isEmpty (s : fs) (p : path) : result bool :=
  files <- readdirSync s p ;;
  Ok (Nat.eqb (length files) 0
      || (Nat.eqb (length files) 1
          && match files with f :: _ => eqs f dot_git | [] => false end)).

(** [emptyDir]:
[[
  if (!fs.existsSync(dir)) return
  for (const file of fs.readdirSync(dir)) {
    if (file === '.git') continue
    fs.rmSync(path.resolve(dir, file), { recursive: true, force: true })
  }
]]
    [path.resolve(dir, file)] of an absolute [dir] and an entry name is
    [dir ++ [file]]. *)
Definition emptyDir_step (dir : path) (s : fs) (file : jsstring) : fs :=
  if eqs file dot_git then s else rmSync s (dir ++ [file]).

Definition emptyDir (dir : path) (s : fs) : result fs :=
  if negb (existsSync s dir) then Ok s
  else
    files <- readdirSync s dir ;;
    Ok (fold_left (emptyDir_step dir) files s).

(** [copy] and [copyDir]:
[[
  function copy(src, destination) {
    const stat = fs.statSync(src)
    if (stat.isDirectory()) copyDir(src, destination)
    else fs.copyFileSync(src, destination)
  }
  function copyDir(srcDir, destinationDir) {
    fs.mkdirSync(destinationDir, { recursive: true })
    for (const file of fs.readdirSync(srcDir))
      copy(path.resolve(srcDir, file), path.resolve(destinationDir, file))
  }
]]
    Every step reads the file system as the steps before have left
    it.  A call changes the file system also when it throws: what was
    copied before stays.  [fuel] bounds the depth of the recursion;
    without fuel there is no result. *)

(** What a call that changes the file system gives: whether it returned
    or threw, and the file system it leaves. *)
Definition effect : Type := result unit * fs.

(** A call that changes nothing when it throws, and needs no fuel. *)
Definition atomically (f : fs -> result fs) (s : fs) : option effect :=
  match f s with
  | Ok s' => Some (Ok tt, s')
  | Throw e => Some (Throw e, s)
  end.

(** The loop of [copyDir]. *)
Fixpoint copy_files (copy : path -> path -> fs -> option effect)
    (srcDir destinationDir : path) (files : list jsstring) (s : fs)
  : option effect :=
  match files with
  | [] => Some (Ok tt, s)
  | file :: t =>
      match copy (srcDir ++ [file]) (destinationDir ++ [file]) s with
      | Some (Ok _, s') => copy_files copy srcDir destinationDir t s'
      | Some (Throw e, s') => Some (Throw e, s')
      | None => None
      end
  end.

Definition copyDir (copy : path -> path -> fs -> option effect)
    (srcDir destinationDir : path) (s : fs) : option effect :=
  match mkdirSync s destinationDir with
  | Throw e => Some (Throw e, s)
  | Ok s1 =>
      match readdirSync s1 srcDir with
      | Throw e => Some (Throw e, s1)
      | Ok files => copy_files copy srcDir destinationDir files s1
      end
  end.

Fixpoint copy (fuel : nat) (src destination : path) (s : fs)
  : option effect :=
  match fuel with
  | 0 => None
  | S fuel' =>
      match statSync_isDirectory s src with
      | Throw e => Some (Throw e, s)
      | Ok true => copyDir (copy fuel') src destination s
      | Ok false => atomically (fun s => copyFileSync s src destination) s
      end
  end.

(** ** Facts about the tree operations *)

Lemma alter_entry_ext name f g es child :
  find name es = Some child -> f child = g child ->
  alter_entry name f es = alter_entry name g es.
Proof.
  induction es as [|[k v] t IH]; simpl; [discriminate|].
  destruct (eqs k name).
  - intros H E. inversion H; subst. rewrite E. reflexivity.
  - intros H E. rewrite IH; auto.
Qed.

Lemma alter_entry_id name es child :
  find name es = Some child -> alter_entry name (fun _ => child) es = es.
Proof.
  induction es as [|[k v] t IH]; simpl; [discriminate|].
  destruct (eqs k name).
  - intros H. inversion H; subst. reflexivity.
  - intros H. rewrite IH; auto.
Qed.

Lemma alter_entry_twice name f g es :
  alter_entry name f (alter_entry name g es) =
  alter_entry name (fun v => f (g v)) es.
Proof.
  induction es as [|[k v] t IH]; simpl; [reflexivity|].
  destruct (eqs k name) eqn:E; simpl; rewrite E; [reflexivity|].
  rewrite IH. reflexivity.
Qed.

Lemma find_alter_entry name f es :
  find name (alter_entry name f es) =
  match find name es with Some v => Some (f v) | None => None end.
Proof.
  induction es as [|[k v] t IH]; simpl; [reflexivity|].
  destruct (eqs k name) eqn:E; simpl; rewrite E; [reflexivity|exact IH].
Qed.

Lemma find_alter_entry_other name other f es :
  eqs name other = false ->
  find other (alter_entry name f es) = find other es.
Proof.
  intros Hne. induction es as [|[k v] t IH]; simpl; [reflexivity|].
  destruct (eqs k name) eqn:E; simpl.
  - apply eqs_eq in E. subst k. rewrite Hne. reflexivity.
  - destruct (eqs k other); [reflexivity|exact IH].
Qed.

Lemma put_same p : forall s n, lookup s p = Some n -> put p n s = s.
Proof.
  induction p as [|name p' IH]; intros s n; simpl.
  - intros H. inversion H. reflexivity.
  - destruct s as [c|es]; [discriminate|].
    destruct (find name es) as [child|] eqn:F; [|discriminate].
    intros H. f_equal.
    rewrite (alter_entry_ext name (put p' n) (fun _ => child) es F (IH _ _ H)).
    apply alter_entry_id, F.
Qed.

Lemma put_put p a b : forall s, put p b (put p a s) = put p b s.
Proof.
  induction p as [|name p' IH]; intros s; simpl; [reflexivity|].
  destruct s as [c|es]; [reflexivity|].
  rewrite alter_entry_twice. f_equal.
  induction es as [|[k v] t IHt]; simpl; [reflexivity|].
  destruct (eqs k name); [rewrite IH|rewrite IHt]; reflexivity.
Qed.

Lemma lookup_put p new : forall s old,
  lookup s p = Some old -> lookup (put p new s) p = Some new.
Proof.
  induction p as [|name p' IH]; intros s old; simpl; [reflexivity|].
  destruct s as [c|es]; [discriminate|].
  rewrite find_alter_entry.
  destruct (find name es) as [child|]; [apply IH|discriminate].
Qed.

Lemma lookup_app s p q :
  lookup s (p ++ q) =
  match lookup s p with Some n => lookup n q | None => None end.
Proof.
  revert s. induction p as [|name p' IH]; intros s; simpl; [reflexivity|].
  destruct s as [c|es]; [reflexivity|].
  destruct (find name es); [apply IH|reflexivity].
Qed.

(** Two paths diverge when, after a common prefix, they continue with
    different names. *)
Definition diverge (p q : path) : Prop :=
  exists pre a b p' q',
    p = pre ++ a :: p' /\ q = pre ++ b :: q' /\ a <> b.

Lemma lookup_put_diverge p q new s :
  diverge p q -> lookup (put p new s) q = lookup s q.
Proof.
  intros (pre & a & b & p' & q' & -> & -> & Hab). revert s.
  induction pre as [|name pre IH]; intros s; simpl.
  - destruct s as [c|es]; [reflexivity|].
    rewrite find_alter_entry_other by (apply eqs_neq; exact Hab). reflexivity.
  - destruct s as [c|es]; [reflexivity|].
    rewrite find_alter_entry.
    destruct (find name es); [apply IH|reflexivity].
Qed.

Lemma remove_at_cons name p n :
  p <> [] ->
  remove_at (name :: p) n =
  match n with
  | File _ => n
  | Dir es => Dir (alter_entry name (remove_at p) es)
  end.
Proof. destruct p; [contradiction|reflexivity]. Qed.

Lemma remove_at_put dir f : forall s es,
  lookup s dir = Some (Dir es) ->
  remove_at (dir ++ [f]) s = put dir (Dir (without f es)) s.
Proof.
  induction dir as [|name d IH]; intros s es H.
  - simpl in *. inversion H. reflexivity.
  - change ((name :: d) ++ [f]) with (name :: (d ++ [f])).
    rewrite remove_at_cons by (destruct d; discriminate).
    simpl in *. destruct s as [c|es0]; [discriminate|].
    destruct (find name es0) as [child|] eqn:F; [|discriminate].
    f_equal. apply (alter_entry_ext _ _ _ _ F). apply IH, H.
Qed.

(** ** [isEmpty] *)

(** C7: on an existing directory [isEmpty] returns true exactly when the
    list of entries is empty or consists of the single name [".git"]; in
    particular it returns false as soon as an entry with another name is
    present. *)
Theorem isEmpty_spec (s : fs) (p : path) (es : list (jsstring * node)) :
  lookup s p = Some (Dir es) ->
  (exists b, isEmpty s p = Ok b) /\
  (isEmpty s p = Ok true <-> map fst es = [] \/ map fst es = [dot_git]) /\
  (forall n, es = [(dot_git, n)] -> isEmpty s p = Ok true) /\
  (forall other, In other (map fst es) -> other <> dot_git ->
                 isEmpty s p = Ok false).
Proof.
  intros H. unfold isEmpty, readdirSync. rewrite H. simpl.
  destruct (map fst es) as [|f [|g t]] eqn:E; simpl.
  - split; [eauto|]. split; [tauto|]. split; [intros n ->; discriminate|].
    intros other [].
  - split; [eauto|]. split; [|split].
    + split.
      * intros B. inversion B as [B']. apply eqs_eq in B'. subst f. auto.
      * intros [B|B]; [discriminate|]. inversion B. reflexivity.
    + intros n ->. simpl in E. inversion E. reflexivity.
    + intros other [->|[]] Hne. apply eqs_neq in Hne. rewrite Hne. reflexivity.
  - split; [eauto|]. split; [|split].
    + split; [discriminate|intros [B|B]; discriminate].
    + intros n ->. discriminate.
    + reflexivity.
Qed.

Lemma isEmpty_spec_witness :
  let s := Dir [(str "demo", Dir [(dot_git, Dir []); (str "a.txt", File [])])] in
  isEmpty s [str "demo"] = Ok false.
Proof.
  intros s.
  refine (proj2 (proj2 (proj2 (isEmpty_spec s [str "demo"] eq_refl)))
            (str "a.txt") _ _).
  - simpl. auto.
  - discriminate.
Defined.

(** ** [emptyDir] *)

Definition is_git (e : jsstring * node) : bool := eqs (fst e) dot_git.

Lemma filter_filter (A : Type) (p q : A -> bool) l :
  filter p (filter q l) = filter (fun x => q x && p x) l.
Proof.
  induction l as [|x l IH]; simpl; [reflexivity|].
  destruct (q x); simpl; [destruct (p x)|]; rewrite IH; reflexivity.
Qed.

(** What the loop leaves of the entries, as a function of the names it
    has gone through. *)
Lemma emptyDir_entries names : forall es,
  fold_left (fun es f => if eqs f dot_git then es else without f es) names es =
  filter (fun e => is_git e || negb (existsb (eqs (fst e)) names)) es.
Proof.
  induction names as [|f t IH]; intros es; simpl.
  - symmetry. rewrite <- (filter_ext (fun _ => true)).
    + induction es as [|e es IHes]; simpl; [|rewrite IHes]; reflexivity.
    + intros e. rewrite orb_true_r. reflexivity.
  - rewrite IH. destruct (eqs f dot_git) eqn:G.
    + apply eqs_eq in G. subst f. apply filter_ext. intros e. unfold is_git.
      destruct (eqs (fst e) dot_git); reflexivity.
    + unfold without. rewrite filter_filter. apply filter_ext. intros e.
      unfold is_git. destruct (eqs (fst e) dot_git) eqn:Ge; simpl.
      * apply eqs_eq in Ge. rewrite Ge, eqs_sym_false; [reflexivity|exact G].
      * destruct (eqs (fst e) f); reflexivity.
Qed.

(** The loop, as one replacement of the directory node. *)
Lemma emptyDir_loop dir files : forall s es,
  lookup s dir = Some (Dir es) ->
  fold_left (emptyDir_step dir) files s =
  put dir
    (Dir (fold_left (fun es f => if eqs f dot_git then es else without f es)
            files es)) s.
Proof.
  induction files as [|f t IH]; intros s es H; simpl.
  - symmetry. apply put_same, H.
  - unfold emptyDir_step at 2. destruct (eqs f dot_git).
    + apply IH, H.
    + unfold rmSync. rewrite (remove_at_put _ _ _ H).
      rewrite (IH _ (without f es)) by (eapply lookup_put, H).
      apply put_put.
Qed.

Lemma emptyDir_directory dir s es :
  lookup s dir = Some (Dir es) ->
  emptyDir dir s = Ok (put dir (Dir (filter is_git es)) s).
Proof.
  intros H. unfold emptyDir, existsSync, readdirSync. rewrite H. simpl.
  rewrite (emptyDir_loop _ _ _ H), emptyDir_entries. do 3 f_equal.
  apply filter_ext_in. intros e He.
  assert (X : existsb (eqs (fst e)) (map fst es) = true).
  { apply existsb_exists. exists (fst e). split; [apply in_map, He|apply eqs_refl]. }
  rewrite X, orb_false_r. reflexivity.
Qed.

(** C8: [emptyDir] changes nothing and throws nothing when the path does
    not exist.  On a directory it throws nothing and replaces the
    directory by what is left of it when every entry not called [".git"]
    is removed, whatever lies below the removed entries: the [".git"]
    entries stay as they are, and so does everything at paths that
    diverge from the directory. *)
Theorem emptyDir_spec :
  (forall s dir, existsSync s dir = false -> emptyDir dir s = Ok s) /\
  (forall s dir es,
     lookup s dir = Some (Dir es) ->
     exists s',
       emptyDir dir s = Ok s' /\
       s' = put dir (Dir (filter is_git es)) s /\
       lookup s' dir = Some (Dir (filter is_git es)) /\
       (forall e, In e es -> fst e <> dot_git ->
                  ~ In (fst e) (map fst (filter is_git es))) /\
       (forall q, lookup s (dir ++ [dot_git]) = lookup s' (dir ++ [dot_git]) /\
                  lookup s (dir ++ dot_git :: q) = lookup s' (dir ++ dot_git :: q)) /\
       (forall q, diverge dir q -> lookup s' q = lookup s q)).
Proof.
  split.
  - intros s dir H. unfold emptyDir. rewrite H. reflexivity.
  - intros s dir es H. eexists. split; [apply emptyDir_directory, H|].
    split; [reflexivity|]. split; [eapply lookup_put, H|].
    split; [|split].
    + intros e _ Hne Hin. apply in_map_iff in Hin as (e' & E & Hin').
      apply filter_In in Hin' as [_ G]. apply eqs_eq in G. congruence.
    + assert (G : forall q, lookup s (dir ++ dot_git :: q) =
                            lookup (put dir (Dir (filter is_git es)) s)
                                   (dir ++ dot_git :: q)).
      { intros q. rewrite !lookup_app, H, (lookup_put _ _ _ H). simpl.
        replace (find dot_git (filter is_git es)) with (find dot_git es);
          [reflexivity|].
        clear. induction es as [|[k v] t IH]; simpl; [reflexivity|].
        unfold is_git at 1. simpl. destruct (eqs k dot_git) eqn:E; simpl.
        - rewrite E. reflexivity.
        - exact IH. }
      intros q. split; apply G.
    + intros q Hq. apply lookup_put_diverge, Hq.
Qed.

Lemma emptyDir_spec_witness :
  let s := Dir [(str "demo",
                 Dir [(str "src", Dir [(str "a.js", File (str "1"))]);
                      (dot_git, Dir [(str "HEAD", File (str "ref"))]);
                      (str "b.txt", File [])]);
                (str "other", File (str "x"))] in
  emptyDir [str "nowhere"] s = Ok s /\
  emptyDir [str "demo"] s =
    Ok (Dir [(str "demo", Dir [(dot_git, Dir [(str "HEAD", File (str "ref"))])]);
             (str "other", File (str "x"))]).
Proof.
  intros s. destruct emptyDir_spec as [H1 H2]. split.
  - apply H1. reflexivity.
  - destruct (H2 s [str "demo"] _ eq_refl) as (s' & E & -> & _). exact E.
Defined.

End Fs.

(* ================================================================== *)
(** * JSON: [JSON.parse], property assignment, [JSON.stringify] *)
(* ================================================================== *)

Module Json.
Import JsString Exn.

Section Numbers.

(** The Number values of the language are IEEE doubles; reading a number
    token and printing a Number are the runtime's.  They enter as
    parameters: [number_of_token] is the value of a JSON number token and
    [token_of_number] is [Number::toString] for a finite Number and
    [None] for a Number that is not finite, which [JSON.stringify]
    writes as [null]. *)
Variable number : Type.
Variable number_of_token : jsstring -> number.
Variable token_of_number : number -> option jsstring.

(** A JSON text, parsed; and a JavaScript value made of the same
    constructors.  As a parsed text an object lists its members in the
    order of the text; as a value it lists its own properties in the
    order in which the language enumerates them. *)
Inductive json : Type :=
| JNull
| JBool (b : bool)
| JNumber (n : number)
| JString (s : jsstring)
| JArray (elements : list json)
| JObject (members : list (jsstring * json)).

(** ** Reading a text *)

(** JSON white space: tab, line feed, carriage return, space. *)
Definition is_json_ws (c : N) : bool :=
  (c =? 9)%N || (c =? 10)%N || (c =? 13)%N || (c =? 32)%N.

Definition skip_ws (s : jsstring) : jsstring := drop_leading is_json_ws s.

(** The value of a hexadecimal digit. *)
Definition unhex (c : N) : option N :=
  if is_digit c then Some (c - 48)%N
  else if between 97 102 c then Some (c - 87)%N
  else if between 65 70 c then Some (c - 55)%N
  else None.

Definition unhex4 (a b c d : N) : option N :=
  match unhex a, unhex b, unhex c, unhex d with
  | Some x, Some y, Some z, Some w => Some (((x * 16 + y) * 16 + z) * 16 + w)%N
  | _, _, _, _ => None
  end.

Definition cons_unit (c : N) (r : option (jsstring * jsstring))
  : option (jsstring * jsstring) :=
  match r with
  | Some (s, rest) => Some (c :: s, rest)
  | None => None
  end.

(** The code unit that a one-letter escape stands for: after the
    backslash a quote, a backslash, a slash, or one of b, f, n, r, t. *)
Definition escape_unit (e : N) : option N :=
  if (e =? 34)%N then Some 34%N
  else if (e =? 92)%N then Some 92%N
  else if (e =? 47)%N then Some 47%N
  else if (e =? 98)%N then Some 8%N
  else if (e =? 102)%N then Some 12%N
  else if (e =? 110)%N then Some 10%N
  else if (e =? 114)%N then Some 13%N
  else if (e =? 116)%N then Some 9%N
  else None.

(** A string token after its opening quote: the code units up to the
    closing quote, escapes resolved, and the text after the token. *)
Fixpoint parse_string_body (s : jsstring) : option (jsstring * jsstring) :=
  match s with
  | [] => None
  | c :: r =>
      if (c =? 34)%N then Some ([], r)                       (* closing quote *)
      else if (c =? 92)%N then                               (* backslash *)
        match r with
        | [] => None
        | e :: r1 =>
            match escape_unit e with
            | Some u => cons_unit u (parse_string_body r1)
            | None =>
                if (e =? 117)%N then                         (* \uXXXX *)
                  match r1 with
                  | h1 :: h2 :: h3 :: h4 :: r2 =>
                      match unhex4 h1 h2 h3 h4 with
                      | Some u => cons_unit u (parse_string_body r2)
                      | None => None
                      end
                  | _ => None
                  end
                else None
            end
        end
      else if (c <? 32)%N then None
      else cons_unit c (parse_string_body r)
  end.

(** Number tokens: an optional minus sign; then a zero, or a digit from
    1 to 9 followed by any digits; then, optionally, a dot and one or
    more digits; then, optionally, an e or E, an optional sign and one
    or more digits.  [take_digits] splits off the longest prefix of
    digits. *)
Fixpoint take_digits (s : jsstring) : jsstring * jsstring :=
  match s with
  | c :: r =>
      if is_digit c then let (d, rest) := take_digits r in (c :: d, rest)
      else ([], s)
  | [] => ([], [])
  end.

Definition lex_int (s : jsstring) : option (jsstring * jsstring) :=
  match s with
  | c :: r =>
      if (c =? 48)%N then Some ([c], r)
      else if is_digit c then
        let (d, rest) := take_digits r in Some (c :: d, rest)
      else None
  | [] => None
  end.

Definition lex_frac (s : jsstring) : option (jsstring * jsstring) :=
  match s with
  | c :: r =>
      if (c =? 46)%N then
        match take_digits r with
        | ([], _) => None
        | (d, rest) => Some (c :: d, rest)
        end
      else Some ([], s)
  | [] => Some ([], s)
  end.

Definition lex_sign (s : jsstring) : jsstring * jsstring :=
  match s with
  | c :: r => if (c =? 43)%N || (c =? 45)%N then ([c], r) else ([], s)
  | [] => ([], s)
  end.

Definition lex_exp (s : jsstring) : option (jsstring * jsstring) :=
  match s with
  | e :: r =>
      if (e =? 101)%N || (e =? 69)%N then
        let (sign, r') := lex_sign r in
        match take_digits r' with
        | ([], _) => None
        | (d, rest) => Some (e :: sign ++ d, rest)
        end
      else Some ([], s)
  | [] => Some ([], s)
  end.

Definition lex_minus (s : jsstring) : jsstring * jsstring :=
  match s with
  | c :: r => if (c =? 45)%N then ([c], r) else ([], s)
  | [] => ([], s)
  end.

Definition lex_number (s : jsstring) : option (jsstring * jsstring) :=
  let (minus, s1) := lex_minus s in
  match lex_int s1 with
  | None => None
  | Some (i, s2) =>
      match lex_frac s2 with
      | None => None
      | Some (f, s3) =>
          match lex_exp s3 with
          | None => None
          | Some (e, s4) => Some (minus ++ i ++ f ++ e, s4)
          end
      end
  end.

(** [s] without the prefix [p], when it has it. *)
Fixpoint strip_prefix (p s : jsstring) : option jsstring :=
  match p, s with
  | [], _ => Some s
  | a :: p', b :: s' => if (a =? b)%N then strip_prefix p' s' else None
  | _ :: _, [] => None
  end.

(** The literals [true], [false] and [null]. *)
Definition parse_literal (s : jsstring) : option (json * jsstring) :=
  match strip_prefix (str "true") s with
  | Some rest => Some (JBool true, rest)
  | None =>
      match strip_prefix (str "false") s with
      | Some rest => Some (JBool false, rest)
      | None =>
          match strip_prefix (str "null") s with
          | Some rest => Some (JNull, rest)
          | None => None
          end
      end
  end.

(** A value, its members and its elements.  [fuel] bounds the depth of
    the recursion; the length of the text is always enough. *)
Fixpoint parse_value (fuel : nat) (s : jsstring) {struct fuel}
  : option (json * jsstring) :=
  match fuel with
  | O => None
  | S fuel' =>
      match s with
      | [] => None
      | c :: r =>
          if (c =? 123)%N then                               (* an object *)
            match skip_ws r with
            | [] => None
            | d :: r' =>
                if (d =? 125)%N then Some (JObject [], r')
                else
                  match parse_members fuel' (d :: r') with
                  | Some (ms, rest) => Some (JObject ms, rest)
                  | None => None
                  end
            end
          else if (c =? 91)%N then                           (* an array *)
            match skip_ws r with
            | [] => None
            | d :: r' =>
                if (d =? 93)%N then Some (JArray [], r')
                else
                  match parse_elements fuel' (d :: r') with
                  | Some (vs, rest) => Some (JArray vs, rest)
                  | None => None
                  end
            end
          else if (c =? 34)%N then                           (* a string *)
            match parse_string_body r with
            | Some (k, rest) => Some (JString k, rest)
            | None => None
            end
          else
            match parse_literal s with
            | Some found => Some found
            | None =>
                match lex_number s with
                | Some (t, rest) => Some (JNumber (number_of_token t), rest)
                | None => None
                end
            end
      end
  end

with parse_members (fuel : nat) (s : jsstring) {struct fuel}
  : option (list (jsstring * json) * jsstring) :=
  match fuel with
  | O => None
  | S fuel' =>
      match s with
      | [] => None
      | q :: r =>
          if (q =? 34)%N then
            match parse_string_body r with
            | None => None
            | Some (k, r1) =>
                match skip_ws r1 with
                | [] => None
                | colon :: r2 =>
                    if (colon =? 58)%N then
                      match parse_value fuel' (skip_ws r2) with
                      | None => None
                      | Some (v, r3) =>
                          match skip_ws r3 with
                          | [] => None
                          | d :: r4 =>
                              if (d =? 44)%N then
                                match parse_members fuel' (skip_ws r4) with
                                | Some (ms, rest) => Some ((k, v) :: ms, rest)
                                | None => None
                                end
                              else if (d =? 125)%N then Some ([(k, v)], r4)
                              else None
                          end
                      end
                    else None
                end
            end
          else None
      end
  end

with parse_elements (fuel : nat) (s : jsstring) {struct fuel}
  : option (list json * jsstring) :=
  match fuel with
  | O => None
  | S fuel' =>
      match parse_value fuel' s with
      | None => None
      | Some (v, r1) =>
          match skip_ws r1 with
          | [] => None
          | d :: r2 =>
              if (d =? 44)%N then
                match parse_elements fuel' (skip_ws r2) with
                | Some (vs, rest) => Some (v :: vs, rest)
                | None => None
                end
              else if (d =? 93)%N then Some ([v], r2)
              else None
          end
      end
  end.

(** The parsed text: one value between white space, and nothing else. *)
Definition parse_text (text : jsstring) : option json :=
  match parse_value (length text) (skip_ws text) with
  | Some (v, rest) =>
      match skip_ws rest with
      | [] => Some v
      | _ :: _ => None
      end
  | None => None
  end.

(** ** Objects as values *)

Definition digit_value (c : N) : N := (c - 48)%N.

(** The number written by a string of decimal digits. *)
Definition decimal (s : jsstring) : N :=
  fold_left (fun acc c => acc * 10 + digit_value c)%N s 0%N.

(** An array index is a canonical numeric string: digits without a
    leading zero (or the single digit zero), of a value below
    [2^32 - 1]. *)
Definition array_index (k : jsstring) : option N :=
  match k with
  | [] => None
  | c :: t =>
      if forallb is_digit k
         && (negb (c =? 48)%N || is_nil t)
         && (decimal k <? 4294967295)%N
      then Some (decimal k)
      else None
  end.


Fixpoint has_key (k : jsstring) (props : list (jsstring * json)) : bool :=
  match props with
  | [] => false
  | (k', _) :: t => eqs k' k || has_key k t
  end.

(** Give the existing property [k] the value [v], at its place. *)
Fixpoint set_value (k : jsstring) (v : json) (props : list (jsstring * json))
  : list (jsstring * json) :=
  match props with
  | [] => []
  | (k', v') :: t =>
      if eqs k' k then (k', v) :: t else (k', v') :: set_value k v t
  end.

(** A new property with the array index [i] goes before the first
    property that is not an array index or is a larger one. *)
Fixpoint insert_index (i : N) (k : jsstring) (v : json)
    (props : list (jsstring * json)) : list (jsstring * json) :=
  match props with
  | [] => [(k, v)]
  | (k', v') :: t =>
      match array_index k' with
      | Some j =>
          if (j <? i)%N then (k', v') :: insert_index i k v t
          else (k, v) :: props
      | None => (k, v) :: props
      end
  end.

(** Defining the property [k]: an existing property keeps its place and
    takes the new value; a new property whose key is an array index
    joins the array indices, which come first in ascending order; any
    other new property comes last. *)
Definition define_property (props : list (jsstring * json))
    (k : jsstring) (v : json) : list (jsstring * json) :=
  if has_key k props then set_value k v props
  else
    match array_index k with
    | Some i => insert_index i k v props
    | None => props ++ [(k, v)]
    end.

(** The value that [JSON.parse] builds from a parsed text: the members of
    an object are defined as properties one after the other. *)
Fixpoint internalize (t : json) : json :=
  match t with
  | JArray vs => JArray (map internalize vs)
  | JObject ms =>
      JObject
        (fold_left (fun props m => define_property props (fst m) (snd m))
           (map (fun m : jsstring * json => let (k, v) := m in (k, internalize v)) ms)
           [])
  | _ => t
  end.

(** [JSON.parse(text)] *)
Definition JSON_parse (text : jsstring) : result json :=
  match parse_text text with
  | Some t => Ok (internalize t)
  | None => Throw SyntaxError
  end.

Definition key_name : jsstring := str "name".

(** [pkg.name = name] in a module, which is strict code.  On an object
    the property is set.  On an array a property called [name] is set,
    which [JSON.stringify] does not write.  On [null] and on a primitive
    value the assignment throws a [TypeError]. *)
Definition assign_name (pkg : json) (name : jsstring) : result json :=
  match pkg with
  | JObject props => Ok (JObject (define_property props key_name (JString name)))
  | JArray vs => Ok (JArray vs)
  | _ => Throw TypeError
  end.

(** ** Writing a value *)

Definition hex_digit (d : N) : N := if (d <? 10)%N then (48 + d)%N else (87 + d)%N.

(** The four lower-case hexadecimal digits of a code unit. *)
Definition hex4 (c : N) : jsstring :=
  [hex_digit ((c / 4096) mod 16); hex_digit ((c / 256) mod 16);
   hex_digit ((c / 16) mod 16); hex_digit (c mod 16)]%N.

Definition unicode_escape (c : N) : jsstring := 92%N :: 117%N :: hex4 c.

Definition is_high_surrogate (c : N) : bool := between 55296 56319 c.
Definition is_low_surrogate (c : N) : bool := between 56320 57343 c.

(** The letter of the one-letter escape of a code unit, for the quote,
    the backslash, and backspace, tab, line feed, form feed and carriage
    return. *)
Definition escape_letter (c : N) : option N :=
  if (c =? 34)%N then Some 34%N
  else if (c =? 92)%N then Some 92%N
  else if (c =? 8)%N then Some 98%N
  else if (c =? 9)%N then Some 116%N
  else if (c =? 10)%N then Some 110%N
  else if (c =? 12)%N then Some 102%N
  else if (c =? 13)%N then Some 114%N
  else None.

(** [QuoteJSONString] without the two quotes.  A surrogate pair is
    written as it is; a surrogate that stands alone is escaped. *)
Fixpoint quote_body (s : jsstring) : jsstring :=
  match s with
  | [] => []
  | c :: t =>
      match escape_letter c with
      | Some e => 92%N :: e :: quote_body t
      | None =>
          if (c <? 32)%N then unicode_escape c ++ quote_body t
          else if is_high_surrogate c then
            match t with
            | d :: t' =>
                if is_low_surrogate d then c :: d :: quote_body t'
                else unicode_escape c ++ quote_body t
            | [] => unicode_escape c
            end
          else if is_low_surrogate c then unicode_escape c ++ quote_body t
          else c :: quote_body t
      end
  end.

Definition quote (s : jsstring) : jsstring := 34%N :: quote_body s ++ [34%N].

(** A line break followed by the indentation. *)
Definition newline (indent : jsstring) : jsstring := 10%N :: indent.

(** The gap of [JSON.stringify(value, null, 2)]. *)
Definition gap : jsstring := [32; 32]%N.

(** [SerializeJSONProperty] with a gap of two spaces.  [indent] is the
    indentation of the line on which the value starts. *)
Fixpoint serialize (indent : jsstring) (v : json) {struct v} : jsstring :=
  match v with
  | JNull => str "null"
  | JBool true => str "true"
  | JBool false => str "false"
  | JNumber n =>
      match token_of_number n with
      | Some t => t
      | None => str "null"
      end
  | JString s => quote s
  | JArray [] => str "[]"
  | JArray (x :: xs) =>
      91%N :: newline (indent ++ gap) ++ serialize (indent ++ gap) x
      ++ (fix rest (xs : list json) : jsstring :=
            match xs with
            | [] => newline indent ++ [93%N]
            | y :: ys =>
                44%N :: newline (indent ++ gap)
                ++ serialize (indent ++ gap) y ++ rest ys
            end) xs
  | JObject [] => str "{}"
  | JObject ((k, x) :: ms) =>
      123%N :: newline (indent ++ gap)
      ++ quote k ++ [58; 32]%N ++ serialize (indent ++ gap) x
      ++ (fix rest (ms : list (jsstring * json)) : jsstring :=
            match ms with
            | [] => newline indent ++ [125%N]
            | (k', y) :: ms' =>
                44%N :: newline (indent ++ gap)
                ++ quote k' ++ [58; 32]%N ++ serialize (indent ++ gap) y
                ++ rest ms'
            end) ms
  end.

(** [JSON.stringify(value, null, 2)] *)
Definition JSON_stringify (v : json) : jsstring := serialize [] v.

(** ** The manifest *)

(** The rewriting of the manifest in [init]:
[[
  const pkg = JSON.parse(fs.readFileSync(..., 'utf-8'))
  pkg.name = packageName || getProjectName()
  write('package.json', JSON.stringify(pkg, null, 2) + '\n')
]]
    [text] is the text read and [name] the name assigned; the result is
    the text written. *)
Definition rewrite_manifest (text name : jsstring) : result jsstring :=
  pkg <- JSON_parse text ;;
  pkg' <- assign_name pkg name ;;
  Ok (JSON_stringify pkg' ++ [10%N]).

(** ** Strings are read back as they were written *)

(** The four hexadecimal digits of a code unit give it back. *)
Lemma nibbles c :
  (c < 65536)%N ->
  ((((c / 4096) mod 16 * 16 + (c / 256) mod 16) * 16 + (c / 16) mod 16) * 16
   + c mod 16 = c)%N.
Proof.
  intros H.
  replace (c / 256)%N with (c / 16 / 16)%N by (rewrite N.Div0.div_div; reflexivity).
  replace (c / 4096)%N with (c / 16 / 16 / 16)%N
    by (rewrite !N.Div0.div_div; reflexivity).
  assert (nz : 16%N <> 0%N) by discriminate.
  pose proof (N.div_mod c 16 nz) as E0.
  pose proof (N.div_mod (c / 16) 16 nz) as E1.
  pose proof (N.div_mod (c / 16 / 16) 16 nz) as E2.
  pose proof (N.mod_lt c 16 nz) as L0.
  pose proof (N.mod_lt (c / 16) 16 nz) as L1.
  pose proof (N.mod_lt (c / 16 / 16) 16 nz) as L2.
  set (a := (c / 16)%N) in *. set (b := (a / 16)%N) in *.
  set (d := (b / 16)%N) in *.
  set (r0 := (c mod 16)%N) in *. set (r1 := (a mod 16)%N) in *.
  set (r2 := (b mod 16)%N) in *.
  assert (D : (d < 16)%N) by (clearbody a b d r0 r1 r2; lia).
  rewrite (N.mod_small _ _ D). clearbody a b d r0 r1 r2. lia.
Qed.

Lemma unhex_hex_digit d : (d < 16)%N -> unhex (hex_digit d) = Some d.
Proof.
  intros H. unfold unhex, hex_digit, is_digit, between.
  destruct (N.ltb_spec d 10); cmp; f_equal; lia.
Qed.

Lemma unhex4_hex4 c :
  (c < 65536)%N ->
  match hex4 c with
  | [h1; h2; h3; h4] => unhex4 h1 h2 h3 h4 = Some c
  | _ => False
  end.
Proof.
  intros H. unfold hex4, unhex4.
  rewrite !unhex_hex_digit by (apply N.mod_lt; discriminate).
  f_equal. apply nibbles, H.
Qed.

Lemma escape_letter_unit c e :
  escape_letter c = Some e ->
  escape_unit e = Some c /\ (e =? 34)%N || negb (92 =? 34)%N = true.
Proof.
  unfold escape_letter.
  repeat match goal with
    | |- context [(c =? ?k)%N] =>
        destruct (N.eqb_spec c k);
        [subst c; intros E; inversion E; split; reflexivity|]
    end.
  discriminate.
Qed.

(** Reading an escape [\uXXXX] written by [unicode_escape]. *)
Lemma parse_unicode_escape c tail :
  (c < 65536)%N ->
  parse_string_body (unicode_escape c ++ tail) =
  cons_unit c (parse_string_body tail).
Proof.
  intros H. pose proof (unhex4_hex4 H) as U. unfold unicode_escape.
  destruct (hex4 c) as [|h1 [|h2 [|h3 [|h4 [|x l]]]]]; try contradiction.
  simpl. rewrite U. reflexivity.
Qed.

(** Reading a code unit that was written as it is. *)
Lemma parse_plain_unit c tail :
  escape_letter c = None -> (c <? 32)%N = false ->
  parse_string_body (c :: tail) = cons_unit c (parse_string_body tail).
Proof.
  intros E L. simpl. unfold escape_letter in E.
  destruct (c =? 34)%N; [discriminate|].
  destruct (c =? 92)%N; [discriminate|].
  rewrite L. reflexivity.
Qed.

Lemma surrogate_range c :
  is_high_surrogate c = true \/ is_low_surrogate c = true ->
  (c < 65536)%N /\ escape_letter c = None /\ (c <? 32)%N = false.
Proof.
  unfold is_high_surrogate, is_low_surrogate, between, escape_letter.
  intros [H|H]; apply andb_prop in H as [H1 H2];
    apply N.leb_le in H1, H2; repeat split; cmp.
Qed.

Lemma quote_body_cons c t :
  quote_body (c :: t) =
  match escape_letter c with
  | Some e => 92%N :: e :: quote_body t
  | None =>
      if (c <? 32)%N then unicode_escape c ++ quote_body t
      else if is_high_surrogate c then
        match t with
        | d :: t' =>
            if is_low_surrogate d then c :: d :: quote_body t'
            else unicode_escape c ++ quote_body t
        | [] => unicode_escape c
        end
      else if is_low_surrogate c then unicode_escape c ++ quote_body t
      else c :: quote_body t
  end.
Proof. reflexivity. Qed.

Lemma parse_quote_body_len n : forall s rest,
  length s <= n ->
  parse_string_body (quote_body s ++ 34%N :: rest) = Some (s, rest).
Proof.
  induction n as [|n IH]; intros s rest Hn.
  - destruct s; [reflexivity|simpl in Hn; lia].
  - destruct s as [|c t]; [reflexivity|]. simpl in Hn.
    assert (Ht : parse_string_body (quote_body t ++ 34%N :: rest) = Some (t, rest))
      by (apply IH; lia).
    rewrite quote_body_cons.
    destruct (escape_letter c) as [e|] eqn:E.
    + apply escape_letter_unit in E as [E _].
      simpl. rewrite E, Ht. reflexivity.
    + destruct (c <? 32)%N eqn:L.
      * rewrite <- app_assoc, parse_unicode_escape, Ht; [reflexivity|].
        apply N.ltb_lt in L. lia.
      * destruct (is_high_surrogate c) eqn:Hi.
        -- destruct (surrogate_range c (or_introl Hi)) as (B & _ & _).
           destruct t as [|d t'].
           ++ rewrite parse_unicode_escape by exact B. reflexivity.
           ++ destruct (is_low_surrogate d) eqn:Lo.
              ** destruct (surrogate_range d (or_intror Lo)) as (_ & Ed & Ld).
                 rewrite <- !app_comm_cons.
                 rewrite (parse_plain_unit c _ E L), (parse_plain_unit d _ Ed Ld).
                 rewrite IH by (simpl in Hn; lia). reflexivity.
              ** rewrite <- app_assoc, parse_unicode_escape, Ht by exact B.
                 reflexivity.
        -- destruct (is_low_surrogate c) eqn:Lo.
           ++ destruct (surrogate_range c (or_intror Lo)) as (B & _ & _).
              rewrite <- app_assoc, parse_unicode_escape, Ht by exact B.
              reflexivity.
           ++ rewrite <- app_comm_cons, (parse_plain_unit c _ E L), Ht. reflexivity.
Qed.

Lemma parse_quote_body s rest :
  parse_string_body (quote_body s ++ 34%N :: rest) = Some (s, rest).
Proof. apply (parse_quote_body_len (n := length s)). lia. Qed.

(** ** Values are read back as they were written *)

(** Induction on a value, its elements and its members. *)
Lemma json_induction (P : json -> Prop) :
  P JNull -> (forall b, P (JBool b)) -> (forall n, P (JNumber n)) ->
  (forall s, P (JString s)) ->
  (forall vs, Forall P vs -> P (JArray vs)) ->
  (forall ms, Forall (fun m => P (snd m)) ms -> P (JObject ms)) ->
  forall v, P v.
Proof.
  intros Hnull Hbool Hnum Hstr Harr Hobj.
  fix IH 1. intros v. destruct v as [|b|n|s|vs|ms].
  - exact Hnull.
  - apply Hbool.
  - apply Hnum.
  - apply Hstr.
  - apply Harr. revert vs. fix IHvs 1.
    intros [|x xs]; constructor; [apply IH|apply IHvs].
  - apply Hobj. revert ms. fix IHms 1.
    intros [|[k x] ms']; constructor; [apply IH|apply IHms].
Qed.

(** The tail of an array after an element, and of an object after a
    member. *)
Fixpoint elements_rest (indent : jsstring) (xs : list json) : jsstring :=
  match xs with
  | [] => newline indent ++ [93%N]
  | y :: ys =>
      44%N :: newline (indent ++ gap)
      ++ serialize (indent ++ gap) y ++ elements_rest indent ys
  end.

Fixpoint members_rest (indent : jsstring) (ms : list (jsstring * json))
  : jsstring :=
  match ms with
  | [] => newline indent ++ [125%N]
  | (k, y) :: ms' =>
      44%N :: newline (indent ++ gap)
      ++ quote k ++ [58; 32]%N ++ serialize (indent ++ gap) y
      ++ members_rest indent ms'
  end.

Lemma serialize_array indent x xs :
  serialize indent (JArray (x :: xs)) =
  91%N :: newline (indent ++ gap) ++ serialize (indent ++ gap) x
  ++ elements_rest indent xs.
Proof.
  cbn [serialize]. do 3 f_equal.
  induction xs as [|y ys IH]; [reflexivity|].
  cbn [elements_rest]. rewrite <- IH. reflexivity.
Qed.

Lemma serialize_object indent k x ms :
  serialize indent (JObject ((k, x) :: ms)) =
  123%N :: newline (indent ++ gap)
  ++ quote k ++ [58; 32]%N ++ serialize (indent ++ gap) x
  ++ members_rest indent ms.
Proof.
  cbn [serialize]. do 5 f_equal.
  induction ms as [|[k' y] ms' IH]; [reflexivity|].
  cbn [members_rest]. rewrite <- IH. reflexivity.
Qed.

(** A code unit that can continue a number token. *)
Definition continues_number (c : N) : bool :=
  is_digit c || (c =? 43)%N || (c =? 45)%N || (c =? 46)%N
  || (c =? 101)%N || (c =? 69)%N.

(** A Number is faithfully written when it is finite and its text is a
    number token that is read back as the same Number. *)
Definition faithful (n : number) : Prop :=
  exists t,
    token_of_number n = Some t /\
    number_of_token t = n /\
    forall rest, starts_in continues_number rest = false ->
                 lex_number (t ++ rest) = Some (t, rest).

Fixpoint numbers_faithful (v : json) : Prop :=
  match v with
  | JNumber n => faithful n
  | JArray vs =>
      (fix all (vs : list json) : Prop :=
         match vs with
         | [] => True
         | x :: xs => numbers_faithful x /\ all xs
         end) vs
  | JObject ms =>
      (fix all (ms : list (jsstring * json)) : Prop :=
         match ms with
         | [] => True
         | (_, x) :: ms' => numbers_faithful x /\ all ms'
         end) ms
  | _ => True
  end.

(** The fuel that reading a value takes. *)
Fixpoint size (v : json) : nat :=
  match v with
  | JArray vs =>
      S ((fix sum (vs : list json) : nat :=
            match vs with
            | [] => 0
            | x :: xs => S (size x + sum xs)
            end) vs)
  | JObject ms =>
      S ((fix sum (ms : list (jsstring * json)) : nat :=
            match ms with
            | [] => 0
            | (_, x) :: ms' => S (size x + sum ms')
            end) ms)
  | _ => 1
  end.

Lemma skip_ws_fixed r : starts_in is_json_ws r = false -> skip_ws r = r.
Proof. apply drop_leading_fixed. Qed.

Lemma skip_ws_app w r :
  forallb is_json_ws w = true -> starts_in is_json_ws r = false ->
  skip_ws (w ++ r) = r.
Proof.
  intros Hw Hr. induction w as [|c w IH]; simpl.
  - apply skip_ws_fixed, Hr.
  - simpl in Hw. apply andb_prop in Hw as [Hc Hw]. unfold skip_ws. simpl.
    rewrite Hc. apply IH, Hw.
Qed.

Lemma skip_ws_newline indent r :
  forallb is_json_ws indent = true -> starts_in is_json_ws r = false ->
  skip_ws (newline indent ++ r) = r.
Proof.
  intros Hi Hr. apply skip_ws_app; [|exact Hr].
  unfold newline. simpl. exact Hi.
Qed.

Fixpoint elements_size (xs : list json) : nat :=
  match xs with
  | [] => 0
  | x :: xs' => S (size x + elements_size xs')
  end.

Fixpoint members_size (ms : list (jsstring * json)) : nat :=
  match ms with
  | [] => 0
  | (_, x) :: ms' => S (size x + members_size ms')
  end.

Lemma size_array vs : size (JArray vs) = S (elements_size vs).
Proof. reflexivity. Qed.

Lemma size_object ms : size (JObject ms) = S (members_size ms).
Proof. reflexivity. Qed.

Lemma faithful_array vs :
  numbers_faithful (JArray vs) <-> Forall numbers_faithful vs.
Proof.
  cbn [numbers_faithful]. induction vs as [|x xs IH].
  - split; [constructor|trivial].
  - split.
    + intros [H1 H2]. constructor; [exact H1|apply IH, H2].
    + intros H. inversion H; subst. split; [assumption|apply IH; assumption].
Qed.

Lemma faithful_object ms :
  numbers_faithful (JObject ms) <->
  Forall (fun m => numbers_faithful (snd m)) ms.
Proof.
  cbn [numbers_faithful]. induction ms as [|[k x] ms' IH].
  - split; [constructor|trivial].
  - split.
    + intros [H1 H2]. constructor; [exact H1|apply IH, H2].
    + intros H. inversion H; subst. split; [assumption|apply IH; assumption].
Qed.

Lemma parse_value_S fuel c r :
  parse_value (S fuel) (c :: r) =
  if (c =? 123)%N then
    match skip_ws r with
    | [] => None
    | d :: r' =>
        if (d =? 125)%N then Some (JObject [], r')
        else
          match parse_members fuel (d :: r') with
          | Some (ms, rest) => Some (JObject ms, rest)
          | None => None
          end
    end
  else if (c =? 91)%N then
    match skip_ws r with
    | [] => None
    | d :: r' =>
        if (d =? 93)%N then Some (JArray [], r')
        else
          match parse_elements fuel (d :: r') with
          | Some (vs, rest) => Some (JArray vs, rest)
          | None => None
          end
    end
  else if (c =? 34)%N then
    match parse_string_body r with
    | Some (k, rest) => Some (JString k, rest)
    | None => None
    end
  else
    match parse_literal (c :: r) with
    | Some found => Some found
    | None =>
        match lex_number (c :: r) with
        | Some (t, rest) => Some (JNumber (number_of_token t), rest)
        | None => None
        end
    end.
Proof. reflexivity. Qed.

Lemma parse_members_S fuel r :
  parse_members (S fuel) (34%N :: r) =
  match parse_string_body r with
  | None => None
  | Some (k, r1) =>
      match skip_ws r1 with
      | [] => None
      | colon :: r2 =>
          if (colon =? 58)%N then
            match parse_value fuel (skip_ws r2) with
            | None => None
            | Some (v, r3) =>
                match skip_ws r3 with
                | [] => None
                | d :: r4 =>
                    if (d =? 44)%N then
                      match parse_members fuel (skip_ws r4) with
                      | Some (ms, rest) => Some ((k, v) :: ms, rest)
                      | None => None
                      end
                    else if (d =? 125)%N then Some ([(k, v)], r4)
                    else None
                end
            end
          else None
      end
  end.
Proof. reflexivity. Qed.

Lemma parse_elements_S fuel s :
  parse_elements (S fuel) s =
  match parse_value fuel s with
  | None => None
  | Some (v, r1) =>
      match skip_ws r1 with
      | [] => None
      | d :: r2 =>
          if (d =? 44)%N then
            match parse_elements fuel (skip_ws r2) with
            | Some (vs, rest) => Some (v :: vs, rest)
            | None => None
            end
          else if (d =? 93)%N then Some ([v], r2)
          else None
      end
  end.
Proof. reflexivity. Qed.

(** A number token starts with a minus sign or a digit. *)
Lemma lex_number_head s t r :
  lex_number s = Some (t, r) ->
  exists c s', s = c :: s' /\ ((c =? 45)%N = true \/ is_digit c = true).
Proof.
  unfold lex_number, lex_minus. destruct s as [|c s']; [discriminate|].
  intros H. exists c, s'. split; [reflexivity|].
  destruct (c =? 45)%N eqn:M; [left; reflexivity|right].
  unfold lex_int in H.
  destruct (c =? 48)%N eqn:Z; [apply N.eqb_eq in Z; subst c; reflexivity|].
  destruct (is_digit c); [reflexivity|discriminate].
Qed.

Lemma number_head_dispatch c tl :
  (c =? 45)%N = true \/ is_digit c = true ->
  (c =? 123)%N = false /\ (c =? 91)%N = false /\ (c =? 34)%N = false /\
  (c =? 93)%N = false /\ (c =? 125)%N = false /\ is_json_ws c = false /\
  parse_literal (c :: tl) = None.
Proof.
  intros H.
  assert (R : (c = 45 \/ 48 <= c <= 57)%N).
  { destruct H as [H|H]; [apply N.eqb_eq in H; auto|].
    unfold is_digit, between in H. apply andb_prop in H as [H1 H2].
    apply N.leb_le in H1, H2. auto. }
  assert (P : parse_literal (c :: tl) = None).
  { unfold parse_literal.
    change (str "true") with [116; 114; 117; 101]%N.
    change (str "false") with [102; 97; 108; 115; 101]%N.
    change (str "null") with [110; 117; 108; 108]%N.
    cbn [strip_prefix].
    replace (116 =? c)%N with false by (symmetry; apply N.eqb_neq; lia).
    replace (102 =? c)%N with false by (symmetry; apply N.eqb_neq; lia).
    replace (110 =? c)%N with false by (symmetry; apply N.eqb_neq; lia).
    reflexivity. }
  unfold is_json_ws.
  repeat split; try exact P; destruct R as [R|R]; cmp.
Qed.

(** The text of a value starts with a code unit that is no white space
    and closes neither an array nor an object. *)
Lemma serialize_head indent v :
  numbers_faithful v ->
  exists c tl,
    serialize indent v = c :: tl /\ is_json_ws c = false /\
    (c =? 93)%N = false /\ (c =? 125)%N = false.
Proof.
  destruct v as [|[|]|n|s|[|x xs]|[|[k x] ms]]; intros F;
    try (eexists; eexists; split; [reflexivity|repeat split; reflexivity]).
  - destruct F as (t & E & _ & L). cbn [serialize]. rewrite E.
    pose proof (L [] eq_refl) as L0. rewrite app_nil_r in L0.
    destruct (lex_number_head _ L0) as (c & s' & -> & Hc).
    destruct (number_head_dispatch c s' Hc) as (_ & _ & _ & A & B & C & _).
    exists c, s'. auto.
Qed.

(** A value is read back when, from enough fuel, the parser finds it in
    front of any text that does not continue a number. *)
Definition reads_back (v : json) : Prop :=
  forall indent rest fuel,
    forallb is_json_ws indent = true ->
    size v <= fuel ->
    starts_in continues_number rest = false ->
    parse_value fuel (serialize indent v ++ rest) = Some (v, rest).

Lemma indent_gap indent :
  forallb is_json_ws indent = true ->
  forallb is_json_ws (indent ++ gap) = true.
Proof. intros H. rewrite forallb_app, H. reflexivity. Qed.

Lemma starts_serialize indent v tail :
  numbers_faithful v -> starts_in is_json_ws (serialize indent v ++ tail) = false.
Proof.
  intros F. destruct (serialize_head indent v F) as (c & tl & -> & W & _).
  exact W.
Qed.

Lemma elements_rest_nil indent rest :
  elements_rest indent [] ++ rest = newline indent ++ 93%N :: rest.
Proof. cbn [elements_rest]. rewrite <- app_assoc. reflexivity. Qed.

Lemma elements_rest_cons indent y ys rest :
  elements_rest indent (y :: ys) ++ rest =
  44%N :: newline (indent ++ gap)
  ++ (serialize (indent ++ gap) y ++ elements_rest indent ys ++ rest).
Proof.
  cbn [elements_rest]. rewrite <- app_comm_cons. f_equal.
  rewrite <- !app_assoc. reflexivity.
Qed.

Lemma members_rest_nil indent rest :
  members_rest indent [] ++ rest = newline indent ++ 125%N :: rest.
Proof. cbn [members_rest]. rewrite <- app_assoc. reflexivity. Qed.

Lemma members_rest_cons indent k y ms rest :
  members_rest indent ((k, y) :: ms) ++ rest =
  44%N :: newline (indent ++ gap)
  ++ (quote k ++ [58; 32]%N ++ serialize (indent ++ gap) y
      ++ members_rest indent ms ++ rest).
Proof.
  cbn [members_rest]. rewrite <- app_comm_cons. f_equal.
  rewrite <- !app_assoc. reflexivity.
Qed.

Lemma member_text k tail :
  quote k ++ [58; 32]%N ++ tail = 34%N :: quote_body k ++ 34%N :: 58%N :: 32%N :: tail.
Proof. unfold quote. simpl. rewrite <- app_assoc. reflexivity. Qed.

Lemma skip_space tail :
  starts_in is_json_ws tail = false -> skip_ws (32%N :: tail) = tail.
Proof. intros H. apply (skip_ws_app [32%N]); [reflexivity|exact H]. Qed.

Lemma skip_ws_comma tail : skip_ws (44%N :: tail) = 44%N :: tail.
Proof. reflexivity. Qed.

Lemma elements_read_back indent rest :
  forallb is_json_ws indent = true ->
  forall xs x fuel,
    numbers_faithful x -> reads_back x ->
    Forall numbers_faithful xs -> Forall reads_back xs ->
    S (size x + elements_size xs) <= fuel ->
    parse_elements fuel
      (serialize (indent ++ gap) x ++ elements_rest indent xs ++ rest) =
    Some (x :: xs, rest).
Proof.
  intros Hi. induction xs as [|y ys IH]; intros x fuel Fx Rx Fxs Rxs Hf;
    (destruct fuel as [|f]; [lia|]); rewrite parse_elements_S.
  - rewrite elements_rest_nil.
    rewrite Rx; [|apply indent_gap, Hi|simpl in Hf; lia|reflexivity].
    rewrite skip_ws_newline by (auto; reflexivity). reflexivity.
  - inversion Fxs as [|? ? Fy Fys]; subst. inversion Rxs as [|? ? Ry Rys]; subst.
    rewrite elements_rest_cons.
    rewrite Rx; [|apply indent_gap, Hi|simpl in Hf; lia|reflexivity].
    rewrite skip_ws_comma, N.eqb_refl.
    rewrite skip_ws_newline
      by (try apply indent_gap; auto; apply starts_serialize; assumption).
    rewrite IH; auto. simpl in Hf. lia.
Qed.

Lemma members_read_back indent rest :
  forallb is_json_ws indent = true ->
  forall ms k x fuel,
    numbers_faithful x -> reads_back x ->
    Forall (fun m => numbers_faithful (snd m)) ms ->
    Forall (fun m => reads_back (snd m)) ms ->
    S (size x + members_size ms) <= fuel ->
    parse_members fuel
      (quote k ++ [58; 32]%N ++ serialize (indent ++ gap) x
       ++ members_rest indent ms ++ rest) =
    Some ((k, x) :: ms, rest).
Proof.
  intros Hi. induction ms as [|[k' y] ms' IH]; intros k x fuel Fx Rx Fms Rms Hf;
    (destruct fuel as [|f]; [lia|]);
    rewrite member_text, parse_members_S, parse_quote_body;
    rewrite skip_ws_fixed by reflexivity; rewrite N.eqb_refl;
    rewrite skip_space by (apply starts_serialize, Fx).
  - rewrite members_rest_nil.
    rewrite Rx; [|apply indent_gap, Hi|simpl in Hf; lia|reflexivity].
    rewrite skip_ws_newline by (auto; reflexivity). reflexivity.
  - inversion Fms as [|? ? Fy Fys]; subst. inversion Rms as [|? ? Ry Rys]; subst.
    simpl in Fy, Ry. rewrite members_rest_cons.
    rewrite Rx; [|apply indent_gap, Hi|simpl in Hf; lia|reflexivity].
    rewrite skip_ws_comma, N.eqb_refl.
    rewrite skip_ws_newline by (try apply indent_gap; auto; reflexivity).
    rewrite IH; auto. simpl in Hf. lia.
Qed.

(** Every value whose numbers are faithfully written is read back. *)
Theorem serialize_reads_back v : numbers_faithful v -> reads_back v.
Proof.
  induction v as [|b|n|s|vs IHvs|ms IHms] using json_induction;
    intros F indent rest fuel Hi Hf Hr;
    (destruct fuel as [|f]; [simpl in Hf; lia|]).
  - reflexivity.
  - destruct b; reflexivity.
  - destruct F as (t & E & V & L). cbn [serialize]. rewrite E.
    pose proof (L [] eq_refl) as L0. rewrite app_nil_r in L0.
    destruct (lex_number_head _ L0) as (c & s' & -> & Hc).
    destruct (number_head_dispatch c (s' ++ rest) Hc) as (A & B & C & _ & _ & _ & P).
    rewrite <- app_comm_cons, parse_value_S, A, B, C, P.
    rewrite app_comm_cons, (L rest Hr), V. reflexivity.
  - cbn [serialize]. unfold quote.
    rewrite <- app_comm_cons, <- app_assoc, parse_value_S.
    change (34 =? 123)%N with false. change (34 =? 91)%N with false.
    change (34 =? 34)%N with true. cbn iota.
    change ([34%N] ++ rest) with (34%N :: rest).
    rewrite parse_quote_body. reflexivity.
  - destruct vs as [|x xs]; [reflexivity|].
    apply faithful_array in F. inversion F as [|? ? Fx Fxs]; subst.
    inversion IHvs as [|? ? Rx Rxs]; subst.
    assert (Rxs' : Forall reads_back xs).
    { clear - Fxs Rxs. induction Fxs; inversion Rxs; subst; constructor; auto. }
    rewrite size_array in Hf. rewrite serialize_array.
    rewrite <- app_comm_cons, parse_value_S.
    change (91 =? 123)%N with false. change (91 =? 91)%N with true. cbn iota.
    rewrite <- !app_assoc.
    rewrite skip_ws_newline
      by (try apply indent_gap; auto; apply starts_serialize; assumption).
    destruct (serialize_head (indent ++ gap) x Fx) as (c & tl & E & _ & A & _).
    rewrite E at 1. rewrite <- app_comm_cons, A, app_comm_cons, <- E.
    cbn [elements_size] in Hf. rewrite elements_read_back; auto. lia.
  - destruct ms as [|[k x] ms']; [reflexivity|].
    apply faithful_object in F. inversion F as [|? ? Fx Fms]; subst.
    inversion IHms as [|? ? Rx Rms]; subst. simpl in Fx, Rx.
    assert (Rms' : Forall (fun m => reads_back (snd m)) ms').
    { clear - Fms Rms. induction Fms; inversion Rms; subst; constructor; auto. }
    rewrite size_object in Hf. rewrite serialize_object.
    rewrite <- app_comm_cons, parse_value_S.
    change (123 =? 123)%N with true. cbn iota.
    rewrite <- !app_assoc.
    rewrite skip_ws_newline by (try apply indent_gap; auto; reflexivity).
    rewrite member_text at 1. change (34 =? 125)%N with false. cbn iota.
    rewrite <- member_text.
    cbn [members_size] in Hf. rewrite members_read_back; auto. lia.
Qed.

Lemma size_le_length v : forall indent,
  numbers_faithful v -> size v <= length (serialize indent v).
Proof.
  induction v as [|b|n|s|vs IHvs|ms IHms] using json_induction; intros indent F.
  - simpl. lia.
  - destruct b; simpl; lia.
  - destruct (serialize_head indent (JNumber n) F) as (c & tl & -> & _).
    simpl. lia.
  - simpl. lia.
  - destruct vs as [|x xs]; [simpl; lia|].
    apply faithful_array in F. rewrite size_array, serialize_array.
    assert (G : forall ys, Forall numbers_faithful ys ->
                Forall (fun v => forall i, numbers_faithful v ->
                                           size v <= length (serialize i v)) ys ->
                elements_size ys <= length (elements_rest indent ys)).
    { clear. induction ys as [|y ys IH]; intros Fy Hy; [simpl; lia|].
      inversion Fy as [|? ? Fa Fb]; subst. inversion Hy as [|? ? Ha Hb]; subst.
      cbn [elements_size elements_rest]. unfold newline, quote; repeat (rewrite length_app || (progress cbn [length])).
      specialize (Ha (indent ++ gap) Fa). specialize (IH Fb Hb). lia. }
    inversion F as [|? ? Fa Fb]; subst. inversion IHvs as [|? ? Ha Hb]; subst.
    specialize (Ha (indent ++ gap) Fa). specialize (G xs Fb Hb).
    cbn [elements_size]. unfold newline, quote; repeat (rewrite length_app || (progress cbn [length])). lia.
  - destruct ms as [|[k x] ms']; [simpl; lia|].
    apply faithful_object in F. rewrite size_object, serialize_object.
    assert (G : forall ys, Forall (fun m => numbers_faithful (snd m)) ys ->
                Forall (fun m => forall i, numbers_faithful (snd m) ->
                          size (snd m) <= length (serialize i (snd m))) ys ->
                members_size ys <= length (members_rest indent ys)).
    { clear. induction ys as [|[k y] ys IH]; intros Fy Hy; [simpl; lia|].
      inversion Fy as [|? ? Fa Fb]; subst. inversion Hy as [|? ? Ha Hb]; subst.
      cbn [members_size members_rest]. unfold newline, quote; repeat (rewrite length_app || (progress cbn [length])).
      simpl in Ha, Fa. specialize (Ha (indent ++ gap) Fa). specialize (IH Fb Hb). lia. }
    inversion F as [|? ? Fa Fb]; subst. inversion IHms as [|? ? Ha Hb]; subst.
    simpl in Ha, Fa. specialize (Ha (indent ++ gap) Fa). specialize (G ms' Fb Hb).
    cbn [members_size]. unfold newline, quote; repeat (rewrite length_app || (progress cbn [length])). lia.
Qed.

(** The text that [JSON.stringify(v, null, 2) + '\n'] writes is a JSON
    text, and the value it is parsed to is [v]. *)
Theorem parse_text_stringify v :
  numbers_faithful v -> parse_text (JSON_stringify v ++ [10%N]) = Some v.
Proof.
  intros F. unfold parse_text, JSON_stringify.
  rewrite skip_ws_fixed by (apply starts_serialize, F).
  rewrite (serialize_reads_back v F); [reflexivity|reflexivity| |reflexivity].
  rewrite length_app. pose proof (size_le_length v [] F). lia.
Qed.

(** ** The manifest keeps its fields *)

(** [packageName || getProjectName()]: the package name that was asked
    for, when there is one and it is not empty, and the project name
    otherwise. *)
Definition manifest_name (packageName : option jsstring)
    (projectName : jsstring) : jsstring :=
  match packageName with
  | Some p => if is_nil p then projectName else p
  | None => projectName
  end.




Lemma has_key_In k props : has_key k props = true <-> In k (map fst props).
Proof.
  induction props as [|[k' v] t IH]; simpl; [split; [discriminate|tauto]|].
  rewrite orb_true_iff, IH. rewrite eqs_eq. tauto.
Qed.

Lemma has_key_not_In k props : has_key k props = false <-> ~ In k (map fst props).
Proof.
  rewrite <- has_key_In. destruct (has_key k props); split; congruence.
Qed.





Lemma map_fst_set_value k v props :
  map fst (set_value k v props) = map fst props.
Proof.
  induction props as [|[k' v'] t IH]; simpl; [reflexivity|].
  destruct (eqs k' k); simpl; [reflexivity|rewrite IH; reflexivity].
Qed.

Lemma Forall_set_value (P : json -> Prop) k v props :
  P v -> Forall (fun m => P (snd m)) props ->
  Forall (fun m => P (snd m)) (set_value k v props).
Proof.
  intros Hv. induction 1 as [|[k' v'] t Hh Ht IH]; simpl; [constructor|].
  destruct (eqs k' k); constructor; auto.
Qed.


Lemma key_name_no_index : array_index key_name = None.
Proof. reflexivity. Qed.


Lemma faithful_define_name ms s :
  numbers_faithful (JObject ms) ->
  numbers_faithful (JObject (define_property ms key_name (JString s))).
Proof.
  rewrite !faithful_object. intros H. unfold define_property.
  destruct (has_key key_name ms).
  - apply Forall_set_value; [exact I|exact H].
  - rewrite key_name_no_index. apply Forall_app. split; [exact H|].
    constructor; [exact I|constructor].
Qed.

(** ** Array indices *)

Definition decimal_from (acc : N) (s : jsstring) : N :=
  fold_left (fun acc c => acc * 10 + digit_value c)%N s acc.

Lemma digit_value_lt c : is_digit c = true -> (digit_value c < 10)%N.
Proof.
  unfold is_digit, between, digit_value. intros H.
  apply andb_prop in H as [H1 H2]. apply N.leb_le in H1, H2. lia.
Qed.

Lemma digit_value_inj c d :
  is_digit c = true -> is_digit d = true ->
  digit_value c = digit_value d -> c = d.
Proof.
  unfold is_digit, between, digit_value. intros Hc Hd.
  apply andb_prop in Hc as [C1 C2]. apply andb_prop in Hd as [D1 D2].
  apply N.leb_le in C1, C2, D1, D2. lia.
Qed.

(** Digit strings of one length that are read from equal beginnings to
    equal numbers are equal. *)
Lemma decimal_from_inj s : forall s' acc acc',
  forallb is_digit s = true -> forallb is_digit s' = true ->
  length s = length s' ->
  decimal_from acc s = decimal_from acc' s' ->
  acc = acc' /\ s = s'.
Proof.
  induction s as [|c t IH]; intros [|c' t'] acc acc' Hs Hs' Hl;
    try discriminate; simpl.
  - auto.
  - simpl in Hs, Hs', Hl.
    apply andb_prop in Hs as [Hc Ht]. apply andb_prop in Hs' as [Hc' Ht'].
    intros E. apply IH in E as [Ea ->]; auto.
    pose proof (digit_value_lt _ Hc). pose proof (digit_value_lt _ Hc').
    assert (acc = acc') by lia. subst acc'.
    split; [reflexivity|]. f_equal.
    apply digit_value_inj; auto. lia.
Qed.

(** The number read lies between the beginning shifted by the length and
    the next beginning shifted by the length. *)
Lemma decimal_from_bounds s : forall acc,
  forallb is_digit s = true ->
  (acc * 10 ^ N.of_nat (length s) <= decimal_from acc s
   < (acc + 1) * 10 ^ N.of_nat (length s))%N.
Proof.
  induction s as [|c t IH]; intros acc Hs.
  - simpl. lia.
  - simpl in Hs. apply andb_prop in Hs as [Hc Ht].
    pose proof (digit_value_lt _ Hc) as Hd.
    specialize (IH (acc * 10 + digit_value c)%N Ht).
    cbn [decimal_from fold_left length]. fold (decimal_from (acc * 10 + digit_value c) t).
    rewrite Nat2N.inj_succ, N.pow_succ_r'.
    set (P := (10 ^ N.of_nat (length t))%N) in *. nia.
Qed.

(** A digit string without a leading zero, or the single digit zero. *)
Definition canonical (k : jsstring) : Prop :=
  forallb is_digit k = true /\
  match k with
  | [] => False
  | c :: t => (c =? 48)%N = false \/ t = []
  end.

Lemma array_index_canonical k i :
  array_index k = Some i -> canonical k /\ i = decimal k.
Proof.
  unfold array_index, canonical. destruct k as [|c t]; [discriminate|].
  destruct (forallb is_digit (c :: t)) eqn:D; [|discriminate].
  destruct (negb (c =? 48)%N || is_nil t) eqn:L; [|discriminate].
  destruct (decimal (c :: t) <? 4294967295)%N; [|discriminate].
  simpl. intros H. inversion H. split; [|reflexivity]. split; [reflexivity|].
  apply orb_prop in L as [L|L].
  - left. apply negb_true_iff, L.
  - right. destruct t; [reflexivity|discriminate].
Qed.

(** The length of a canonical string is fixed by the number it
    writes. *)
Lemma canonical_bounds k :
  canonical k ->
  (decimal k < 10 ^ N.of_nat (length k))%N /\
  (length k = 1%nat \/ (10 ^ N.of_nat (length k - 1) <= decimal k)%N).
Proof.
  intros [Hd Hc]. destruct k as [|c t]; [contradiction|].
  split.
  - pose proof (decimal_from_bounds (c :: t) 0 Hd) as B.
    unfold decimal. fold (decimal_from 0 (c :: t)). lia.
  - destruct Hc as [Hz| ->]; [|left; reflexivity]. right.
    simpl in Hd. apply andb_prop in Hd as [Hc Ht].
    pose proof (decimal_from_bounds t (0 * 10 + digit_value c) Ht) as B.
    unfold decimal. cbn [fold_left length]. fold (decimal_from (0 * 10 + digit_value c) t).
    replace (S (length t) - 1) with (length t) by lia.
    assert (1 <= digit_value c)%N.
    { unfold is_digit, between, digit_value in *.
      apply andb_prop in Hc as [C1 C2]. apply N.leb_le in C1, C2.
      apply N.eqb_neq in Hz. lia. }
    set (P := (10 ^ N.of_nat (length t))%N) in *. nia.
Qed.

Lemma canonical_length k k' :
  canonical k -> canonical k' -> decimal k = decimal k' ->
  length k = length k'.
Proof.
  assert (Less : forall a b, canonical a -> canonical b ->
            decimal a = decimal b -> length a < length b -> False).
  { intros a b Ha Hb E L.
    destruct (canonical_bounds Ha) as [Ua _].
    destruct (canonical_bounds Hb) as [_ [Lb|Lb]].
    - destruct Ha as [_ Ha]. destruct a; [contradiction|simpl in L; lia].
    - assert (M : (10 ^ N.of_nat (length a) <= 10 ^ N.of_nat (length b - 1))%N)
        by (apply N.pow_le_mono_r; lia).
      lia. }
  intros Hk Hk' E.
  destruct (Nat.lt_trichotomy (length k) (length k')) as [L|[L|L]].
  - exfalso. exact (Less k k' Hk Hk' E L).
  - exact L.
  - exfalso. exact (Less k' k Hk' Hk (eq_sym E) L).
Qed.

(** Two keys with one array index are one key. *)
Lemma array_index_inj k k' i :
  array_index k = Some i -> array_index k' = Some i -> k = k'.
Proof.
  intros H H'.
  apply array_index_canonical in H as [C E], H' as [C' E']. subst i.
  pose proof (canonical_length C C' E') as L.
  destruct C as [D _], C' as [D' _].
  apply (decimal_from_inj k k' 0 0 D D' L E').
Qed.

(** ** Properties in their order *)

(** The keys of an object in the order of enumeration: first the array
    indices, ascending, then the other keys, each once. *)
Inductive ordered_keys : list jsstring -> Prop :=
| ordered_nil : ordered_keys []
| ordered_index k i t :
    array_index k = Some i ->
    (forall k' j, In k' t -> array_index k' = Some j -> (i < j)%N) ->
    ordered_keys t ->
    ordered_keys (k :: t)
| ordered_name k t :
    array_index k = None ->
    (forall k', In k' t -> array_index k' = None) ->
    ~ In k t ->
    ordered_keys t ->
    ordered_keys (k :: t).

Definition ordered (props : list (jsstring * json)) : Prop :=
  ordered_keys (map fst props).

Lemma ordered_head_fresh k t : ordered_keys (k :: t) -> ~ In k t.
Proof.
  intros H Hin. inversion H as [|? i ? Hi Hlater _|? ? _ _ Hn _]; subst.
  - specialize (Hlater k i Hin Hi). lia.
  - contradiction.
Qed.

Lemma ordered_tail k t : ordered_keys (k :: t) -> ordered_keys t.
Proof. intros H. inversion H; assumption. Qed.

Lemma ordered_fresh pre : forall k t,
  ordered_keys (pre ++ k :: t) -> ~ In k pre.
Proof.
  induction pre as [|k0 pre IH]; intros k t H; [intros []|].
  simpl in H. intros [->|Hin].
  - apply ordered_head_fresh in H. apply H, in_elt.
  - apply ordered_tail in H. exact (IH _ _ H Hin).
Qed.

(** In front of an array index there are only smaller array indices. *)
Lemma ordered_before_index pre : forall k i t,
  ordered_keys (pre ++ k :: t) -> array_index k = Some i ->
  Forall (fun k' => exists j, array_index k' = Some j /\ (j < i)%N) pre.
Proof.
  induction pre as [|k0 pre IH]; intros k i t H Hi; [constructor|].
  simpl in H. constructor; [|eapply IH; [eapply ordered_tail, H|exact Hi]].
  inversion H as [|? j ? Hj Hlater _|? ? _ Hnames _ _]; subst.
  - exists j. split; [exact Hj|]. apply (Hlater k i); [apply in_elt|exact Hi].
  - specialize (Hnames k (in_elt _ _ _)). congruence.
Qed.

Lemma insert_index_keys i k v props x :
  In x (map fst (insert_index i k v props)) <->
  x = k \/ In x (map fst props).
Proof.
  induction props as [|[k' v'] t IH]; simpl; [intuition|].
  destruct (array_index k') as [j|]; [destruct (j <? i)%N|]; simpl;
    try rewrite IH; intuition.
Qed.

Lemma insert_index_end i k v props :
  Forall (fun k' => exists j, array_index k' = Some j /\ (j < i)%N)
    (map fst props) ->
  insert_index i k v props = props ++ [(k, v)].
Proof.
  induction props as [|[k' v'] t IH]; simpl; [reflexivity|].
  intros H. inversion H as [|? ? (j & Hj & Hlt) Ht]; subst.
  rewrite Hj. apply N.ltb_lt in Hlt. rewrite Hlt, IH by exact Ht. reflexivity.
Qed.

Lemma ordered_insert_index i k v props :
  array_index k = Some i -> ~ In k (map fst props) ->
  ordered props -> ordered (insert_index i k v props).
Proof.
  unfold ordered. intros Hi. induction props as [|[k' v'] t IH]; intros Hn Ho.
  - simpl. eapply ordered_index; [exact Hi|intros ? ? []|constructor].
  - simpl in Hn, Ho. cbn [insert_index].
    inversion Ho as [|? j ? Hj Hlater Ht|? ? Hnone Hnames Hfresh Ht]; subst.
    + rewrite Hj. destruct (j <? i)%N eqn:L.
      * cbn [map fst]. eapply ordered_index; [exact Hj| |apply IH; auto].
        intros x jx Hx Hjx. apply insert_index_keys in Hx as [->|Hx].
        -- apply N.ltb_lt in L. congruence.
        -- eauto.
      * cbn [map fst]. eapply ordered_index; [exact Hi| |exact Ho].
        apply N.ltb_ge in L.
        intros x jx [<-|Hx] Hjx.
        -- assert (jx = j) by congruence. subst jx.
           destruct (N.eq_dec i j) as [->|Hne]; [|lia].
           exfalso. apply Hn. left. eapply array_index_inj; eauto.
        -- specialize (Hlater x jx Hx Hjx). lia.
    + rewrite Hnone. cbn [map fst].
      eapply ordered_index; [exact Hi| |exact Ho].
      intros x jx [<-|Hx] Hjx; [congruence|].
      specialize (Hnames x Hx). congruence.
Qed.

Lemma ordered_append_name k v props :
  array_index k = None -> ~ In k (map fst props) ->
  ordered props -> ordered (props ++ [(k, v)]).
Proof.
  unfold ordered. intros Hk. induction props as [|[k' v'] t IH]; intros Hn Ho.
  - simpl. apply ordered_name; [exact Hk|intros ? []|intros []|constructor].
  - simpl in Hn, Ho. cbn [app map fst].
    inversion Ho as [|? j ? Hj Hlater Ht|? ? Hnone Hnames Hfresh Ht]; subst.
    + eapply ordered_index; [exact Hj| |apply IH; auto].
      intros x jx Hx Hjx. rewrite map_app in Hx. apply in_app_or in Hx as [Hx|[<-|[]]].
      * eauto.
      * simpl in Hjx. congruence.
    + apply ordered_name; [exact Hnone| | |apply IH; auto].
      * intros x Hx. rewrite map_app in Hx. apply in_app_or in Hx as [Hx|[<-|[]]]; auto.
      * rewrite map_app. intros Hx. apply in_app_or in Hx as [Hx|[E|[]]]; auto.
Qed.

Lemma ordered_define_property props k v :
  ordered props -> ordered (define_property props k v).
Proof.
  intros Ho. unfold define_property. destruct (has_key k props) eqn:H.
  - unfold ordered. rewrite map_fst_set_value. exact Ho.
  - apply has_key_not_In in H. destruct (array_index k) as [i|] eqn:Hi.
    + apply ordered_insert_index; auto.
    + apply ordered_append_name; auto.
Qed.

Lemma Forall_insert_index (P : json -> Prop) i k v props :
  P v -> Forall (fun m => P (snd m)) props ->
  Forall (fun m => P (snd m)) (insert_index i k v props).
Proof.
  intros Hv. induction 1 as [|[k' v'] t Hh Ht IH]; simpl.
  - constructor; [exact Hv|constructor].
  - destruct (array_index k') as [j|]; [destruct (j <? i)%N|];
      repeat constructor; auto.
Qed.

Lemma Forall_define_property (P : json -> Prop) props k v :
  P v -> Forall (fun m => P (snd m)) props ->
  Forall (fun m => P (snd m)) (define_property props k v).
Proof.
  intros Hv Hp. unfold define_property. destruct (has_key k props).
  - apply Forall_set_value; assumption.
  - destruct (array_index k).
    + apply Forall_insert_index; assumption.
    + apply Forall_app. split; [exact Hp|]. constructor; [exact Hv|constructor].
Qed.

(** Defining the members of a list one after the other keeps the order
    and the properties of the values. *)
Lemma define_all_ordered ms : forall acc,
  ordered acc ->
  ordered (fold_left (fun props m => define_property props (fst m) (snd m))
             ms acc).
Proof.
  induction ms as [|m ms IH]; intros acc H; simpl; [exact H|].
  apply IH, ordered_define_property, H.
Qed.

Lemma define_all_Forall (P : json -> Prop) ms : forall acc,
  Forall (fun m => P (snd m)) acc -> Forall (fun m => P (snd m)) ms ->
  Forall (fun m => P (snd m))
    (fold_left (fun props m => define_property props (fst m) (snd m)) ms acc).
Proof.
  induction ms as [|m ms IH]; intros acc Ha Hm; simpl; [exact Ha|].
  inversion Hm; subst. apply IH; [|assumption].
  apply Forall_define_property; assumption.
Qed.

(** Properties that are in their order are defined again as they are. *)
Lemma define_ordered_members ms : forall acc,
  ordered (acc ++ ms) ->
  fold_left (fun props m => define_property props (fst m) (snd m)) ms acc =
  acc ++ ms.
Proof.
  induction ms as [|[k v] ms IH]; intros acc Ho; simpl.
  - rewrite app_nil_r. reflexivity.
  - assert (E : define_property acc k v = acc ++ [(k, v)]).
    { unfold ordered in Ho. rewrite map_app in Ho. simpl in Ho.
      unfold define_property.
      rewrite (proj2 (has_key_not_In k acc) (ordered_fresh _ _ _ Ho)).
      destruct (array_index k) as [i|] eqn:Hi; [|reflexivity].
      apply insert_index_end. eapply ordered_before_index; eauto. }
    rewrite E, IH; rewrite <- app_assoc; [reflexivity|exact Ho].
Qed.

(** A value as [JSON.parse] builds it: the properties of every object
    are in their order. *)
Fixpoint internal (v : json) : Prop :=
  match v with
  | JArray vs =>
      (fix all (vs : list json) : Prop :=
         match vs with
         | [] => True
         | x :: xs => internal x /\ all xs
         end) vs
  | JObject ms =>
      ordered ms /\
      (fix all (ms : list (jsstring * json)) : Prop :=
         match ms with
         | [] => True
         | (_, x) :: ms' => internal x /\ all ms'
         end) ms
  | _ => True
  end.

Lemma internal_array vs : internal (JArray vs) <-> Forall internal vs.
Proof.
  cbn [internal]. induction vs as [|x xs IH].
  - split; [constructor|trivial].
  - split.
    + intros [H1 H2]. constructor; [exact H1|apply IH, H2].
    + intros H. inversion H; subst. split; [assumption|apply IH; assumption].
Qed.

Lemma internal_object ms :
  internal (JObject ms) <->
  ordered ms /\ Forall (fun m => internal (snd m)) ms.
Proof.
  cbn [internal]. apply and_iff_compat_l. induction ms as [|[k x] ms' IH].
  - split; [constructor|trivial].
  - split.
    + intros [H1 H2]. constructor; [exact H1|apply IH, H2].
    + intros H. inversion H; subst. split; [assumption|apply IH; assumption].
Qed.

Lemma map_internalize_members (P : json -> Prop) ms :
  Forall (fun m => P (internalize (snd m))) ms ->
  Forall (fun m => P (snd m))
    (map (fun m : jsstring * json => let (k, v) := m in (k, internalize v)) ms).
Proof.
  induction 1 as [|[k x] t Hh Ht IH]; simpl; constructor; auto.
Qed.

(** What [JSON.parse] builds is internal, and its numbers are those of
    the text. *)
Lemma internal_internalize t : internal (internalize t).
Proof.
  induction t as [|b|n|s|vs IHvs|ms IHms] using json_induction;
    try exact I.
  - cbn [internalize]. apply internal_array.
    induction IHvs; simpl; constructor; auto.
  - cbn [internalize]. apply internal_object. split.
    + apply define_all_ordered. constructor.
    + apply define_all_Forall; [constructor|].
      apply map_internalize_members, IHms.
Qed.

Lemma faithful_internalize t :
  numbers_faithful t -> numbers_faithful (internalize t).
Proof.
  induction t as [|b|n|s|vs IHvs|ms IHms] using json_induction; intros F;
    try exact F.
  - cbn [internalize]. apply faithful_array. apply faithful_array in F.
    induction IHvs; inversion F; subst; simpl; constructor; auto.
  - cbn [internalize]. apply faithful_object. apply faithful_object in F.
    apply define_all_Forall; [constructor|].
    apply map_internalize_members.
    induction IHms; inversion F; subst; constructor; auto.
Qed.

(** On an internal value [internalize] changes nothing: the text that
    writes such a value is parsed to it. *)
Lemma internalize_internal v : internal v -> internalize v = v.
Proof.
  induction v as [|b|n|s|vs IHvs|ms IHms] using json_induction; intros H;
    try reflexivity.
  - cbn [internalize]. f_equal. apply internal_array in H.
    induction IHvs as [|x xs Hx _ IHxs]; [reflexivity|].
    inversion H; subst. simpl. rewrite Hx, IHxs; auto.
  - cbn [internalize]. f_equal. apply internal_object in H as [Ho Hv].
    assert (E : map (fun m : jsstring * json => let (k, v) := m in (k, internalize v)) ms = ms).
    { clear Ho. induction IHms as [|[k x] ms' Hx _ IHms']; [reflexivity|].
      inversion Hv; subst. simpl in *. rewrite Hx, IHms'; auto. }
    rewrite E. apply define_ordered_members. exact Ho.
Qed.

Lemma internal_define_name props s :
  internal (JObject props) ->
  internal (JObject (define_property props key_name (JString s))).
Proof.
  rewrite !internal_object. intros [Ho Hv]. split.
  - apply ordered_define_property, Ho.
  - apply Forall_define_property; [exact I|exact Hv].
Qed.


End Numbers.

Arguments JNull {number}.
Arguments JBool {number} b.
Arguments JString {number} s.

(** Numbers kept as their tokens: an instance of the parameters in which
    every number is written back as it was read.  It serves to run the
    functions on concrete texts. *)
Definition token_number : Type := jsstring.
Definition token_number_of_token (t : jsstring) : token_number := t.
Definition token_of_token_number (n : token_number) : option jsstring := Some n.

Definition rewrite_manifest_tokens :=
  rewrite_manifest token_number_of_token token_of_token_number.

(** An ASCII text in which every apostrophe stands for a double quote. *)
Definition json_text (s : string) : jsstring :=
  map (fun c => if (c =? 39)%N then 34%N else c) (str s).


(** In the instance the token [3000] is a faithfully written number. *)
Lemma token_3000_faithful :
  faithful token_number_of_token token_of_token_number (str "3000").
Proof.
  exists (str "3000"). split; [reflexivity|]. split; [reflexivity|].
  intros [|c r] H; [reflexivity|].
  simpl in H. unfold continues_number in H.
  apply orb_false_elim in H as [H E69]. apply orb_false_elim in H as [H E101].
  apply orb_false_elim in H as [H E46]. apply orb_false_elim in H as [H E45].
  apply orb_false_elim in H as [H E43].
  unfold lex_number. cbn [str list_ascii_of_string map app].
  change (N_of_ascii "3") with 51%N. change (N_of_ascii "0") with 48%N.
  cbn [lex_minus N.eqb Pos.eqb lex_int is_digit between N.leb N.compare
       Pos.compare Pos.compare_cont andb take_digits].
  rewrite H. cbn [lex_frac]. rewrite E46. cbn [lex_exp]. rewrite E101, E69.
  reflexivity.
Qed.


End Json.

(* ================================================================== *)
(** * Paths *)
(* ================================================================== *)

Module Paths.
Import JsString Exn Fs.

(** [s.split(sep)] for a separator of one code unit. *)
Definition split_on (sep : N) (s : jsstring) : list jsstring :=
  fold_right
    (fun c acc =>
       if (c =? sep)%N then [] :: acc
       else
         match acc with
         | h :: t => (c :: h) :: t
         | [] => [[c]]
         end)
    [[]] s.

(** One more segment on a normalized path: empty segments and [.] change
    nothing, [..] goes to the parent. *)
Definition enter (p : path) (segment : jsstring) : path :=
  if is_nil segment || eqs segment (str ".") then p
  else if eqs segment (str "..") then removelast p
  else p ++ [segment].

(** [path.join(base, s)] for an absolute, normalized [base]. *)
Definition join (base : path) (s : jsstring) : path :=
  fold_left enter (split_on 47 s) base.

(** ** Path names as the file system takes them

    A call of [node:fs] on a path name that the user wrote, such as
    [fs.existsSync(targetDir)], leaves the name to the kernel, which
    walks it segment by segment through the tree: from the root for a
    name that starts with a slash, from the working directory for any
    other.  Every segment, also an empty one, a [.] or a [..], is taken
    at a directory: where there is a regular file the walk ends with
    ENOTDIR, where there is nothing it ends with ENOENT.  So
    [nope/../demo] is not found when there is no [nope], though
    [path.join] makes [demo] of it.  The empty name is not found. *)
Fixpoint walk (s : fs) (here : path) (segments : list jsstring)
  : errno + path :=
  match segments with
  | [] => inr here
  | segment :: rest =>
      match lookup s here with
      | Some (Dir _) => walk s (enter here segment) rest
      | Some (File _) => inl ENOTDIR
      | None => inl ENOENT
      end
  end.

Definition locate (s : fs) (cwd : path) (name : jsstring) : errno + path :=
  if is_nil name then inl ENOENT
  else walk s (if starts_in (chr "/") name then [] else cwd) (split_on 47 name).

(** [fs.existsSync(name)] *)
Definition existsSync_at (s : fs) (cwd : path) (name : jsstring) : bool :=
  match locate s cwd name with
  | inr p => existsSync s p
  | inl _ => false
  end.

(** A call on a path name: the call at the place where the walk ends,
    with the name in the error that it throws. *)
Definition at_name (A : Type) (call : fs -> path -> result A)
    (s : fs) (cwd : path) (name : jsstring) : result A :=
  match locate s cwd name with
  | inr p =>
      match call s p with
      | Throw (SystemError code _) => Throw (SystemErrorAt code name)
      | r => r
      end
  | inl code => Throw (SystemErrorAt code name)
  end.

(** [path.basename(p)] *)
Definition basename (p : path) : jsstring := last p [].

(** The text of an absolute path. *)
Definition show (p : path) : jsstring :=
  match p with
  | [] => str "/"
  | _ => concat (map (fun segment => 47%N :: segment) p)
  end.

Fixpoint with_separator (sep : jsstring) (l : list jsstring) : jsstring :=
  match l with
  | [] => []
  | [x] => x
  | x :: t => x ++ sep ++ with_separator sep t
  end.

(** [path.relative(from, to)] *)
Fixpoint relative (from to : path) : jsstring :=
  match from, to with
  | a :: from', b :: to' =>
      if eqs a b then relative from' to'
      else with_separator (str "/") (map (fun _ => str "..") from ++ to)
  | _, _ => with_separator (str "/") (map (fun _ => str "..") from ++ to)
  end.

Fixpoint same_path (p q : path) : bool :=
  match p, q with
  | [], [] => true
  | a :: p', b :: q' => eqs a b && same_path p' q'
  | _, _ => false
  end.

End Paths.

(* ================================================================== *)
(** * The template catalog *)
(* ================================================================== *)

Module Catalog.
Import JsString.

Section Colors.

(** The colouring functions of the terminal library. *)
Variables cyan green magenta red : jsstring -> jsstring.

Record Variant : Type := {
  variant_name : jsstring;
  variant_display : jsstring;
  variant_color : jsstring -> jsstring
}.

Record Layout : Type := {
  layout_name : jsstring;
  layout_display : jsstring;
  layout_color : jsstring -> jsstring;
  variants : list Variant
}.

Definition LAYOUTS : list Layout :=
  [ {| layout_name := str "pug";
       layout_display := str "Pug";
       layout_color := red;
       variants :=
         [ {| variant_name := str "pug-scss";
              variant_display := str "Pug scss";
              variant_color := magenta |};
           {| variant_name := str "pug-css";
              variant_display := str "Pug CSS";
              variant_color := cyan |} ] |};
    {| layout_name := str "html";
       layout_display := str "HTML";
       layout_color := green;
       variants :=
         [ {| variant_name := str "html-scss";
              variant_display := str "HTML Scss";
              variant_color := magenta |};
           {| variant_name := str "html-css";
              variant_display := str "HTML CSS";
              variant_color := cyan |} ] |} ].

(** [LAYOUTS.map(f => f.variants.map(v => v.name))
      .reduce((a, b) => a.concat(b), [])] *)
Definition TEMPLATES : list jsstring :=
  fold_left (fun a b => a ++ b)
    (map (fun f => map variant_name (variants f)) LAYOUTS) [].

End Colors.

(** [renameFiles] *)
Definition renameFiles : list (jsstring * jsstring) :=
  [(str "_gitignore", str ".gitignore")].

Definition DEFAULT_TARGET_DIR : jsstring := str "loom-project".

End Catalog.

(* ================================================================== *)
(** * The prompt sequence *)
(* ================================================================== *)

Module Prompts.
Import JsString Exn Fs Catalog.

(** The values that answers and command-line options take.  [VOther]
    stands for a value of another type (a number, or [true] written as a
    bare flag is [VBool]), of which only the truth value and the text
    matter. *)
Inductive value : Type :=
| VUndefined
| VString (s : jsstring)
| VBool (b : bool)
| VLayout (l : Layout)
| VOther (truth : bool) (text : jsstring).

Definition truthy (v : value) : bool :=
  match v with
  | VUndefined => false
  | VString s => negb (is_nil s)
  | VBool b => b
  | VLayout _ => true
  | VOther t _ => t
  end.

(** [a || b] *)
Definition js_or (a b : value) : value := if truthy a then a else b.

(** The answers so far: an object from question names to values. *)
Definition answers := list (jsstring * value).

Fixpoint get (a : answers) (key : jsstring) : value :=
  match a with
  | [] => VUndefined
  | (k, v) :: t => if eqs k key then v else get t key
  end.

Fixpoint set (a : answers) (key : jsstring) (v : value) : answers :=
  match a with
  | [] => [(key, v)]
  | (k, v') :: t => if eqs k key then (k, v) :: t else (k, v') :: set t key v
  end.

(** The prompt types that the program uses. *)
Inductive kind : Type := text | confirm | select.

(** What the user does at a prompt: abort it, submit a line of text,
    answer yes or no, or pick the choice at a place of the list. *)
Inductive response : Type :=
| Abort
| Line (s : jsstring)
| YesNo (b : bool)
| Pick (i : nat).

(** A question.  Each property that the library lets be a function is a
    function of the program's variable [targetDir], of the previous
    answer and of the answers so far. *)
Record question : Type := {
  q_name : jsstring;
  q_type : jsstring -> value -> answers -> result (option kind);
  q_message : jsstring -> jsstring;
  q_initial : jsstring -> jsstring;
  q_validate : jsstring -> bool;
  q_choices : value -> list (jsstring * value);
  q_onState : value -> jsstring -> jsstring
}.

Inductive reading : Type :=
| NoInput
| Aborted (rest : list response)
| Answered (v : value) (r : response) (rest : list response).

(** One prompt.  A text prompt takes its initial value for an empty
    line and stays open while the line is rejected; a response of
    another sort than the prompt's, or a place outside the choices, is
    input that the prompt does not take. *)
Fixpoint read (k : kind) (initial : jsstring) (validate : jsstring -> bool)
    (choices : list (jsstring * value)) (script : list response) : reading :=
  match script with
  | [] => NoInput
  | Abort :: rest => Aborted rest
  | Line s :: rest =>
      match k with
      | text =>
          let v := if is_nil s then initial else s in
          if validate v then Answered (VString v) (Line s) rest
          else read k initial validate choices rest
      | _ => read k initial validate choices rest
      end
  | YesNo b :: rest =>
      match k with
      | confirm => Answered (VBool b) (YesNo b) rest
      | _ => read k initial validate choices rest
      end
  | Pick i :: rest =>
      match k with
      | select =>
          match nth_error choices i with
          | Some (_, v) => Answered v (Pick i) rest
          | None => read k initial validate choices rest
          end
      | _ => read k initial validate choices rest
      end
  end.

(** What was asked and what the user did. *)
Record entry : Type := {
  asked : jsstring;
  shown : jsstring;
  got : response
}.

Inductive asking : Type :=
| Resolved (a : answers) (targetDir : jsstring)
| Threw (e : exn)
| Waiting.

Record outcome : Type := {
  log : list entry;
  final : asking
}.

Section Engine.

(** What [onCancel] throws. *)
Variable cancelled : exn.

(** [prompts(questions, { onCancel })]: the questions in their order.
    The type is worked out first and a question whose type is null is
    left out; an aborted prompt calls [onCancel], which throws; a
    submitted answer is stored under the name of the question and is the
    previous answer of the questions that follow. *)
Fixpoint prompts (questions : list question) (script : list response)
    (targetDir : jsstring) (prev : value) (a : answers) : outcome :=
  match questions with
  | [] => {| log := []; final := Resolved a targetDir |}
  | q :: qs =>
      match q_type q targetDir prev a with
      | Throw e => {| log := []; final := Threw e |}
      | Ok None => prompts qs script targetDir prev a
      | Ok (Some k) =>
          match read k (q_initial q targetDir) (q_validate q)
                  (q_choices q prev) script with
          | NoInput => {| log := []; final := Waiting |}
          | Aborted _ =>
              {| log := [ {| asked := q_name q;
                             shown := q_message q targetDir;
                             got := Abort |} ];
                 final := Threw cancelled |}
          | Answered v r rest =>
              let o := prompts qs rest (q_onState q v targetDir) v
                         (set a (q_name q) v) in
              {| log := {| asked := q_name q;
                           shown := q_message q targetDir;
                           got := r |} :: log o;
                 final := final o |}
          end
      end
  end.

(** ** Facts about the engine *)

Lemma prompts_cons q qs script targetDir prev a :
  prompts (q :: qs) script targetDir prev a =
  match q_type q targetDir prev a with
  | Throw e => {| log := []; final := Threw e |}
  | Ok None => prompts qs script targetDir prev a
  | Ok (Some k) =>
      match read k (q_initial q targetDir) (q_validate q)
              (q_choices q prev) script with
      | NoInput => {| log := []; final := Waiting |}
      | Aborted _ =>
          {| log := [ {| asked := q_name q;
                         shown := q_message q targetDir;
                         got := Abort |} ];
             final := Threw cancelled |}
      | Answered v r rest =>
          let o := prompts qs rest (q_onState q v targetDir) v
                     (set a (q_name q) v) in
          {| log := {| asked := q_name q;
                       shown := q_message q targetDir;
                       got := r |} :: log o;
             final := final o |}
      end
  end.
Proof. reflexivity. Qed.

(** A prompt gives no answer with an abort in it. *)
Lemma read_answered k initial validate choices script v r rest :
  read k initial validate choices script = Answered v r rest -> r <> Abort.
Proof.
  induction script as [|x t IH]; simpl; [discriminate|].
  destruct x as [|s|b|i]; [discriminate| | |].
  - destruct k; auto.
    destruct (validate _); [|auto]. intros H. inversion H. discriminate.
  - destruct k; auto. intros H. inversion H. discriminate.
  - destruct k; auto. destruct (nth_error choices i) as [[t' v']|]; auto.
    intros H. inversion H. discriminate.
Qed.

(** The answer of a yes-or-no prompt is the boolean given. *)
Lemma read_confirm initial validate choices script v r rest :
  read confirm initial validate choices script = Answered v r rest ->
  exists b, v = VBool b /\ r = YesNo b.
Proof.
  induction script as [|x t IH]; simpl; [discriminate|].
  destruct x as [|s|b|i]; auto; [discriminate|].
  intros H. inversion H. eauto.
Qed.

(** The answer of a text prompt is a string that passes the validation;
    the answer of a selection is one of the choices. *)
Lemma read_text initial validate choices script v r rest :
  read text initial validate choices script = Answered v r rest ->
  exists s, v = VString s /\ validate s = true.
Proof.
  induction script as [|x t IH]; simpl; [discriminate|].
  destruct x as [|s|b|i]; auto; [discriminate|].
  destruct (validate _) eqn:E; [|auto]. intros H. inversion H. eauto.
Qed.

Lemma read_select initial validate choices script v r rest :
  read select initial validate choices script = Answered v r rest ->
  In v (map snd choices).
Proof.
  induction script as [|x t IH]; simpl; [discriminate|].
  destruct x as [|s|b|i]; auto; [discriminate|].
  destruct (nth_error choices i) as [[t' v']|] eqn:E; [|auto].
  intros H. inversion H; subst. apply nth_error_In in E.
  apply (in_map snd) in E. exact E.
Qed.

(** Whatever the questions are, once a prompt is aborted the sequence
    ends by throwing what [onCancel] throws. *)
Lemma prompts_aborted questions : forall script targetDir prev a x,
  In x (log (prompts questions script targetDir prev a)) ->
  got x = Abort ->
  final (prompts questions script targetDir prev a) = Threw cancelled.
Proof.
  induction questions as [|q qs IH]; intros script targetDir prev a x;
    [intros []|].
  rewrite prompts_cons.
  destruct (q_type q targetDir prev a) as [[k|]|e]; [|apply IH|intros []].
  destruct (read k _ _ _ script) as [|rest|v r rest] eqn:R; [intros []| |].
  - intros _ _. reflexivity.
  - cbn [log final]. intros [<-|Hin] Hx.
    + cbn [got] in Hx. apply read_answered in R. contradiction.
    + eapply IH; eauto.
Qed.

(** Every question that was asked is one of the questions. *)
Lemma prompts_asked questions : forall script targetDir prev a x,
  In x (log (prompts questions script targetDir prev a)) ->
  In (asked x) (map q_name questions).
Proof.
  induction questions as [|q qs IH]; intros script targetDir prev a x;
    [intros []|].
  rewrite prompts_cons.
  destruct (q_type q targetDir prev a) as [[k|]|e];
    [|intros H; right; eapply IH, H|intros []].
  destruct (read k _ _ _ script) as [|rest|v r rest]; [intros []| |].
  - cbn [log]. intros [<-|[]]. left. reflexivity.
  - cbn [log]. intros [<-|Hin]; [left; reflexivity|right; eapply IH, Hin].
Qed.

(** A property of the previous answer and of the answers that every
    question keeps is a property of the answers at the end. *)
Lemma prompts_invariant (Inv : value -> answers -> Prop) questions :
  (forall q targetDir prev a k script v r rest,
     In q questions -> Inv prev a ->
     q_type q targetDir prev a = Ok (Some k) ->
     read k (q_initial q targetDir) (q_validate q) (q_choices q prev) script =
       Answered v r rest ->
     Inv v (set a (q_name q) v)) ->
  forall script targetDir prev a a' targetDir',
    Inv prev a ->
    final (prompts questions script targetDir prev a) = Resolved a' targetDir' ->
    exists prev', Inv prev' a'.
Proof.
  induction questions as [|q qs IH]; intros Hq script targetDir prev a a' td' Hi.
  - simpl. intros H. inversion H; subst. eauto.
  - rewrite prompts_cons.
    destruct (q_type q targetDir prev a) as [[k|]|e] eqn:T; [| |discriminate].
    + destruct (read k _ _ _ script) as [|rest|v r rest] eqn:R;
        [discriminate|discriminate|].
      cbn [final]. apply IH.
      * intros q' ? ? ? ? ? ? ? ? Hin. apply Hq. right. exact Hin.
      * eapply Hq; eauto. left. reflexivity.
    + apply IH; [|exact Hi].
      intros q' ? ? ? ? ? ? ? ? Hin. apply Hq. right. exact Hin.
Qed.

End Engine.

End Prompts.

(* ================================================================== *)
(** * [init] *)
(* ================================================================== *)

Module Workflow.
Import JsString Exn Fs Names Paths Catalog Prompts.

(** The names of the questions. *)
Definition projectName : jsstring := str "projectName".
Definition overwrite : jsstring := str "overwrite".
Definition overwriteChecker : jsstring := str "overwriteChecker".
Definition packageName : jsstring := str "packageName".
Definition framework : jsstring := str "framework".
Definition variant : jsstring := str "variant".

Definition package_json : jsstring := str "package.json".

(** What the program is started with: the positional arguments
    [argv._], the options [argv.template] and [argv.t], the working
    directory, the directory of the program's own file and
    [process.env.npm_config_user_agent]. *)
Record env : Type := {
  argv_ : list jsstring;
  argv_template : value;
  argv_t : value;
  cwd : path;
  program_dir : path;
  npm_config_user_agent : option jsstring
}.

(** The calls that change the file system. *)
Inductive call : Type :=
| EmptyDir (dir : path)
| MkdirSync (dir : path)
| Copy (src destination : path)
| WriteFileSync (file : path).

(** The world that the program acts on: the file system, the lines
    written by [console.log], and the changing calls made so far. *)
Record world : Type := {
  files : fs;
  console : list jsstring;
  calls : list call
}.

(** How a run ends: [init] returns, its promise is rejected (and the
    error goes to [console.error]), or the program waits for input that
    does not come. *)
Inductive status : Type :=
| Returned
| Rejected (e : exn)
| WaitingForInput.

(** Actions on the world that can throw.  An action has no result when
    the recursion of [copy] needs more fuel than the run is given. *)
Definition action (A : Type) : Type := world -> option (result A * world).

Definition pure (A : Type) (a : A) : action A := fun w => Some (Ok a, w).

Definition throw (A : Type) (e : exn) : action A := fun w => Some (Throw e, w).

Definition andThen (A B : Type) (m : action A) (k : A -> action B) : action B :=
  fun w =>
    match m w with
    | Some (Ok a, w') => k a w'
    | Some (Throw e, w') => Some (Throw e, w')
    | None => None
    end.

Notation "x <~ m ;; k" := (andThen m (fun x => k))
  (at level 61, m at next level, right associativity).
Notation "m ;;; k" := (andThen m (fun _ => k))
  (at level 61, right associativity).

Definition console_log (line : jsstring) : action unit :=
  fun w => Some (Ok tt, {| files := files w;
                           console := console w ++ [line];
                           calls := calls w |}).

(** A call that reads the file system. *)
Definition reading_call (A : Type) (f : fs -> result A) : action A :=
  fun w => Some (f (files w), w).

(** A call that changes the file system. *)
Definition changing_call (c : call) (f : fs -> option effect) : action unit :=
  fun w =>
    match f (files w) with
    | Some (r, s) =>
        Some (r, {| files := s; console := console w;
                    calls := calls w ++ [c] |})
    | None => None
    end.

Fixpoint for_each (A : Type) (l : list A) (body : A -> action unit)
  : action unit :=
  match l with
  | [] => pure tt
  | x :: t => body x ;;; for_each t body
  end.

(** [s.includes(' ')] *)
Definition has_space (s : jsstring) : bool := existsb (fun c => (c =? 32)%N) s.

(** [pkgFromUserAgent]:
[[
  if (!userAgent) return undefined
  const pkgSpec = userAgent.split(' ')[0]
  const pkgSpecArr = pkgSpec.split('/')
  return { name: pkgSpecArr[0], version: pkgSpecArr[1] }
]] *)
Record pkgInfo : Type := {
  pkg_name : jsstring;
  pkg_version : option jsstring
}.

Definition pkgFromUserAgent (userAgent : option jsstring) : option pkgInfo :=
  match userAgent with
  | None => None
  | Some u =>
      if is_nil u then None
      else
        let pkgSpec := hd [] (split_on 32 u) in
        let pkgSpecArr := split_on 47 pkgSpec in
        Some {| pkg_name := hd [] pkgSpecArr;
                pkg_version := nth_error pkgSpecArr 1 |}
  end.

(** The text of a value in a template literal. *)
Definition to_text (v : value) : jsstring :=
  match v with
  | VUndefined => str "undefined"
  | VString s => s
  | VBool true => str "true"
  | VBool false => str "false"
  | VLayout _ => str "[object Object]"
  | VOther _ t => t
  end.

(** [framework?.name] *)
Definition name_of (v : value) : value :=
  match v with
  | VLayout l => VString (layout_name l)
  | _ => VUndefined
  end.

(** [TEMPLATES.includes(argTemplate)] *)
Definition includes (l : list jsstring) (v : value) : bool :=
  match v with
  | VString s => existsb (eqs s) l
  | _ => false
  end.

(** The names of the members of [Object.prototype].  A plain object
    such as [renameFiles] inherits them: under these names it has a
    function, and under [__proto__] the prototype itself. *)
Definition object_prototype_members : list jsstring :=
  [str "constructor"; str "__defineGetter__"; str "__defineSetter__";
   str "hasOwnProperty"; str "__lookupGetter__"; str "__lookupSetter__";
   str "isPrototypeOf"; str "propertyIsEnumerable"; str "toString";
   str "valueOf"; str "__proto__"; str "toLocaleString"].

(** [renameFiles[file] ?? file] when it is a string: the own property of
    [renameFiles] of that name, or the file name itself where
    [renameFiles] has nothing.  Under a name that it inherits
    [renameFiles] has a value that is no string. *)
Definition renamed (file : jsstring) : option jsstring :=
  match List.find (fun r => eqs (fst r) file) renameFiles with
  | Some r => Some (snd r)
  | None =>
      if existsb (eqs file) object_prototype_members then None
      else Some file
  end.

(** [formatTargetDir(x) || DEFAULT_TARGET_DIR] *)
Definition or_default (d : option jsstring) : jsstring :=
  match d with
  | Some s => if is_nil s then DEFAULT_TARGET_DIR else s
  | None => DEFAULT_TARGET_DIR
  end.

Definition as_string (v : value) : option jsstring :=
  match v with
  | VString s => Some s
  | _ => None
  end.

Section Program.

(** The parts of the runtime and of the libraries that the program is
    run with: the lower-casing of strings, the reading and writing of
    Numbers, the colouring functions, and the message that the runtime
    gives to an error of its own. *)
Variable toLowerCase : jsstring -> jsstring.
Variable number : Type.
Variable number_of_token : jsstring -> number.
Variable token_of_number : number -> option jsstring.
Variables cyan green magenta red reset : jsstring -> jsstring.
Variable runtime_message : exn -> jsstring.

Definition layouts : list Layout := LAYOUTS cyan green magenta red.
Definition templates : list jsstring := TEMPLATES cyan green magenta red.

(** [red('✖') + ' Operation cancelled!'] *)
Definition cancel_message : jsstring :=
  red [10006%N] ++ str " Operation cancelled!".

Definition cancellation : exn := Error cancel_message.

(** [e.message] *)
Definition message_of (e : exn) : jsstring :=
  match e with
  | Error m => m
  | _ => runtime_message e
  end.

Variable e : env.

Definition argTargetDir : option jsstring := formatTargetDir (hd_error (argv_ e)).
Definition argTemplate : value := js_or (argv_template e) (argv_t e).

(** [getProjectName]:
    [targetDir === '.' ? path.basename(path.resolve()) : targetDir] *)
Definition getProjectName (targetDir : jsstring) : jsstring :=
  if eqs targetDir (str ".") then basename (cwd e) else targetDir.

(** Is the string there and not empty? *)
Definition present (d : option jsstring) : bool :=
  match d with
  | Some s => negb (is_nil s)
  | None => false
  end.

(** The six questions.  [s] is the file system while they are asked. *)
Definition ask_projectName : question :=
  {| q_name := projectName;
     q_type := fun _ _ _ => Ok (if present argTargetDir then None else Some text);
     q_message := fun _ => reset (str "Project name:");
     q_initial := fun _ => DEFAULT_TARGET_DIR;
     q_validate := fun _ => true;
     q_choices := fun _ => [];
     q_onState := fun v _ => or_default (formatTargetDir (as_string v)) |}.

Definition ask_overwrite (s : fs) : question :=
  {| q_name := overwrite;
     q_type := fun targetDir _ _ =>
       if negb (existsSync_at s (cwd e) targetDir) then Ok None
       else
         empty <- at_name isEmpty s (cwd e) targetDir ;;
         Ok (if empty then None else Some confirm);
     q_message := fun targetDir =>
       (if eqs targetDir (str ".") then str "Current directory"
        else str "Target directory " ++ [34%N] ++ targetDir ++ [34%N])
       ++ str "is not empty. Remove existing files and continue?";
     q_initial := fun _ => [];
     q_validate := fun _ => true;
     q_choices := fun _ => [];
     q_onState := fun _ targetDir => targetDir |}.

Definition check_overwrite : question :=
  {| q_name := overwriteChecker;
     q_type := fun _ _ a =>
       match get a overwrite with
       | VBool false => Throw cancellation
       | _ => Ok None
       end;
     q_message := fun _ => [];
     q_initial := fun _ => [];
     q_validate := fun _ => true;
     q_choices := fun _ => [];
     q_onState := fun _ targetDir => targetDir |}.

Definition ask_packageName : question :=
  {| q_name := packageName;
     q_type := fun targetDir _ _ =>
       Ok (if isValidPackageName (getProjectName targetDir) then None
           else Some text);
     q_message := fun _ => reset (str "Package name:");
     q_initial := fun targetDir =>
       toValidPackageName toLowerCase (getProjectName targetDir);
     q_validate := isValidPackageName;
     q_choices := fun _ => [];
     q_onState := fun _ targetDir => targetDir |}.

Definition ask_framework : question :=
  {| q_name := framework;
     q_type := fun _ _ _ =>
       Ok (if truthy argTemplate && includes templates argTemplate then None
           else Some select);
     q_message := fun _ =>
       match argTemplate with
       | VString t =>
           if negb (includes templates argTemplate) then
             reset ([34%N] ++ t ++ [34%N]
                    ++ str " isn't a valid template. Please choose from below: ")
           else reset (str "Select a framework: ")
       | _ => reset (str "Select a framework: ")
       end;
     q_initial := fun _ => [];
     q_validate := fun _ => true;
     q_choices := fun _ =>
       map (fun f =>
              (layout_color f
                 (if is_nil (layout_display f) then layout_name f
                  else layout_display f),
               VLayout f)) layouts;
     q_onState := fun _ targetDir => targetDir |}.

Definition ask_variant : question :=
  {| q_name := variant;
     q_type := fun _ prev _ =>
       Ok (match prev with
           | VLayout _ => Some select
           | _ => None
           end);
     q_message := fun _ => reset (str "Select a variant: ");
     q_initial := fun _ => [];
     q_validate := fun _ => true;
     q_choices := fun prev =>
       match prev with
       | VLayout f =>
           map (fun v =>
                  (variant_color v
                     (if is_nil (variant_display v) then variant_name v
                      else variant_display v),
                   VString (variant_name v))) (variants f)
       | _ => []
       end;
     q_onState := fun _ targetDir => targetDir |}.

Definition questions (s : fs) : list question :=
  [ ask_projectName; ask_overwrite s; check_overwrite; ask_packageName;
    ask_framework; ask_variant ].

(** The questions, asked of the user whose responses are [script]. *)
Definition ask (script : list response) (s : fs) : outcome :=
  prompts cancellation (questions s) script (or_default argTargetDir)
    VUndefined [].

(** [variant || framework?.name || argTemplate] *)
Definition effective_template (a : answers) : value :=
  js_or (get a variant) (js_or (name_of (get a framework)) argTemplate).

(** [write(file, content)]:
[[
  const targetPath = path.join(root, renameFiles[file] ?? file)
  if (content) fs.writeFileSync(targetPath, content)
  else copy(path.join(templateDir, file), targetPath)
]]
    [path.join] throws a [TypeError] when it is given what is no
    string. *)
Definition write (fuel : nat) (root templateDir : path) (file : jsstring)
    (content : option jsstring) : action unit :=
  match renamed file with
  | None => throw unit TypeError
  | Some name =>
      let targetPath := root ++ [name] in
      match content with
      | Some c =>
          if negb (is_nil c) then
            changing_call (WriteFileSync targetPath)
              (atomically (fun s => writeFileSync s targetPath c))
          else
            changing_call (Copy (templateDir ++ [file]) targetPath)
              (copy fuel (templateDir ++ [file]) targetPath)
      | None =>
          changing_call (Copy (templateDir ++ [file]) targetPath)
            (copy fuel (templateDir ++ [file]) targetPath)
      end
  end.

(** The part of [init] after the questions. *)
Definition materialize (fuel : nat) (a : answers) (targetDir : jsstring)
  : action unit :=
  let root := join (cwd e) targetDir in
  (if truthy (get a overwrite) then
     changing_call (EmptyDir root) (atomically (emptyDir root))
   else
     there <~ reading_call (fun s => Ok (existsSync s root)) ;;
     if negb there then
       changing_call (MkdirSync root)
         (atomically (fun s => mkdirSync s root))
     else pure tt) ;;;
  let template := effective_template a in
  let pkgInfo := pkgFromUserAgent (npm_config_user_agent e) in
  let pkgManager :=
    match pkgInfo with
    | Some info => pkg_name info
    | None => str "npm"
    end in
  console_log ([10%N] ++ str "Scaffolding project in " ++ show root
               ++ str "...") ;;;
  let templateDir :=
    program_dir e ++ [str "packages"; str "template-" ++ to_text template] in
  files <~ reading_call (fun s => readdirSync s templateDir) ;;
  for_each (filter (fun f => negb (eqs f package_json)) files)
    (fun file => write fuel root templateDir file None) ;;;
  manifest <~
    reading_call (fun s => readFileSync s (templateDir ++ [package_json])) ;;
  content <~
    reading_call (fun _ =>
      Json.rewrite_manifest number_of_token token_of_number manifest
        (Json.manifest_name (as_string (get a packageName))
           (getProjectName targetDir))) ;;
  write fuel root templateDir package_json (Some content) ;;;
  let cdProjectName := relative (cwd e) root in
  console_log ([10%N] ++ str "Done. Now run:" ++ [10%N]) ;;;
  (if negb (same_path root (cwd e)) then
     console_log
       (str "  cd "
        ++ (if has_space cdProjectName
            then [34%N] ++ cdProjectName ++ [34%N]
            else cdProjectName))
   else pure tt) ;;;
  if eqs pkgManager (str "yarn") then
    console_log (str "  yarn") ;;;
    console_log (str "  yarn dev")
  else
    console_log (str "  " ++ pkgManager ++ str " install") ;;;
    console_log (str "  " ++ pkgManager ++ str " run dev").

(** [init]: the questions inside [try], the [catch] that prints the
    message of what was thrown and returns, and the rest.  [fuel] is
    the depth that the recursion of [copy] may reach; a run that needs
    more has no result. *)
Definition init (fuel : nat) (script : list response) (w : world)
  : option (status * world) :=
  match final (ask script (files w)) with
  | Threw thrown =>
      match console_log (message_of thrown) w with
      | Some (_, w') => Some (Returned, w')
      | None => None
      end
  | Waiting => Some (WaitingForInput, w)
  | Resolved a targetDir =>
      match materialize fuel a targetDir w with
      | Some (Ok _, w') => Some (Returned, w')
      | Some (Throw err, w') => Some (Rejected err, w')
      | None => None
      end
  end.

(** ** Cancellation *)

Lemma get_set_same a key v : get (set a key v) key = v.
Proof.
  induction a as [|[k v'] t IH]; simpl.
  - rewrite eqs_refl. reflexivity.
  - destruct (eqs k key) eqn:E; simpl; rewrite E; [reflexivity|exact IH].
Qed.

Lemma get_set_other a key other v :
  eqs key other = false -> get (set a key v) other = get a other.
Proof.
  intros H. induction a as [|[k v'] t IH]; simpl.
  - rewrite H. reflexivity.
  - destruct (eqs k key) eqn:E; simpl.
    + apply eqs_eq in E. subst k. rewrite H. reflexivity.
    + destruct (eqs k other); [reflexivity|exact IH].
Qed.

(** The overwrite question, when it is asked, is a yes-or-no prompt. *)
Lemma ask_overwrite_confirm s targetDir prev a k :
  q_type (ask_overwrite s) targetDir prev a = Ok (Some k) -> k = confirm.
Proof.
  cbn [q_type ask_overwrite].
  destruct (negb (existsSync_at s (cwd e) targetDir)); [discriminate|].
  destruct (at_name isEmpty s (cwd e) targetDir) as [[|]|err]; simpl;
    intros H; inversion H; reflexivity.
Qed.

(** From the overwrite question on: when the answer no is in the log,
    the sequence ends by throwing the cancellation. *)
Lemma declined_from_overwrite s script targetDir prev a x :
  In x (log (prompts cancellation
               [ask_overwrite s; check_overwrite; ask_packageName;
                ask_framework; ask_variant] script targetDir prev a)) ->
  asked x = overwrite -> got x = YesNo false ->
  final (prompts cancellation
           [ask_overwrite s; check_overwrite; ask_packageName;
            ask_framework; ask_variant] script targetDir prev a) =
  Threw cancellation.
Proof.
  assert (Later : forall script targetDir prev a,
            In x (log (prompts cancellation
                         [check_overwrite; ask_packageName; ask_framework;
                          ask_variant] script targetDir prev a)) ->
            asked x = overwrite -> False).
  { intros sc td pv an Hin Hx. apply prompts_asked in Hin. rewrite Hx in Hin.
    cbn [map q_name check_overwrite ask_packageName ask_framework ask_variant]
      in Hin.
    vm_compute in Hin. intuition discriminate. }
  rewrite prompts_cons.
  destruct (q_type (ask_overwrite s) targetDir prev a) as [[k|]|err] eqn:T.
  - apply ask_overwrite_confirm in T. subst k.
    destruct (read confirm _ _ _ script) as [|rest|v r rest] eqn:R.
    + intros [].
    + cbn [log]. intros [<-|[]] _ H. discriminate.
    + apply read_confirm in R as (b & -> & ->).
      cbn [log final]. intros [<-|Hin] Hx Hg.
      * cbn [got] in Hg. inversion Hg; subst b.
        rewrite prompts_cons. cbn [q_type check_overwrite q_name ask_overwrite].
        rewrite get_set_same. reflexivity.
      * exfalso. eapply Later; eauto.
  - intros Hin Hx _. exfalso. eapply Later; eauto.
  - intros [].
Qed.

Lemma declined script s x :
  In x (log (ask script s)) ->
  asked x = overwrite -> got x = YesNo false ->
  final (ask script s) = Threw cancellation.
Proof.
  unfold ask, questions. rewrite prompts_cons.
  cbn [q_type ask_projectName].
  destruct (present argTargetDir).
  - apply declined_from_overwrite.
  - destruct (read text _ _ _ script) as [|rest|v r rest].
    + intros [].
    + cbn [log]. intros [<-|[]] _ H. discriminate.
    + cbn [log final]. intros [<-|Hin] Hx Hg.
      * vm_compute in Hx. discriminate.
      * eapply declined_from_overwrite; eauto.
Qed.

(** C1: when the user answers no to the overwrite question, or aborts a
    prompt, the questions end by throwing the cancellation, which [init]
    catches: it writes the cancellation message and nothing else,
    returns, and leaves the file system as it was without having made a
    call that changes it.  This needs no fuel. *)
Theorem cancellation_touches_nothing (fuel : nat) (script : list response)
    (w : world) :
  (exists x, In x (log (ask script (files w))) /\
             (got x = Abort \/ (asked x = overwrite /\ got x = YesNo false))) ->
  final (ask script (files w)) = Threw cancellation /\
  init fuel script w =
    Some (Returned, {| files := files w;
                       console := console w ++ [cancel_message];
                       calls := calls w |}).
Proof.
  intros (x & Hin & Hx).
  assert (T : final (ask script (files w)) = Threw cancellation).
  { destruct Hx as [Hx|[Ha Hg]].
    - eapply prompts_aborted; eauto.
    - eapply declined; eauto. }
  split; [exact T|]. unfold init. rewrite T. reflexivity.
Qed.

(** ** The template *)

Lemma variant_in_templates f v :
  In f layouts -> In v (variants f) -> In (variant_name v) templates.
Proof.
  unfold layouts, LAYOUTS. intros [<-|[<-|[]]]; cbn [variants];
    intros [<-|[<-|[]]]; vm_compute; auto.
Qed.

Lemma template_truthy v : In v templates -> truthy (VString v) = true.
Proof.
  intros H. vm_compute in H.
  destruct H as [<-|[<-|[<-|[<-|[]]]]]; reflexivity.
Qed.

Lemma layout_name_truthy f :
  In f layouts -> truthy (VString (layout_name f)) = true.
Proof.
  unfold layouts, LAYOUTS. intros [<-|[<-|[]]]; reflexivity.
Qed.

(** What the answers hold under [variant] and [framework], and what the
    previous answer is when it is a layout. *)
Definition from_catalog (prev : value) (a : answers) : Prop :=
  (get a variant = VUndefined \/
   exists v, get a variant = VString v /\ In v templates) /\
  (get a framework = VUndefined \/
   exists f, get a framework = VLayout f /\ In f layouts) /\
  (forall f, prev = VLayout f -> In f layouts).

Lemma questions_from_catalog s q targetDir prev a k script v r rest :
  In q (questions s) -> from_catalog prev a ->
  q_type q targetDir prev a = Ok (Some k) ->
  read k (q_initial q targetDir) (q_validate q) (q_choices q prev) script =
    Answered v r rest ->
  from_catalog v (set a (q_name q) v).
Proof.
  intros Hq (Hv & Hf & Hp) T R.
  assert (Keep : forall key s',
            eqs key variant = false -> eqs key framework = false ->
            from_catalog (VString s') (set a key (VString s')) /\
            forall b, from_catalog (VBool b) (set a key (VBool b))).
  { intros key s' E1 E2. split; [|intros b]; unfold from_catalog;
      rewrite !get_set_other by assumption;
      (split; [exact Hv|split; [exact Hf|intros f H; discriminate]]). }
  destruct Hq as [<-|[<-|[<-|[<-|[<-|[<-|[]]]]]]].
  - cbn [q_type ask_projectName] in T.
    destruct (present argTargetDir); inversion T; subst k.
    apply read_text in R as (s' & -> & _). apply Keep; reflexivity.
  - apply ask_overwrite_confirm in T. subst k.
    apply read_confirm in R as (b & -> & _).
    apply (Keep overwrite []); reflexivity.
  - cbn [q_type check_overwrite] in T.
    destruct (get a overwrite) as [| |[|]| |]; discriminate.
  - cbn [q_type ask_packageName] in T.
    destruct (isValidPackageName _); inversion T; subst k.
    apply read_text in R as (s' & -> & _). apply Keep; reflexivity.
  - cbn [q_type ask_framework] in T.
    destruct (truthy argTemplate && includes templates argTemplate);
      inversion T; subst k.
    apply read_select in R. cbn [q_choices ask_framework] in R.
    rewrite map_map in R. cbn [snd] in R.
    apply in_map_iff in R as (f & <- & Hin).
    unfold from_catalog. cbn [q_name ask_framework].
    rewrite get_set_same, get_set_other by reflexivity.
    split; [exact Hv|]. split; [right; eauto|].
    intros f' H. inversion H; subst. exact Hin.
  - cbn [q_type ask_variant] in T.
    destruct prev as [| | |f|]; inversion T; subst k.
    apply read_select in R. cbn [q_choices ask_variant] in R.
    rewrite map_map in R. cbn [snd] in R.
    apply in_map_iff in R as (x & <- & Hin).
    unfold from_catalog. cbn [q_name ask_variant].
    rewrite get_set_same, get_set_other by reflexivity.
    split; [right; eexists; split; [reflexivity|]|].
    + eapply variant_in_templates; eauto.
    + split; [exact Hf|intros f' H; discriminate].
Qed.

(** C3: the template is computed by this priority, whatever the answers
    hold: the answer to the variant question when there is one (one
    that counts as true: the variants are strings that are not empty),
    otherwise the name of the layout that is the answer to the framework
    question when there is one, otherwise the template given on the
    command line, as it was given.  When the questions have resolved,
    the answers are from the catalogue: the variant answer, when there
    is one, is one of the templates, and the framework answer, when
    there is one, is one of the layouts. *)
Theorem template_priority (a : answers) :
  (truthy (get a variant) = true ->
   effective_template a = get a variant) /\
  (truthy (get a variant) = false ->
   forall f, get a framework = VLayout f ->
             truthy (VString (layout_name f)) = true ->
             effective_template a = VString (layout_name f)) /\
  (truthy (get a variant) = false ->
   truthy (name_of (get a framework)) = false ->
   effective_template a = argTemplate) /\
  (forall v, get a variant = VString v -> v <> [] ->
             effective_template a = VString v) /\
  (get a variant = VUndefined ->
   forall f, get a framework = VLayout f -> In f layouts ->
             effective_template a = VString (layout_name f)) /\
  (get a variant = VUndefined -> get a framework = VUndefined ->
   effective_template a = argTemplate) /\
  (forall script s targetDir,
     final (ask script s) = Resolved a targetDir ->
     (exists v, get a variant = VString v /\ In v templates /\
                effective_template a = VString v) \/
     (get a variant = VUndefined /\
      exists f, get a framework = VLayout f /\ In f layouts /\
                effective_template a = VString (layout_name f)) \/
     (get a variant = VUndefined /\ get a framework = VUndefined /\
      effective_template a = argTemplate)).
Proof.
  assert (P1 : truthy (get a variant) = true ->
               effective_template a = get a variant).
  { intros T. unfold effective_template, js_or. rewrite T. reflexivity. }
  assert (P2 : truthy (get a variant) = false ->
               forall f, get a framework = VLayout f ->
                         truthy (VString (layout_name f)) = true ->
                         effective_template a = VString (layout_name f)).
  { intros T f F N. unfold effective_template. unfold js_or at 1.
    rewrite T, F. unfold js_or, name_of. rewrite N. reflexivity. }
  assert (P3 : truthy (get a variant) = false ->
               truthy (name_of (get a framework)) = false ->
               effective_template a = argTemplate).
  { intros T N. unfold effective_template. unfold js_or at 1. rewrite T.
    unfold js_or. rewrite N. reflexivity. }
  split; [exact P1|]. split; [exact P2|]. split; [exact P3|].
  split; [|split; [|split]].
  - intros v E N. rewrite P1; [exact E|]. rewrite E.
    destruct v; [contradiction|reflexivity].
  - intros E f F Hin. apply P2; [rewrite E; reflexivity|exact F|].
    apply (@layout_name_truthy f Hin).
  - intros E F. apply P3; [rewrite E|rewrite F]; reflexivity.
  - intros script s targetDir H.
    destruct (prompts_invariant cancellation from_catalog (questions s))
      with (script := script) (targetDir := or_default argTargetDir)
           (prev := VUndefined) (a := @nil (jsstring * value))
           (a' := a) (targetDir' := targetDir)
      as (prev' & Hv & Hf & _).
    + intros. eapply questions_from_catalog; eauto.
    + split; [left; reflexivity|]. split; [left; reflexivity|].
      intros f Hx. discriminate.
    + exact H.
    + destruct Hv as [Hv|(v & Hv & Hin)].
      * right. destruct Hf as [Hf|(f & Hf & Hin)].
        -- right. split; [exact Hv|]. split; [exact Hf|].
           apply P3; [rewrite Hv|rewrite Hf]; reflexivity.
        -- left. split; [exact Hv|]. exists f. split; [exact Hf|].
           split; [exact Hin|].
           apply P2; [rewrite Hv; reflexivity|exact Hf|].
           apply (@layout_name_truthy f Hin).
      * left. exists v. split; [exact Hv|]. split; [exact Hin|].
        rewrite P1; [exact Hv|]. rewrite Hv.
        apply (@template_truthy v Hin).
Qed.

End Program.

(** ** A run *)

(** Colours switched off, as when the output is no terminal. *)
Definition plain_text (s : jsstring) : jsstring := s.

Definition no_message (e : exn) : jsstring := [].

Definition example_manifest : jsstring :=
  Json.json_text "{'name':'template','private':true,'scripts':{'dev':'vite'}}".

(** A working directory [/work] with a directory [demo] that is not
    empty, and the program in [/tool] with one template. *)
Definition example_files : fs :=
  Dir [(str "work",
        Dir [(str "demo", Dir [(str "old.txt", File (str "x"));
                               (dot_git, Dir [])])]);
       (str "tool",
        Dir [(str "packages",
              Dir [(str "template-html-css",
                    Dir [(package_json, File example_manifest);
                         (str "_gitignore", File (str "node_modules"));
                         (str "index.html", File (str "<html>"))])])])].

Definition example_world : world :=
  {| files := example_files; console := []; calls := [] |}.

(** [create demo --template html-css], run from [/work]. *)
Definition example_env : env :=
  {| argv_ := [str "demo"];
     argv_template := VString (str "html-css");
     argv_t := VUndefined;
     cwd := [str "work"];
     program_dir := [str "tool"];
     npm_config_user_agent := Some (str "pnpm/8.0.0 node/v18.0.0") |}.

(** No arguments, run from [/work]. *)
Definition bare_env : env :=
  {| argv_ := [];
     argv_template := VUndefined;
     argv_t := VUndefined;
     cwd := [str "work"];
     program_dir := [str "tool"];
     npm_config_user_agent := None |}.

Definition example_init
  : nat -> list response -> world -> option (status * world) :=
  init toLowerCase_ascii_strings Json.token_number_of_token
    Json.token_of_token_number plain_text plain_text plain_text plain_text
    plain_text no_message example_env.

Definition example_ask (e : env) : list response -> fs -> outcome :=
  ask toLowerCase_ascii_strings plain_text plain_text plain_text plain_text
    plain_text e.

(** Answering yes: the directory is emptied but for [.git] and the
    template is written into it. *)
Example example_run :
  example_init 1 [YesNo true] example_world =
  Some (Returned,
   {| files :=
        Dir [(str "work",
              Dir [(str "demo",
                    Dir [(dot_git, Dir []);
                         (str ".gitignore", File (str "node_modules"));
                         (str "index.html", File (str "<html>"));
                         (package_json,
                          File (Json.JSON_stringify Json.token_of_token_number
                                  (Json.JObject
                                     [(str "name", Json.JString (str "demo"));
                                      (str "private", Json.JBool true);
                                      (str "scripts",
                                       Json.JObject
                                         [(str "dev", Json.JString (str "vite"))])])
                                ++ [10%N]))])]);
             (str "tool",
              Dir [(str "packages",
                    Dir [(str "template-html-css",
                          Dir [(package_json, File example_manifest);
                               (str "_gitignore", File (str "node_modules"));
                               (str "index.html", File (str "<html>"))])])])];
      console :=
        [[10%N] ++ str "Scaffolding project in /work/demo...";
         [10%N] ++ str "Done. Now run:" ++ [10%N];
         str "  cd demo"; str "  pnpm install"; str "  pnpm run dev"];
      calls :=
        [EmptyDir [str "work"; str "demo"];
         Copy [str "tool"; str "packages"; str "template-html-css"; str "_gitignore"]
              [str "work"; str "demo"; str ".gitignore"];
         Copy [str "tool"; str "packages"; str "template-html-css"; str "index.html"]
              [str "work"; str "demo"; str "index.html"];
         WriteFileSync [str "work"; str "demo"; package_json]] |}).
Proof. vm_compute. reflexivity. Qed.

Lemma cancellation_touches_nothing_witness :
  example_init 0 [YesNo false] example_world =
    Some (Returned,
          {| files := example_files;
             console := [[10006%N] ++ str " Operation cancelled!"];
             calls := [] |}) /\
  example_init 0 [Abort] example_world =
    Some (Returned,
          {| files := example_files;
             console := [[10006%N] ++ str " Operation cancelled!"];
             calls := [] |}).
Proof.
  split.
  - refine (proj2 (cancellation_touches_nothing toLowerCase_ascii_strings
                     Json.token_number_of_token Json.token_of_token_number
                     plain_text plain_text plain_text plain_text plain_text
                     no_message example_env 0 [YesNo false] example_world _)).
    eexists. split; [vm_compute; left; reflexivity|].
    right. split; reflexivity.
  - refine (proj2 (cancellation_touches_nothing toLowerCase_ascii_strings
                     Json.token_number_of_token Json.token_of_token_number
                     plain_text plain_text plain_text plain_text plain_text
                     no_message example_env 0 [Abort] example_world _)).
    eexists. split; [vm_compute; left; reflexivity|].
    left. reflexivity.
Defined.

(** A layout without a variant gives its name; a variant goes before the
    layout; and so it is after the questions. *)
Lemma template_priority_witness :
  (exists l,
     layout_name l = str "pug" /\
     effective_template example_env [(framework, VLayout l)] =
       VString (str "pug") /\
     effective_template example_env
       [(framework, VLayout l); (variant, VString (str "html-css"))] =
       VString (str "html-css")) /\
  effective_template example_env [] = VString (str "html-css") /\
  exists a targetDir,
    final (example_ask bare_env
             [Line (str "My App/"); Line (str "my-app"); Pick 1; Pick 1]
             example_files) = Resolved a targetDir /\
    effective_template bare_env a = VString (str "html-css").
Proof.
  split; [|split].
  - destruct (LAYOUTS plain_text plain_text plain_text plain_text)
      as [|l t] eqn:L; [discriminate|].
    assert (Hin : In l (layouts plain_text plain_text plain_text plain_text))
      by (unfold layouts; rewrite L; left; reflexivity).
    assert (Hn : layout_name l = str "pug")
      by (vm_compute in L; inversion L; reflexivity).
    exists l. split; [exact Hn|]. split.
    + rewrite <- Hn.
      destruct (template_priority toLowerCase_ascii_strings plain_text
                  plain_text plain_text plain_text plain_text example_env
                  [(framework, VLayout l)]) as (_ & _ & _ & _ & P & _).
      apply P; [reflexivity|reflexivity|exact Hin].
    + destruct (template_priority toLowerCase_ascii_strings plain_text
                  plain_text plain_text plain_text plain_text example_env
                  [(framework, VLayout l);
                   (variant, VString (str "html-css"))])
        as (_ & _ & _ & P & _).
      apply P; [reflexivity|discriminate].
  - destruct (template_priority toLowerCase_ascii_strings plain_text
                plain_text plain_text plain_text plain_text example_env [])
      as (_ & _ & _ & _ & _ & P & _).
    apply P; reflexivity.
  - destruct (final (example_ask bare_env
                [Line (str "My App/"); Line (str "my-app"); Pick 1; Pick 1]
                example_files)) as [a targetDir| |] eqn:F;
      [|vm_compute in F; discriminate|vm_compute in F; discriminate].
    exists a, targetDir. split; [reflexivity|].
    destruct (template_priority toLowerCase_ascii_strings plain_text
                plain_text plain_text plain_text plain_text bare_env a)
      as (_ & _ & _ & _ & _ & _ & P).
    specialize (P _ _ _ F).
    vm_compute in F. inversion F; subst a targetDir. clear F.
    destruct P as [(v & Hv & _ & ->)|[(Hv & _)|(Hv & _)]];
      [|vm_compute in Hv; discriminate|vm_compute in Hv; discriminate].
    vm_compute in Hv. inversion Hv. reflexivity.
Defined.

End Workflow.

(* ================================================================== *)
(** * More about the names *)
(* ================================================================== *)

Module NameFacts.
Import JsString Regex Names.

(** The code units that occur in an accepted name. *)
Definition name_char (c : N) : bool :=
  is_lower c || is_digit c || chr "-" c || chr "*" c || chr "." c
  || chr "_" c || chr "~" c || chr "@" c || chr "/" c.

Lemma name_char_range c :
  name_char c = true ->
  (97 <= c <= 122 \/ 48 <= c <= 57 \/ c = 45 \/ c = 42 \/ c = 46 \/ c = 95
   \/ c = 126 \/ c = 64 \/ c = 47)%N.
Proof.
  unfold name_char, is_lower, is_digit, between, chr. simpl N_of_ascii.
  intros H. repeat (apply orb_prop in H as [H|H]);
    try (apply andb_prop in H as [H1 H2]; apply N.leb_le in H1, H2; lia);
    apply N.eqb_eq in H; lia.
Qed.

Lemma name_char_plain c :
  name_char c = true -> is_upper c = false /\ is_ws c = false.
Proof.
  intros H. apply name_char_range in H.
  unfold is_upper, is_ws, between.
  split; repeat (destruct H as [H|H]); cmp.
Qed.

Lemma scope_rest_name c : scope_rest c = true -> name_char c = true.
Proof.
  unfold scope_rest, name_char. intros H.
  repeat (apply orb_prop in H as [H|H]); rewrite H;
    repeat rewrite orb_true_r; reflexivity.
Qed.

Lemma scope_first_rest c : scope_first c = true -> scope_rest c = true.
Proof.
  unfold scope_first, scope_rest. intros H.
  repeat (apply orb_prop in H as [H|H]); rewrite H;
    repeat rewrite orb_true_r; reflexivity.
Qed.

Lemma pkg_rest_scope c : pkg_rest c = true -> scope_rest c = true.
Proof.
  unfold pkg_rest, scope_rest. intros H.
  repeat (apply orb_prop in H as [H|H]); rewrite H;
    repeat rewrite orb_true_r; reflexivity.
Qed.

Lemma scope_rest_no_slash c : scope_rest c = true -> c <> 47%N.
Proof.
  unfold scope_rest, is_lower, is_digit, between, chr. simpl N_of_ascii.
  intros H ->. vm_compute in H. discriminate.
Qed.

Lemma segment_all first rest (q : N -> bool) s :
  (forall c, first c = true -> q c = true) ->
  (forall c, rest c = true -> q c = true) ->
  segment first rest s = true -> forallb q s = true.
Proof.
  intros Hf Hr H. apply segment_iff in H as (c & t & -> & Hc & Ht).
  simpl. rewrite (Hf c Hc). simpl. revert Ht. apply forallb_impl. exact Hr.
Qed.

Lemma no_slash_count s :
  forallb scope_rest s = true -> count_occ N.eq_dec s 47%N = 0.
Proof.
  induction s as [|c t IH]; simpl; [reflexivity|].
  intros H. apply andb_prop in H as [Hc Ht].
  destruct (N.eq_dec c 47) as [E|_]; [|apply IH, Ht].
  exfalso. exact (@scope_rest_no_slash c Hc E).
Qed.

(** X1: the pattern of [isValidPackageName] read as a grammar.  A name
    is accepted exactly when it is a package segment (a first code unit
    of [[a-z\d\-~]], then code units of [[a-z\d\-._~]]), or an at sign,
    a scope segment (a first code unit of [[a-z\d\-*~]], then code units
    of [[a-z\d\-*._~]]), a slash and a package segment. *)
Theorem package_name_grammar (s : jsstring) :
  isValidPackageName s = true <->
  segment pkg_first pkg_rest s = true \/
  exists scope pkg,
    s = str "@" ++ scope ++ str "/" ++ pkg /\
    segment scope_first scope_rest scope = true /\
    segment pkg_first pkg_rest pkg = true.
Proof. apply isValidPackageName_iff. Qed.

(** X2: what an accepted name never is or has.  It is not empty, it has
    no upper-case letter and no white space, it does not start with a
    dot or an underscore, it does not end with a slash, and it has at
    most one slash. *)
Theorem accepted_name_shape (s : jsstring) :
  isValidPackageName s = true ->
  s <> [] /\
  (forall c, In c s -> name_char c = true /\ is_upper c = false /\
                       is_ws c = false) /\
  starts_in dot_or_underscore s = false /\
  ends_in is_slash s = false /\
  count_occ N.eq_dec s 47%N <= 1.
Proof.
  intros H.
  assert (Pkg : forall p, segment pkg_first pkg_rest p = true ->
                  p <> [] /\ forallb scope_rest p = true /\
                  starts_in dot_or_underscore p = false).
  { intros p Hp. split; [destruct p; [discriminate|discriminate]|]. split.
    - revert Hp. apply segment_all; intros c Hc; apply pkg_rest_scope;
        [apply pkg_first_rest|]; exact Hc.
    - apply segment_iff in Hp as (c & t & -> & Hc & _). simpl.
      apply pkg_first_plain in Hc. apply Hc. }
  assert (Chars : forall l, forallb scope_rest l = true ->
                    forall c, In c l -> name_char c = true).
  { intros l Hl c Hc. rewrite forallb_forall in Hl.
    apply scope_rest_name, Hl, Hc. }
  assert (Ends : forall l, l <> [] -> forallb scope_rest l = true ->
                   ends_in is_slash l = false).
  { intros l Hne Hl. destruct (ends_in is_slash l) eqn:E; [|reflexivity].
    apply ends_in_exists in E as (c & Hc & Hs). apply is_slash_eq in Hs.
    rewrite forallb_forall in Hl. exfalso.
    exact (@scope_rest_no_slash c (Hl c Hc) Hs). }
  assert (Shape : forall c, name_char c = true ->
                    name_char c = true /\ is_upper c = false /\ is_ws c = false).
  { intros c Hc. split; [exact Hc|apply name_char_plain, Hc]. }
  apply isValidPackageName_iff in H as [H|(sc & p & -> & Hsc & Hp)].
  - destruct (Pkg s H) as (Hne & Hall & Hst).
    split; [exact Hne|]. split; [intros c Hc; apply Shape; eauto|].
    split; [exact Hst|]. split; [apply Ends; assumption|].
    rewrite (no_slash_count _ Hall). lia.
  - destruct (Pkg p Hp) as (Hne & Hall & _).
    assert (Hscall : forallb scope_rest sc = true).
    { revert Hsc. apply segment_all; auto. apply scope_first_rest. }
    split; [discriminate|]. split; [|split; [reflexivity|split]].
    + intros c [<-|Hc]; [apply Shape; reflexivity|].
      apply in_app_or in Hc as [Hc|[<-|Hc]]; apply Shape; eauto.
    + assert (E : forall a b, b <> [] ->
                    ends_in is_slash (a ++ b) = ends_in is_slash b).
      { clear. induction a as [|x a IH]; intros b Hb; [reflexivity|].
        simpl. destruct (a ++ b) eqn:Eab.
        - apply app_eq_nil in Eab as [_ ->]. contradiction.
        - rewrite <- Eab. apply IH, Hb. }
      replace (64%N :: sc ++ 47%N :: p) with ((64%N :: sc ++ [47%N]) ++ p)
        by (simpl; rewrite <- app_assoc; reflexivity).
      rewrite (E _ p Hne). apply Ends; assumption.
    + rewrite (count_occ_app N.eq_dec [64%N] (sc ++ 47%N :: p)).
      rewrite (count_occ_app N.eq_dec sc (47%N :: p)).
      rewrite (no_slash_count _ Hscall). simpl.
      rewrite (no_slash_count _ Hall). lia.
Qed.

Lemma accepted_name_shape_witness :
  count_occ N.eq_dec (str "@scope/pkg-name") 47%N <= 1.
Proof. apply (accepted_name_shape (str "@scope/pkg-name")). reflexivity. Defined.

Section Sanitizing.

Variable toLowerCase : jsstring -> jsstring.

(** X3: a sanitized name consists of code units of [[a-z\d\-~]] only,
    whatever the input and whatever the lower-casing does; it is an
    accepted package name exactly when it is not empty. *)
Theorem sanitized_valid_unless_empty (s : jsstring) :
  forallb pkg_first (toValidPackageName toLowerCase s) = true /\
  (isValidPackageName (toValidPackageName toLowerCase s) = true <->
   toValidPackageName toLowerCase s <> []).
Proof.
  pose proof (toValidPackageName_class toLowerCase s) as C.
  split; [exact C|]. split.
  - intros H E. rewrite E in H. discriminate.
  - intros Hne. apply isValidPackageName_iff. left.
    destruct (toValidPackageName toLowerCase s) as [|c t]; [contradiction|].
    simpl in *. apply andb_prop in C as [Hc Ht]. rewrite Hc. simpl.
    revert Ht. apply forallb_impl. apply pkg_first_rest.
Qed.

Hypothesis toLowerCase_ascii :
  forall s, forallb is_ascii s = true -> toLowerCase s = map lower_ascii s.

(** X4: a name that consists of code units of [[a-z\d\-~]] only is left
    as it is by [toValidPackageName]; in particular an accepted name
    without scope, dot and underscore is. *)
Theorem sanitizing_keeps_clean_names (s : jsstring) :
  forallb pkg_first s = true ->
  toValidPackageName toLowerCase s = s /\
  (s <> [] -> isValidPackageName (toValidPackageName toLowerCase s) = true).
Proof.
  intros H.
  rewrite (toValidPackageName_fixed toLowerCase toLowerCase_ascii s H).
  split; [reflexivity|]. intros Hne. apply isValidPackageName_iff. left.
  destruct s as [|c t]; [contradiction|]. simpl in *.
  apply andb_prop in H as [Hc Ht]. rewrite Hc. simpl.
  revert Ht. apply forallb_impl. apply pkg_first_rest.
Qed.

End Sanitizing.

Lemma sanitizing_keeps_clean_names_witness :
  toValidPackageName toLowerCase_ascii_strings (str "my-app~2") = str "my-app~2".
Proof.
  apply (sanitizing_keeps_clean_names toLowerCase_ascii_strings
           toLowerCase_ascii_strings_ok (str "my-app~2")).
  reflexivity.
Defined.

End NameFacts.

(* ================================================================== *)
(** * More about the directory helpers *)
(* ================================================================== *)

Module FsFacts.
Import JsString Exn Fs.

Lemma filter_twice (A : Type) (p : A -> bool) l :
  filter p (filter p l) = filter p l.
Proof.
  induction l as [|x l IH]; simpl; [reflexivity|].
  destruct (p x) eqn:E; simpl; [rewrite E, IH|rewrite IH]; reflexivity.
Qed.

(** Among entries with distinct names at most one is called [".git"]. *)
Lemma one_git es :
  NoDup (map fst es) ->
  map fst (filter is_git es) = [] \/ map fst (filter is_git es) = [dot_git].
Proof.
  induction es as [|[k v] t IH]; simpl; [auto|].
  intros N. inversion N as [|? ? Hk Nt]; subst.
  change (is_git (k, v)) with (eqs k dot_git). destruct (eqs k dot_git) eqn:E.
  - apply eqs_eq in E. subst k. right. simpl. f_equal.
    destruct (filter is_git t) as [|[k' v'] r] eqn:F; [reflexivity|].
    exfalso. apply Hk.
    assert (I : In (k', v') (filter is_git t)) by (rewrite F; left; reflexivity).
    apply filter_In in I as [I G]. unfold is_git in G. simpl in G.
    apply eqs_eq in G. subst k'. apply (in_map fst) in I. exact I.
  - apply IH, Nt.
Qed.

(** A path runs through a regular file exactly when a prefix of it, not
    all of it, is one. *)
Lemma through_file_prefix p : forall s,
  through_file s p = true <->
  exists pre rest content,
    rest <> [] /\ p = pre ++ rest /\ lookup s pre = Some (File content).
Proof.
  induction p as [|name p' IH]; intros s.
  - split; [discriminate|]. intros (pre & rest & c & Hr & E & _).
    symmetry in E. apply app_eq_nil in E as [_ E]. contradiction.
  - cbn [through_file]. destruct s as [c|es].
    + split; [|reflexivity]. intros _. exists [], (name :: p'), c.
      split; [discriminate|]. split; reflexivity.
    + destruct (find name es) as [child|] eqn:F.
      * rewrite IH. split.
        -- intros (pre & rest & c & Hr & -> & L). exists (name :: pre), rest, c.
           split; [exact Hr|]. split; [reflexivity|]. simpl. rewrite F.
           exact L.
        -- intros (pre & rest & c & Hr & E & L). destruct pre as [|k pre].
           ++ discriminate.
           ++ simpl in E. inversion E; subst. simpl in L. rewrite F in L.
              exists pre, rest, c. auto.
      * split; [discriminate|]. intros (pre & rest & c & Hr & E & L).
        destruct pre as [|k pre]; [discriminate|].
        simpl in E. inversion E; subst. simpl in L. rewrite F in L.
        discriminate.
Qed.

(** X5: [isEmpty] throws exactly when the path is or runs through a
    regular file, and then ENOTDIR, or when no part of the path is a
    regular file and the path leads nowhere, and then ENOENT.  The error
    is the one of [readdirSync] and carries the path. *)
Theorem isEmpty_throws (s : fs) (p : path) (e : exn) :
  isEmpty s p = Throw e <->
  (e = SystemError ENOTDIR p /\
   exists pre rest content,
     p = pre ++ rest /\ lookup s pre = Some (File content)) \/
  (e = SystemError ENOENT p /\ lookup s p = None /\
   forall pre rest content,
     p = pre ++ rest -> lookup s pre <> Some (File content)).
Proof.
  assert (Below : forall pre rest c,
            lookup s pre = Some (File c) ->
            lookup s (pre ++ rest) =
              match rest with [] => Some (File c) | _ :: _ => None end).
  { intros pre rest c L. rewrite lookup_app, L. destruct rest; reflexivity. }
  unfold isEmpty, readdirSync.
  destruct (lookup s p) as [[c|es]|] eqn:L; cbn [bind].
  - split.
    + intros H. inversion H. left. split; [reflexivity|].
      exists p, [], c. rewrite app_nil_r. auto.
    + intros [[-> _]|(_ & H & _)]; [reflexivity|discriminate].
  - split; [discriminate|].
    intros [(_ & pre & rest & c & -> & Lp)|(_ & H & _)]; [|discriminate].
    rewrite (Below _ rest _ Lp) in L. destruct rest; discriminate.
  - unfold nothing_at. destruct (through_file s p) eqn:T.
    + apply through_file_prefix in T as (pre & rest & c & Hr & E & Lp).
      split.
      * intros H. inversion H. left. split; [reflexivity|].
        exists pre, rest, c. auto.
      * intros [[-> _]|(_ & _ & N)]; [reflexivity|].
        exfalso. exact (N pre rest c E Lp).
    + split.
      * intros H. inversion H. right. split; [reflexivity|].
        split; [reflexivity|]. intros pre rest c E Lp.
        destruct rest as [|x r].
        -- rewrite app_nil_r in E. subst pre. congruence.
        -- assert (T' : through_file s p = true).
           { apply through_file_prefix. exists pre, (x :: r), c.
             split; [discriminate|]. auto. }
           congruence.
      * intros [(_ & pre & rest & c & E & Lp)|[-> _]]; [|reflexivity].
        exfalso. destruct rest as [|x r].
        -- rewrite app_nil_r in E. subst pre. congruence.
        -- assert (T' : through_file s p = true).
           { apply through_file_prefix. exists pre, (x :: r), c.
             split; [discriminate|]. auto. }
           congruence.
Qed.

Lemma isEmpty_throws_witness :
  let s := Dir [(str "demo", File (str "x"))] in
  isEmpty s [str "demo"; str "sub"] =
    Throw (SystemError ENOTDIR [str "demo"; str "sub"]) /\
  isEmpty s [str "other"; str "sub"] =
    Throw (SystemError ENOENT [str "other"; str "sub"]).
Proof.
  intros s. split.
  - apply (proj2 (isEmpty_throws s [str "demo"; str "sub"] _)). left.
    split; [reflexivity|]. exists [str "demo"], [str "sub"], (str "x").
    split; reflexivity.
  - apply (proj2 (isEmpty_throws s [str "other"; str "sub"] _)). right.
    split; [reflexivity|]. split; [reflexivity|].
    intros pre rest c E L. destruct pre as [|a [|b [|? ?]]];
      simpl in E; inversion E; subst; vm_compute in L; discriminate.
Defined.

(** X6: [emptyDir] throws exactly when the path names a regular file:
    [existsSync] is true there and [readdirSync] raises ENOTDIR.  In
    every other case it returns, and the path exists afterwards exactly
    when it existed before: [emptyDir] neither creates nor removes the
    directory itself. *)
Theorem emptyDir_throws (dir : path) (s : fs) :
  (forall e, emptyDir dir s = Throw e <->
             exists content, lookup s dir = Some (File content) /\
                             e = SystemError ENOTDIR dir) /\
  (forall s', emptyDir dir s = Ok s' ->
              existsSync s' dir = existsSync s dir).
Proof.
  destruct (lookup s dir) as [[c|es]|] eqn:L.
  - assert (E : emptyDir dir s = Throw (SystemError ENOTDIR dir)).
    { unfold emptyDir, existsSync, readdirSync. rewrite L. reflexivity. }
    rewrite E. split.
    + intros e. split.
      * intros H. inversion H. eauto.
      * intros (c' & _ & ->). reflexivity.
    + discriminate.
  - rewrite (emptyDir_directory _ _ L). split.
    + intros e. split; [discriminate|]. intros (c' & H & _). discriminate.
    + intros s' H. inversion H. unfold existsSync.
      rewrite (lookup_put _ _ _ L), L. reflexivity.
  - assert (E : emptyDir dir s = Ok s).
    { unfold emptyDir, existsSync. rewrite L. reflexivity. }
    rewrite E. split.
    + intros e. split; [discriminate|]. intros (c' & H & _). discriminate.
    + intros s' H. inversion H. reflexivity.
Qed.

(** X7: [emptyDir] is idempotent: emptying what it returned changes
    nothing more. *)
Theorem emptyDir_idempotent (dir : path) (s s' : fs) :
  emptyDir dir s = Ok s' -> emptyDir dir s' = Ok s'.
Proof.
  destruct (lookup s dir) as [[c|es]|] eqn:L.
  - unfold emptyDir, existsSync, readdirSync. rewrite L. discriminate.
  - rewrite (emptyDir_directory _ _ L). intros H. inversion H as [E].
    rewrite (emptyDir_directory dir _ (lookup_put _ _ _ L)).
    rewrite put_put, filter_twice. reflexivity.
  - unfold emptyDir at 1. unfold existsSync. rewrite L. simpl.
    intros H. inversion H. subst s'.
    unfold emptyDir, existsSync. rewrite L. reflexivity.
Qed.

Lemma emptyDir_idempotent_witness :
  let s := Dir [(str "demo", Dir [(str "a.txt", File []); (dot_git, Dir [])])] in
  let s' := Dir [(str "demo", Dir [(dot_git, Dir [])])] in
  emptyDir [str "demo"] s' = Ok s'.
Proof.
  intros s s'. apply (@emptyDir_idempotent [str "demo"] s s'). reflexivity.
Defined.

(** X8: a directory whose entries have distinct names is empty in the
    sense of [isEmpty] once [emptyDir] has run on it. *)
Theorem emptyDir_then_isEmpty (dir : path) (s : fs)
    (es : list (jsstring * node)) :
  lookup s dir = Some (Dir es) ->
  NoDup (map fst es) ->
  exists s', emptyDir dir s = Ok s' /\ isEmpty s' dir = Ok true.
Proof.
  intros L N. eexists. split; [apply emptyDir_directory, L|].
  unfold isEmpty, readdirSync. rewrite (lookup_put _ _ _ L). simpl.
  destruct (one_git es N) as [E|E]; rewrite E; reflexivity.
Qed.

Lemma emptyDir_then_isEmpty_witness :
  let s := Dir [(str "demo", Dir [(str "a.txt", File []); (dot_git, Dir []);
                                  (str "src", Dir [(str "b", File [])])])] in
  exists s', emptyDir [str "demo"] s = Ok s' /\ isEmpty s' [str "demo"] = Ok true.
Proof.
  intros s. apply (@emptyDir_then_isEmpty [str "demo"] s _ eq_refl).
  simpl. repeat constructor; simpl; intuition discriminate.
Defined.

End FsFacts.

(* ================================================================== *)
(** * The package manager named by the user agent *)
(* ================================================================== *)

Module UserAgent.
Import JsString Paths Workflow.

(** No code unit of [s] is [sep]. *)
Definition free_of (sep : N) (s : jsstring) : bool :=
  forallb (fun c => negb (c =? sep)%N) s.

Lemma split_on_cons sep c t :
  split_on sep (c :: t) =
  if (c =? sep)%N then [] :: split_on sep t
  else match split_on sep t with
       | h :: r => (c :: h) :: r
       | [] => [[c]]
       end.
Proof. reflexivity. Qed.

Lemma split_on_some sep s : exists h r, split_on sep s = h :: r.
Proof.
  induction s as [|c t (h & r & E)]; [exists [], []; reflexivity|].
  rewrite split_on_cons, E. destruct (c =? sep)%N; eauto.
Qed.

(** A string without separator is one piece. *)
Lemma split_on_free sep s : free_of sep s = true -> split_on sep s = [s].
Proof.
  induction s as [|c t IH]; [reflexivity|]. unfold free_of. cbn [forallb].
  intros H. apply andb_prop in H as [Hc Ht].
  rewrite split_on_cons, (IH Ht).
  destruct (c =? sep)%N; [discriminate|reflexivity].
Qed.

(** The first piece ends at the first separator. *)
Lemma split_on_app sep a b :
  free_of sep a = true ->
  split_on sep (a ++ sep :: b) = a :: split_on sep b.
Proof.
  induction a as [|c t IH]; intros H.
  - simpl app. rewrite split_on_cons, N.eqb_refl. reflexivity.
  - unfold free_of in H. cbn [forallb] in H. apply andb_prop in H as [Hc Ht].
    change ((c :: t) ++ sep :: b) with (c :: (t ++ sep :: b)).
    rewrite split_on_cons, (IH Ht).
    destruct (c =? sep)%N; [discriminate|reflexivity].
Qed.

(** The first piece is the longest prefix without separator. *)
Lemma split_on_head sep s :
  exists rest,
    s = hd [] (split_on sep s) ++ rest /\
    free_of sep (hd [] (split_on sep s)) = true /\
    (rest = [] \/ exists r, rest = sep :: r).
Proof.
  induction s as [|c t (rest & E & F & R)].
  - exists []. simpl. auto.
  - rewrite split_on_cons. destruct (c =? sep)%N eqn:C.
    + apply N.eqb_eq in C. subst c. exists (sep :: t). simpl. eauto.
    + destruct (split_on_some sep t) as (h & r & S). rewrite S in *.
      simpl in *. exists rest. rewrite <- E. split; [reflexivity|].
      unfold free_of in *. cbn [forallb]. rewrite C, F. auto.
Qed.

Lemma free_of_app sep a b :
  free_of sep (a ++ b) = free_of sep a && free_of sep b.
Proof. apply forallb_app. Qed.

(** X9: how [pkgFromUserAgent] reads the usual forms of the user agent.
    From a first word [name/version], where neither part has a space or
    a slash, it takes both parts, whatever follows the word; from a
    first word without slash it takes the word as the name and no
    version.  The name is the text [init] compares with [yarn]. *)
Theorem pkgFromUserAgent_reads (name version tail : jsstring) :
  free_of 32 name = true -> free_of 47 name = true ->
  free_of 32 version = true -> free_of 47 version = true ->
  tail = [] \/ (exists r, tail = 32%N :: r) ->
  pkgFromUserAgent (Some (name ++ str "/" ++ version ++ tail)) =
    Some {| pkg_name := name; pkg_version := Some version |} /\
  (name <> [] ->
   pkgFromUserAgent (Some (name ++ tail)) =
     Some {| pkg_name := name; pkg_version := None |}).
Proof.
  intros Hn32 Hn47 Hv32 Hv47 Ht.
  assert (W : forall word, free_of 32 word = true ->
                hd [] (split_on 32 (word ++ tail)) = word).
  { intros word Hw. destruct Ht as [->|(r & ->)].
    - rewrite app_nil_r, (split_on_free _ _ Hw). reflexivity.
    - rewrite (split_on_app _ _ _ Hw). reflexivity. }
  split.
  - unfold pkgFromUserAgent.
    replace (is_nil (name ++ str "/" ++ version ++ tail)) with false
      by (destruct name; reflexivity).
    replace (name ++ str "/" ++ version ++ tail)
      with ((name ++ str "/" ++ version) ++ tail)
      by (rewrite <- !app_assoc; reflexivity).
    rewrite W.
    + change (str "/" ++ version) with (47%N :: version).
      rewrite (split_on_app _ _ _ Hn47), (split_on_free _ _ Hv47). reflexivity.
    + rewrite free_of_app, Hn32. simpl. exact Hv32.
  - intros Hne. unfold pkgFromUserAgent.
    replace (is_nil (name ++ tail)) with false
      by (destruct name; [contradiction|reflexivity]).
    rewrite (W _ Hn32), (split_on_free _ _ Hn47). reflexivity.
Qed.

Lemma pkgFromUserAgent_reads_witness :
  pkgFromUserAgent (Some (str "pnpm/9.1.0 npm/? node/v20.11.1 linux x64")) =
    Some {| pkg_name := str "pnpm"; pkg_version := Some (str "9.1.0") |}.
Proof.
  apply (@pkgFromUserAgent_reads (str "pnpm") (str "9.1.0")
           (str " npm/? node/v20.11.1 linux x64"));
    try reflexivity.
  right. eexists. reflexivity.
Defined.

(** X10: [pkgFromUserAgent] gives nothing exactly for an absent or empty
    user agent.  Otherwise the name it gives is the longest prefix of the
    user agent that has neither a space nor a slash (possibly the empty
    string), so that what [init] prints as the package manager never
    contains either. *)
Theorem pkgFromUserAgent_name (userAgent : option jsstring) :
  (pkgFromUserAgent userAgent = None <->
   userAgent = None \/ userAgent = Some []) /\
  (forall info, pkgFromUserAgent userAgent = Some info ->
     exists u rest,
       userAgent = Some u /\ u = pkg_name info ++ rest /\
       free_of 32 (pkg_name info) = true /\
       free_of 47 (pkg_name info) = true /\
       (rest = [] \/ exists c r, rest = c :: r /\ (c = 32 \/ c = 47)%N)).
Proof.
  destruct userAgent as [[|c t]|].
  - split; [split; auto|discriminate].
  - unfold pkgFromUserAgent. cbn [is_nil]. split.
    { split; [discriminate|]. intros [H|H]; discriminate. }
    set (u := c :: t). intros info H.
    assert (E : pkg_name info = hd [] (split_on 47 (hd [] (split_on 32 u))))
      by (injection H as <-; reflexivity).
    rewrite E. clear H E.
    destruct (split_on_head 32 u) as (r1 & E1 & F1 & R1).
    destruct (split_on_head 47 (hd [] (split_on 32 u))) as (r2 & E2 & F2 & R2).
    set (word := hd [] (split_on 32 u)) in *.
    set (name := hd [] (split_on 47 word)) in *.
    exists u, (r2 ++ r1). split; [reflexivity|].
    split; [rewrite app_assoc, <- E2; exact E1|].
    rewrite E2, free_of_app in F1. apply andb_prop in F1 as [F1 _].
    split; [exact F1|]. split; [exact F2|].
    destruct R2 as [->|(r & ->)].
    + destruct R1 as [->|(r & ->)]; [left; reflexivity|].
      right. exists 32%N, r. auto.
    + right. exists 47%N, (r ++ r1). auto.
  - split; [split; auto|discriminate].
Qed.

End UserAgent.

(* ================================================================== *)
(** * More about the rewriting of the manifest *)
(* ================================================================== *)

Module ManifestFacts.
Import JsString Exn Json.

Section Numbers.

Variable number : Type.
Variable number_of_token : jsstring -> number.
Variable token_of_number : number -> option jsstring.

Local Abbreviation json := (Json.json number).
Local Abbreviation parse_text := (Json.parse_text number_of_token).
Local Abbreviation JSON_parse := (Json.JSON_parse number_of_token).
Local Abbreviation JSON_stringify := (Json.JSON_stringify token_of_number).
Local Abbreviation rewrite_manifest :=
  (Json.rewrite_manifest number_of_token token_of_number).
Local Abbreviation numbers_faithful :=
  (Json.numbers_faithful number_of_token token_of_number).

Lemma set_value_twice k (v1 v2 : json) props :
  set_value k v2 (set_value k v1 props) = set_value k v2 props.
Proof.
  induction props as [|[k' v'] t IH]; simpl; [reflexivity|].
  destruct (eqs k' k) eqn:E; simpl; rewrite E; [reflexivity|].
  rewrite IH. reflexivity.
Qed.

Lemma has_key_set_value k (v : json) props :
  has_key k (set_value k v props) = has_key k props.
Proof.
  induction props as [|[k' v'] t IH]; simpl; [reflexivity|].
  destruct (eqs k' k) eqn:E; simpl; rewrite E; [reflexivity|exact IH].
Qed.

Lemma has_key_app k (a b : list (jsstring * json)) :
  has_key k (a ++ b) = has_key k a || has_key k b.
Proof.
  induction a as [|[k' v'] t IH]; simpl; [reflexivity|].
  rewrite IH. apply orb_assoc.
Qed.

Lemma set_value_last k (v1 v2 : json) props :
  has_key k props = false ->
  set_value k v2 (props ++ [(k, v1)]) = props ++ [(k, v2)].
Proof.
  induction props as [|[k' v'] t IH]; simpl.
  - rewrite eqs_refl. reflexivity.
  - destruct (eqs k' k); simpl; [discriminate|].
    intros H. rewrite (IH H). reflexivity.
Qed.

(** Assigning the name twice is assigning the second name. *)
Lemma define_name_twice props s1 s2 :
  define_property (define_property props key_name (JString s1))
    key_name (JString s2) =
  define_property (number := number) props key_name (JString s2).
Proof.
  unfold define_property. rewrite key_name_no_index.
  destruct (has_key key_name props) eqn:H.
  - rewrite has_key_set_value, H. apply set_value_twice.
  - rewrite has_key_app, H. cbn [has_key orb]. rewrite eqs_refl.
    apply set_value_last, H.
Qed.

(** X12: the last name wins.  When the manifest has been rewritten, and
    its numbers are written as tokens that are read back as the same
    numbers, rewriting the text written with another name gives what
    rewriting the original with that name gives; with the same name it
    gives the text written again. *)
Theorem rewrite_manifest_again (text name out other : jsstring) (t : json) :
  parse_text text = Some t ->
  numbers_faithful t ->
  rewrite_manifest text name = Ok out ->
  rewrite_manifest out other = rewrite_manifest text other /\
  rewrite_manifest out name = Ok out.
Proof.
  intros P F R.
  assert (G : forall other,
            rewrite_manifest out other = rewrite_manifest text other).
  { clear other. intros other. revert R.
    unfold Json.rewrite_manifest, Json.JSON_parse. rewrite P. cbn [bind].
    pose proof (internal_internalize number_of_token token_of_number t) as I.
    pose proof (faithful_internalize number_of_token token_of_number t F) as N.
    destruct (internalize t) as [| | | |vs|props]; try discriminate;
      cbn [assign_name bind]; intros R; inversion R as [E]; clear R.
    - rewrite (parse_text_stringify number_of_token token_of_number _ N).
      cbn [bind]. rewrite (internalize_internal number_of_token token_of_number _ I). reflexivity.
    - pose proof (faithful_define_name number_of_token token_of_number
                    props name N) as N'.
      pose proof (internal_define_name number_of_token token_of_number name I) as I'.
      rewrite (parse_text_stringify number_of_token token_of_number _ N').
      cbn [bind]. rewrite (internalize_internal number_of_token token_of_number _ I'). cbn [assign_name bind].
      rewrite define_name_twice. reflexivity. }
  split; [apply G|]. rewrite G. exact R.
Qed.

End Numbers.

Lemma rewrite_manifest_again_witness :
  let text := json_text "{'name':'t','port':3000}" in
  let out := json_text "{
  'name': 'demo',
  'port': 3000
}
" in
  rewrite_manifest_tokens out (str "demo") = Ok out.
Proof.
  intros text out.
  apply (@rewrite_manifest_again token_number token_number_of_token
           token_of_token_number text (str "demo") out (str "other")
           (JObject [(str "name", JString (str "t"));
                     (str "port", JNumber (str "3000"))])).
  - vm_compute. reflexivity.
  - simpl. repeat split. exact token_3000_faithful.
  - vm_compute. reflexivity.
Defined.

End ManifestFacts.

(* ================================================================== *)
(** * The walk of a path name *)
(* ================================================================== *)

Module WalkFacts.
Import JsString Exn Fs Paths.

(** Where the walk arrives is where [path.join] puts the name. *)
Lemma walk_enters s segments : forall here p,
  walk s here segments = inr p -> p = fold_left enter segments here.
Proof.
  induction segments as [|x t IH]; intros here p.
  - intros H. inversion H. reflexivity.
  - cbn [walk fold_left]. destruct (lookup s here) as [[c|es]|];
      [discriminate| |discriminate].
    apply IH.
Qed.

Lemma locate_relative s cwd name p :
  locate s cwd name = inr p -> starts_in (chr "/") name = false ->
  p = join cwd name.
Proof.
  unfold locate. destruct (is_nil name); [discriminate|].
  intros H S. rewrite S in H. apply walk_enters in H. exact H.
Qed.




End WalkFacts.

(* ================================================================== *)
(** * More about the questions *)
(* ================================================================== *)

Module RunFacts.
Import JsString Exn Fs Names Paths Catalog Prompts Workflow WalkFacts.

Section Engine.

Variable cancelled : exn.

(** A sequence that resolves has either left its first question out or
    had an answer to it, and has resolved from there. *)
Lemma prompts_resolved_cons q qs script td prev a a' td' :
  final (prompts cancelled (q :: qs) script td prev a) = Resolved a' td' ->
  (q_type q td prev a = Ok None /\
   final (prompts cancelled qs script td prev a) = Resolved a' td') \/
  (exists k v r rest,
     q_type q td prev a = Ok (Some k) /\
     read k (q_initial q td) (q_validate q) (q_choices q prev) script =
       Answered v r rest /\
     final (prompts cancelled qs rest (q_onState q v td) v
              (set a (q_name q) v)) = Resolved a' td').
Proof.
  rewrite prompts_cons.
  destruct (q_type q td prev a) as [[k|]|err]; [|auto|discriminate].
  destruct (read k _ _ _ script) as [|rest|v r rest] eqn:R;
    [discriminate|discriminate|].
  cbn [final]. intros H. right. exists k, v, r, rest. auto.
Qed.

(** What a prompt shows is the message of its question, and the
    question is one whose type was worked out to a prompt. *)
Lemma prompts_shown qs : forall script td prev a x,
  In x (log (prompts cancelled qs script td prev a)) ->
  exists q td' prev' a' k,
    In q qs /\ asked x = q_name q /\ shown x = q_message q td' /\
    q_type q td' prev' a' = Ok (Some k).
Proof.
  induction qs as [|q qs IH]; intros script td prev a x; [intros []|].
  rewrite prompts_cons.
  assert (Later : forall script td prev a,
            In x (log (prompts cancelled qs script td prev a)) ->
            exists q0 td' prev' a' k,
              In q0 (q :: qs) /\ asked x = q_name q0 /\
              shown x = q_message q0 td' /\
              q_type q0 td' prev' a' = Ok (Some k)).
  { intros sc t p an H.
    destruct (IH _ _ _ _ _ H) as (q0 & td' & prev' & a' & k & Hq & E).
    exists q0, td', prev', a', k. split; [right; exact Hq|exact E]. }
  destruct (q_type q td prev a) as [[k|]|err] eqn:T;
    [|apply Later|intros []].
  destruct (read k _ _ _ script) as [|rest|v r rest]; [intros []| |].
  - cbn [log]. intros [<-|[]]. exists q, td, prev, a, k.
    split; [left|]; auto.
  - cbn [log]. intros [<-|H]; [|eapply Later, H].
    exists q, td, prev, a, k. split; [left|]; auto.
Qed.

(** A question whose type always works out to a prompt has been asked
    and answered when the sequence resolves. *)
Lemma prompts_reached q k qs :
  (forall td prev a, q_type q td prev a = Ok (Some k)) ->
  In q qs ->
  forall script td prev a a' td',
    final (prompts cancelled qs script td prev a) = Resolved a' td' ->
    exists x,
      In x (log (prompts cancelled qs script td prev a)) /\
      asked x = q_name q /\ got x <> Abort.
Proof.
  intros T. induction qs as [|q0 qs IH]; intros Hin script td prev a a' td';
    [destruct Hin|].
  rewrite prompts_cons.
  destruct (q_type q0 td prev a) as [[k0|]|err] eqn:T0; [| |discriminate].
  - destruct (read k0 _ _ _ script) as [|rest|v r rest] eqn:R;
      [discriminate|discriminate|].
    cbn [final log]. intros H. destruct Hin as [->|Hin].
    + eexists. split; [left; reflexivity|]. split; [reflexivity|].
      cbn [got]. apply (read_answered _ _ _ _ _ R).
    + destruct (IH Hin _ _ _ _ _ _ H) as (x & Hx & E).
      exists x. split; [right; exact Hx|exact E].
  - intros H. destruct Hin as [->|Hin]; [rewrite T in T0; discriminate|].
    apply (IH Hin _ _ _ _ _ _ H).
Qed.

End Engine.

Section Run.

Variable toLowerCase : jsstring -> jsstring.
Variables cyan green magenta red reset : jsstring -> jsstring.
Variable e : env.

Local Abbreviation layouts := (Workflow.layouts cyan green magenta red).
Local Abbreviation templates := (Workflow.templates cyan green magenta red).
Local Abbreviation cancellation := (Workflow.cancellation red).
Local Abbreviation argTargetDir := (Workflow.argTargetDir e).
Local Abbreviation argTemplate := (Workflow.argTemplate e).
Local Abbreviation getProjectName := (Workflow.getProjectName e).
Local Abbreviation ask_projectName := (Workflow.ask_projectName reset e).
Local Abbreviation ask_overwrite := (Workflow.ask_overwrite e).
Local Abbreviation check_overwrite := (Workflow.check_overwrite red).
Local Abbreviation ask_packageName :=
  (Workflow.ask_packageName toLowerCase reset e).
Local Abbreviation ask_framework :=
  (Workflow.ask_framework cyan green magenta red reset e).
Local Abbreviation ask_variant := (Workflow.ask_variant reset).
Local Abbreviation questions :=
  (Workflow.questions toLowerCase cyan green magenta red reset e).
Local Abbreviation ask :=
  (Workflow.ask toLowerCase cyan green magenta red reset e).
Local Abbreviation effective_template := (Workflow.effective_template e).

Definition is_layout (v : value) : bool :=
  match v with
  | VLayout _ => true
  | _ => false
  end.

(** [argTemplate && TEMPLATES.includes(argTemplate)] *)
Definition template_given : bool :=
  truthy argTemplate && includes templates argTemplate.

(** ** The answers of a run that resolves

    What there is to a run whose questions resolve: the line given as
    the project name when that was asked, whether the overwrite was
    confirmed, the package name given when that was asked, and the
    layout and variant picked when they were asked. *)
Definition put_projectName (pn : option jsstring) (a : answers) : answers :=
  match pn with
  | Some line => set a projectName (VString line)
  | None => a
  end.

Definition put_overwrite (ow : bool) (a : answers) : answers :=
  if ow then set a overwrite (VBool true) else a.

Definition put_packageName (pk : option jsstring) (a : answers) : answers :=
  match pk with
  | Some p => set a packageName (VString p)
  | None => a
  end.

Definition put_template (tp : option (Layout * Variant)) (a : answers)
  : answers :=
  match tp with
  | Some (f, v) =>
      set (set a framework (VLayout f)) variant (VString (variant_name v))
  | None => a
  end.

Definition answers_of (pn : option jsstring) (ow : bool)
    (pk : option jsstring) (tp : option (Layout * Variant)) : answers :=
  put_template tp (put_packageName pk (put_overwrite ow (put_projectName pn []))).

Definition project_answer (td : jsstring) (pn : option jsstring) : Prop :=
  match pn with
  | None => present argTargetDir = true /\ td = or_default argTargetDir
  | Some line =>
      present argTargetDir = false /\
      td = or_default (formatTargetDir (Some line))
  end.

Definition overwrite_answer (s : fs) (td : jsstring) (ow : bool) : Prop :=
  if ow then
    existsSync_at s (cwd e) td = true /\
    at_name isEmpty s (cwd e) td = Ok false
  else
    existsSync_at s (cwd e) td = false \/
    at_name isEmpty s (cwd e) td = Ok true.

Definition package_answer (td : jsstring) (pk : option jsstring) : Prop :=
  match pk with
  | None => isValidPackageName (getProjectName td) = true
  | Some p =>
      isValidPackageName (getProjectName td) = false /\
      isValidPackageName p = true
  end.

Definition template_answer (tp : option (Layout * Variant)) : Prop :=
  match tp with
  | None => template_given = true
  | Some (f, v) =>
      template_given = false /\ In f layouts /\ In v (variants f)
  end.

Lemma from_variant script td prev a a' td' :
  final (prompts cancellation [ask_variant] script td prev a) =
    Resolved a' td' ->
  td' = td /\
  match prev with
  | VLayout f =>
      exists v, In v (variants f) /\
                a' = set a variant (VString (variant_name v))
  | _ => a' = a
  end.
Proof.
  intros H.
  apply prompts_resolved_cons in H as [[T H]|(k & v & r & rest & T & R & H)];
    cbn [prompts final q_onState Workflow.ask_variant] in H;
    inversion H; subst; clear H; (split; [reflexivity|]);
    cbn [q_type Workflow.ask_variant] in T.
  - destruct prev; try discriminate; reflexivity.
  - destruct prev as [| | |f|]; try discriminate. inversion T; subst k.
    apply read_select in R. cbn [q_choices Workflow.ask_variant] in R.
    rewrite map_map in R. cbn [snd] in R.
    apply in_map_iff in R as (x & <- & Hin). exists x. auto.
Qed.

Lemma from_framework script td prev a a' td' :
  final (prompts cancellation [ask_framework; ask_variant] script td prev a) =
    Resolved a' td' ->
  is_layout prev = false ->
  td' = td /\
  exists tp, template_answer tp /\ a' = put_template tp a.
Proof.
  intros H L.
  apply prompts_resolved_cons in H as [[T H]|(k & v & r & rest & T & R & H)];
    cbn [q_type Workflow.ask_framework] in T;
    fold template_given in T; destruct template_given eqn:G;
    try discriminate; apply from_variant in H as [-> H].
  - split; [reflexivity|]. exists None. split; [exact G|].
    destruct prev; try discriminate L; exact H.
  - split; [reflexivity|]. inversion T; subst k.
    apply read_select in R. cbn [q_choices Workflow.ask_framework] in R.
    rewrite map_map in R. cbn [snd] in R.
    apply in_map_iff in R as (f & <- & Hin).
    destruct H as (x & Hx & ->). exists (Some (f, x)).
    split; [split; [exact G|split; assumption]|reflexivity].
Qed.

Lemma from_packageName script td prev a a' td' :
  final (prompts cancellation [ask_packageName; ask_framework; ask_variant]
           script td prev a) = Resolved a' td' ->
  is_layout prev = false ->
  td' = td /\
  exists pk tp,
    package_answer td pk /\ template_answer tp /\
    a' = put_template tp (put_packageName pk a).
Proof.
  intros H L.
  apply prompts_resolved_cons in H as [[T H]|(k & v & r & rest & T & R & H)];
    cbn [q_type Workflow.ask_packageName] in T;
    destruct (isValidPackageName (getProjectName td)) eqn:V;
    try discriminate.
  - apply from_framework in H as (-> & tp & Htp & ->); [|exact L].
    split; [reflexivity|]. exists None, tp. auto.
  - inversion T; subst k.
    apply read_text in R as (p & -> & Hp).
    cbn [q_validate Workflow.ask_packageName] in Hp.
    apply from_framework in H as (-> & tp & Htp & ->); [|reflexivity].
    split; [reflexivity|]. exists (Some p), tp.
    split; [split; assumption|]. split; [exact Htp|reflexivity].
Qed.

Lemma from_check script td prev a a' td' :
  final (prompts cancellation
           [check_overwrite; ask_packageName; ask_framework; ask_variant]
           script td prev a) = Resolved a' td' ->
  is_layout prev = false ->
  get a overwrite <> VBool false /\
  td' = td /\
  exists pk tp,
    package_answer td pk /\ template_answer tp /\
    a' = put_template tp (put_packageName pk a).
Proof.
  intros H L.
  apply prompts_resolved_cons in H as [[T H]|(k & v & r & rest & T & R & H)];
    cbn [q_type Workflow.check_overwrite] in T.
  - split; [|apply (from_packageName _ _ _ _ H L)].
    destruct (get a overwrite) as [| |[|]| |]; discriminate.
  - destruct (get a overwrite) as [| |[|]| |]; discriminate.
Qed.

Lemma from_overwrite s script td prev a a' td' :
  final (prompts cancellation
           [ask_overwrite s; check_overwrite; ask_packageName;
            ask_framework; ask_variant] script td prev a) = Resolved a' td' ->
  is_layout prev = false ->
  get a overwrite = VUndefined ->
  td' = td /\
  exists ow pk tp,
    overwrite_answer s td ow /\ package_answer td pk /\ template_answer tp /\
    a' = put_template tp (put_packageName pk (put_overwrite ow a)).
Proof.
  intros H L U.
  apply prompts_resolved_cons in H as [[T H]|(k & v & r & rest & T & R & H)].
  - apply from_check in H as (_ & -> & pk & tp & Hpk & Htp & ->); [|exact L].
    split; [reflexivity|]. exists false, pk, tp.
    split; [|split; [exact Hpk|split; [exact Htp|reflexivity]]].
    cbn [q_type Workflow.ask_overwrite] in T. unfold overwrite_answer.
    destruct (existsSync_at s (cwd e) td); [|left; reflexivity].
    cbn [negb] in T.
    destruct (at_name isEmpty s (cwd e) td) as [[|]|err];
      try discriminate. right. reflexivity.
  - pose proof (Workflow.ask_overwrite_confirm _ _ _ _ _ T) as ->.
    apply read_confirm in R as (b & -> & _).
    cbn [q_onState q_name Workflow.ask_overwrite] in H.
    apply from_check in H as (C & -> & pk & tp & Hpk & Htp & ->);
      [|reflexivity].
    rewrite get_set_same in C. destruct b; [|contradiction].
    split; [reflexivity|]. exists true, pk, tp.
    split; [|split; [exact Hpk|split; [exact Htp|reflexivity]]].
    cbn [q_type Workflow.ask_overwrite] in T. unfold overwrite_answer.
    destruct (existsSync_at s (cwd e) td); [|discriminate].
    cbn [negb] in T.
    destruct (at_name isEmpty s (cwd e) td) as [[|]|err];
      try discriminate. auto.
Qed.

(** The answers of a run that resolves, and the target directory. *)
Lemma resolved_run script s a td :
  final (ask script s) = Resolved a td ->
  exists pn ow pk tp,
    a = answers_of pn ow pk tp /\
    project_answer td pn /\ overwrite_answer s td ow /\
    package_answer td pk /\ template_answer tp.
Proof.
  unfold Workflow.ask, Workflow.questions. intros H.
  apply prompts_resolved_cons in H as [[T H]|(k & v & r & rest & T & R & H)];
    cbn [q_type Workflow.ask_projectName] in T;
    destruct (present argTargetDir) eqn:P; try discriminate.
  - apply from_overwrite in H
      as (-> & ow & pk & tp & How & Hpk & Htp & ->); try reflexivity.
    exists None, ow, pk, tp. repeat split; assumption.
  - inversion T; subst k. apply read_text in R as (line & -> & _).
    cbn [q_onState q_name Workflow.ask_projectName as_string] in H.
    apply from_overwrite in H
      as (-> & ow & pk & tp & How & Hpk & Htp & ->); try reflexivity.
    exists (Some line), ow, pk, tp. repeat split; assumption.
Qed.

(** What the answers hold under each name. *)
Lemma get_answers_of pn ow pk tp :
  get (answers_of pn ow pk tp) projectName =
    match pn with Some line => VString line | None => VUndefined end /\
  get (answers_of pn ow pk tp) overwrite =
    (if ow then VBool true else VUndefined) /\
  get (answers_of pn ow pk tp) packageName =
    match pk with Some p => VString p | None => VUndefined end /\
  get (answers_of pn ow pk tp) framework =
    match tp with Some (f, _) => VLayout f | None => VUndefined end /\
  get (answers_of pn ow pk tp) variant =
    match tp with
    | Some (_, v) => VString (variant_name v)
    | None => VUndefined
    end.
Proof.
  destruct pn, ow, pk, tp as [[f v]|]; repeat split; reflexivity.
Qed.

Lemma includes_In l v :
  includes l v = true -> exists t, v = VString t /\ In t l.
Proof.
  destruct v as [|t| | |]; try discriminate. simpl. intros H.
  apply existsb_exists in H as (x & Hin & E). apply eqs_eq in E. subst x.
  eauto.
Qed.

(** X13: the name that [init] assigns to the manifest of a run whose
    questions resolved, [packageName || getProjectName()], is always an
    accepted package name: either the project name is one and the
    package name was not asked, or the package name was asked and the
    prompt took nothing but an accepted name. *)
Theorem written_name_is_valid (script : list response) (s : fs)
    (a : answers) (targetDir : jsstring) :
  final (ask script s) = Resolved a targetDir ->
  isValidPackageName
    (Json.manifest_name (as_string (get a packageName))
       (getProjectName targetDir)) = true /\
  (isValidPackageName (getProjectName targetDir) = true ->
   get a packageName = VUndefined).
Proof.
  intros H.
  apply resolved_run in H as (pn & ow & pk & tp & -> & _ & _ & Hpk & _).
  destruct (get_answers_of pn ow pk tp) as (_ & _ & -> & _).
  destruct pk as [p|]; cbn [package_answer] in Hpk.
  - destruct Hpk as [Hn Hp]. split; [|congruence].
    cbn [as_string Json.manifest_name].
    destruct p; [discriminate|exact Hp].
  - split; [exact Hpk|reflexivity].
Qed.

(** X14: in a run whose questions resolved the template is always one of
    [TEMPLATES]: the variant picked, or, when the framework question was
    left out, the template of the command line, which then is one of
    them.  The name of a layout is never the template, since a layout
    picked is followed by the variant question. *)
Theorem template_is_known (script : list response) (s : fs)
    (a : answers) (targetDir : jsstring) :
  final (ask script s) = Resolved a targetDir ->
  exists t,
    effective_template a = VString t /\ In t templates /\
    ((exists f, get a framework = VLayout f /\ In f layouts /\
                get a variant = VString t /\
                In t (map variant_name (variants f))) \/
     (get a framework = VUndefined /\ get a variant = VUndefined /\
      argTemplate = VString t)).
Proof.
  intros H.
  apply resolved_run in H as (pn & ow & pk & tp & -> & _ & _ & _ & Htp).
  destruct (get_answers_of pn ow pk tp) as (_ & _ & _ & Ef & Ev).
  unfold Workflow.effective_template. rewrite Ef, Ev.
  destruct tp as [[f v]|]; cbn [template_answer] in Htp.
  - destruct Htp as (_ & Hf & Hv). exists (variant_name v).
    pose proof (@Workflow.variant_in_templates cyan green magenta red f v Hf Hv)
      as Hin.
    unfold js_or at 1.
    rewrite (@Workflow.template_truthy cyan green magenta red _ Hin).
    split; [reflexivity|]. split; [exact Hin|]. left. exists f.
    split; [reflexivity|]. split; [exact Hf|]. split; [reflexivity|].
    apply in_map, Hv.
  - unfold template_given in Htp. apply andb_prop in Htp as [_ Hin].
    apply includes_In in Hin as (t & E & Hin). exists t.
    cbn [name_of js_or truthy]. split; [exact E|]. split; [exact Hin|].
    right. auto.
Qed.


(** X16: a command line that settles everything asks nothing.  When the
    target directory is given, does not exist or is empty, names an
    accepted package name, and the template given is one of
    [TEMPLATES], the questions resolve without a prompt, whatever the
    user would type, with no answers and the target directory given. *)
Theorem nothing_asked (script : list response) (s : fs) :
  present argTargetDir = true ->
  existsSync_at s (cwd e) (or_default argTargetDir) = false \/
  at_name isEmpty s (cwd e) (or_default argTargetDir) = Ok true ->
  isValidPackageName (getProjectName (or_default argTargetDir)) = true ->
  template_given = true ->
  ask script s =
    {| log := []; final := Resolved [] (or_default argTargetDir) |}.
Proof.
  intros P E V T. unfold Workflow.ask, Workflow.questions.
  rewrite prompts_cons. cbn [q_type Workflow.ask_projectName]. rewrite P.
  rewrite prompts_cons. cbn [q_type Workflow.ask_overwrite].
  assert (O : (if negb (existsSync_at s (cwd e) (or_default argTargetDir))
               then Ok None
               else empty <- at_name isEmpty s (cwd e)
                               (or_default argTargetDir) ;;
                    Ok (if empty then None else Some confirm)) = Ok None).
  { destruct E as [E|E].
    - rewrite E. reflexivity.
    - rewrite E. destruct (existsSync_at s _ _); reflexivity. }
  rewrite O. rewrite prompts_cons. cbn [q_type Workflow.check_overwrite get].
  rewrite prompts_cons. cbn [q_type Workflow.ask_packageName]. rewrite V.
  rewrite prompts_cons. cbn [q_type Workflow.ask_framework].
  fold template_given. rewrite T.
  rewrite prompts_cons. cbn [q_type Workflow.ask_variant]. reflexivity.
Qed.

(** X17: what the framework prompt shows, and when.  In every run, a
    framework prompt is shown only when the command line gives no
    template that is one of [TEMPLATES].  When the template of the
    command line is a string that is not one of [TEMPLATES], the prompt
    says so, quoting the string; in every other case it asks to select a
    framework.  So a prompt that is shown warns whenever the command
    line gives a string as the template, and asks plainly whenever it
    gives none.  And in a run whose questions resolve the framework
    prompt has been shown, and answered, whenever the command line gives
    no template that is one of [TEMPLATES]. *)
Theorem framework_prompt_message (script : list response) (s : fs) :
  (forall x,
     In x (log (ask script s)) ->
     asked x = framework ->
     shown x =
       match argTemplate with
       | VString t =>
           if includes templates argTemplate
           then reset (str "Select a framework: ")
           else reset ([34%N] ++ t ++ [34%N]
                       ++ str " isn't a valid template. Please choose from below: ")
       | _ => reset (str "Select a framework: ")
       end /\
     truthy argTemplate && includes templates argTemplate = false /\
     shown x =
       match argTemplate with
       | VString t =>
           reset ([34%N] ++ t ++ [34%N]
                  ++ str " isn't a valid template. Please choose from below: ")
       | _ => reset (str "Select a framework: ")
       end) /\
  (forall a targetDir,
     final (ask script s) = Resolved a targetDir ->
     truthy argTemplate && includes templates argTemplate = false ->
     exists x,
       In x (log (ask script s)) /\ asked x = framework /\ got x <> Abort).
Proof.
  split.
  - intros x Hin Ha. unfold Workflow.ask in Hin.
    apply prompts_shown in Hin as (q & td & prev & a & k & Hq & Hn & -> & T).
    rewrite Ha in Hn.
    destruct Hq as [<-|[<-|[<-|[<-|[<-|[<-|[]]]]]]];
      try (vm_compute in Hn; discriminate).
    cbn [q_message Workflow.ask_framework].
    cbn [q_type Workflow.ask_framework] in T.
    destruct (truthy argTemplate && includes templates argTemplate) eqn:G;
      [discriminate|].
    split; [|split; [reflexivity|]].
    + destruct argTemplate; try reflexivity.
      destruct (includes templates _); reflexivity.
    + destruct argTemplate as [|t| | |] eqn:E; try reflexivity.
      destruct (includes templates (VString t)) eqn:I; [|reflexivity].
      exfalso. apply includes_In in I as (t' & Et & Hin).
      inversion Et; subst t'.
      rewrite (@Workflow.template_truthy cyan green magenta red _ Hin) in G.
      discriminate.
  - intros a targetDir H G. unfold Workflow.ask in *.
    apply (@prompts_reached cancellation ask_framework select (questions s))
      with (a' := a) (td' := targetDir); [| |exact H].
    + intros td prev a0. cbn [q_type Workflow.ask_framework].
      rewrite G. reflexivity.
    + unfold Workflow.questions. do 4 right. left. reflexivity.
Qed.

(** X26: the target directory of a run whose questions resolved is
    never empty, never ends with a slash and never starts with white
    space.  It is the directory of the command line as [formatTargetDir]
    gives it, when that is not empty; otherwise it comes from the line
    given as the project name, and is [DEFAULT_TARGET_DIR] when
    [formatTargetDir] leaves nothing of the line. *)
Theorem target_directory_of_a_run (script : list response) (s : fs)
    (a : answers) (targetDir : jsstring) :
  final (ask script s) = Resolved a targetDir ->
  targetDir <> [] /\
  ends_in is_slash targetDir = false /\
  starts_in is_ws targetDir = false /\
  ((argTargetDir = Some targetDir /\ get a projectName = VUndefined) \/
   (present argTargetDir = false /\
    exists line formatted,
      get a projectName = VString line /\
      formatTargetDir (Some line) = Some formatted /\
      targetDir = if is_nil formatted then DEFAULT_TARGET_DIR else formatted)).
Proof.
  intros H.
  apply resolved_run in H as (pn & ow & pk & tp & -> & Hpn & _).
  destruct (get_answers_of pn ow pk tp) as (-> & _).
  assert (D : forall x,
            or_default (formatTargetDir (Some x)) <> [] /\
            ends_in is_slash (or_default (formatTargetDir (Some x))) = false /\
            starts_in is_ws (or_default (formatTargetDir (Some x))) = false).
  { intros x. cbn [formatTargetDir or_default].
    destruct (drop_trailing is_slash (trim x)) as [|c t] eqn:E;
      cbn [is_nil].
    - split; [discriminate|split; reflexivity].
    - rewrite <- E. split; [rewrite E; discriminate|].
      split; [apply drop_trailing_ends|apply formatted_starts]. }
  destruct pn as [line|]; cbn [project_answer] in Hpn.
  - destruct Hpn as [P ->]. destruct (D line) as (D1 & D2 & D3).
    split; [exact D1|]. split; [exact D2|]. split; [exact D3|].
    right. split; [exact P|].
    exists line, (drop_trailing is_slash (trim line)).
    split; [reflexivity|]. split; reflexivity.
  - destruct Hpn as [P ->]. unfold Workflow.argTargetDir in *.
    destruct (hd_error (argv_ e)) as [x|]; [|discriminate].
    destruct (D x) as (D1 & D2 & D3).
    split; [exact D1|]. split; [exact D2|]. split; [exact D3|].
    left. split; [|reflexivity].
    cbn [formatTargetDir or_default present] in *.
    destruct (drop_trailing is_slash (trim x)); [discriminate|reflexivity].
Qed.

End Run.

Lemma written_name_is_valid_witness :
  exists a targetDir,
    final (example_ask bare_env
             [Line (str "My App/"); Line (str "My App"); Line (str "my-app");
              Pick 1; Pick 1] example_files) = Resolved a targetDir /\
    isValidPackageName
      (Json.manifest_name (as_string (get a packageName))
         (getProjectName bare_env targetDir)) = true /\
    targetDir = str "My App" /\
    Json.manifest_name (as_string (get a packageName))
      (getProjectName bare_env targetDir) = str "my-app".
Proof.
  destruct (final (example_ask bare_env
              [Line (str "My App/"); Line (str "My App"); Line (str "my-app");
               Pick 1; Pick 1] example_files)) as [a targetDir| |] eqn:F;
    [|vm_compute in F; discriminate|vm_compute in F; discriminate].
  exists a, targetDir. split; [reflexivity|].
  pose proof (written_name_is_valid toLowerCase_ascii_strings plain_text
                plain_text plain_text plain_text plain_text bare_env _ _ F)
    as [V _].
  split; [exact V|].
  vm_compute in F. inversion F; subst a targetDir. clear F V.
  split; reflexivity.
Defined.

Lemma template_is_known_witness :
  exists a targetDir t,
    final (example_ask example_env [YesNo true] example_files) =
      Resolved a targetDir /\
    effective_template example_env a = VString t /\
    In t (templates plain_text plain_text plain_text plain_text).
Proof.
  destruct (final (example_ask example_env [YesNo true] example_files))
    as [a targetDir| |] eqn:F;
    [|vm_compute in F; discriminate|vm_compute in F; discriminate].
  destruct (template_is_known toLowerCase_ascii_strings plain_text plain_text
              plain_text plain_text plain_text example_env _ _ F)
    as (t & E & Hin & _).
  exists a, targetDir, t. auto.
Defined.


(** [create nope/../demo --template html-css], run from [/work], where
    there is a [demo] that is not empty and no [nope]: the file system
    does not find the target, the overwrite question is not asked, and
    [path.join] gives the [demo] that is there. *)
Definition dotted_env : env :=
  {| argv_ := [str "nope/../demo"];
     argv_template := VString (str "html-css");
     argv_t := VUndefined;
     cwd := [str "work"];
     program_dir := [str "tool"];
     npm_config_user_agent := None |}.

Example target_through_nothing :
  example_ask dotted_env [Line (str "x")] example_files =
    {| log := [{| asked := packageName;
                  shown := str "Package name:";
                  got := Line (str "x") |}];
       final := Resolved [(packageName, VString (str "x"))]
                  (str "nope/../demo") |} /\
  isEmpty example_files (join (cwd dotted_env) (str "nope/../demo")) =
    Ok false.
Proof. split; vm_compute; reflexivity. Qed.

(** [create fresh --template pug-scss], run from [/work], where there is
    no [fresh]. *)
Definition fresh_env : env :=
  {| argv_ := [str "fresh"];
     argv_template := VString (str "pug-scss");
     argv_t := VUndefined;
     cwd := [str "work"];
     program_dir := [str "tool"];
     npm_config_user_agent := None |}.

Lemma nothing_asked_witness :
  example_ask fresh_env [Abort; Line (str "x")] example_files =
    {| log := []; final := Resolved [] (str "fresh") |}.
Proof.
  apply (nothing_asked toLowerCase_ascii_strings plain_text plain_text
           plain_text plain_text plain_text fresh_env
           [Abort; Line (str "x")] example_files).
  - reflexivity.
  - left. reflexivity.
  - reflexivity.
  - reflexivity.
Defined.

(** [create --template vue], run from [/work]. *)
Definition unknown_template_env : env :=
  {| argv_ := [str "fresh"];
     argv_template := VString (str "vue");
     argv_t := VUndefined;
     cwd := [str "work"];
     program_dir := [str "tool"];
     npm_config_user_agent := None |}.

Lemma framework_prompt_message_witness :
  let x := {| asked := framework;
              shown := [34%N] ++ str "vue" ++ [34%N]
                       ++ str " isn't a valid template. Please choose from below: ";
              got := Pick 0 |} in
  In x (log (example_ask unknown_template_env [Pick 0; Pick 1] example_files)) /\
  shown x =
    [34%N] ++ str "vue" ++ [34%N]
    ++ str " isn't a valid template. Please choose from below: ".
Proof.
  intros x.
  assert (Hin : In x (log (example_ask unknown_template_env
                             [Pick 0; Pick 1] example_files)))
    by (vm_compute; left; reflexivity).
  split; [exact Hin|].
  destruct (framework_prompt_message toLowerCase_ascii_strings plain_text
              plain_text plain_text plain_text plain_text
              unknown_template_env [Pick 0; Pick 1] example_files)
    as [Shown _].
  destruct (Shown x Hin eq_refl) as (_ & _ & E). exact E.
Defined.

Lemma target_directory_of_a_run_witness :
  exists a,
    final (example_ask bare_env
             [Line (str " // "); Line (str "x"); Pick 0; Pick 0]
             example_files) = Resolved a (str "loom-project").
Proof.
  destruct (final (example_ask bare_env
              [Line (str " // "); Line (str "x"); Pick 0; Pick 0]
              example_files)) as [a targetDir| |] eqn:F;
    [|vm_compute in F; discriminate|vm_compute in F; discriminate].
  destruct (target_directory_of_a_run toLowerCase_ascii_strings plain_text
              plain_text plain_text plain_text plain_text bare_env _ _ F)
    as (_ & _ & _ & [(A & _)|(_ & line & formatted & G & Ff & ->)]).
  - vm_compute in A. discriminate.
  - exists a. f_equal.
    vm_compute in F. inversion F; subst a. vm_compute in G.
    inversion G; subst line. vm_compute in Ff. inversion Ff; subst formatted.
    reflexivity.
Defined.

End RunFacts.

(* ================================================================== *)
(** * More about the tree operations and [copy] *)
(* ================================================================== *)

Module TreeFacts.
Import JsString Exn Fs.

Lemma node_induction (P : node -> Prop) :
  (forall content, P (File content)) ->
  (forall es, Forall (fun entry => P (snd entry)) es -> P (Dir es)) ->
  forall n, P n.
Proof.
  intros HF HD. fix IH 1. intros [content|es]; [apply HF|].
  apply HD. revert es. fix IHes 1.
  intros [|[k v] t]; constructor; [apply IH|apply IHes].
Qed.

(** ** Entries *)

Lemma find_app_fresh name (es : list (jsstring * node)) n :
  find name es = None -> find name (es ++ [(name, n)]) = Some n.
Proof.
  induction es as [|[k v] t IH]; simpl.
  - rewrite eqs_refl. reflexivity.
  - destruct (eqs k name); [discriminate|exact IH].
Qed.


Lemma find_app_some name (es rest : list (jsstring * node)) n :
  find name es = Some n -> find name (es ++ rest) = Some n.
Proof.
  induction es as [|[k v] t IH]; simpl; [discriminate|].
  destruct (eqs k name); [auto|exact IH].
Qed.

Lemma find_none name (es : list (jsstring * node)) :
  ~ In name (map fst es) -> find name es = None.
Proof.
  induction es as [|[k v] t IH]; simpl; [reflexivity|].
  intros H. destruct (eqs k name) eqn:E.
  - apply eqs_eq in E. tauto.
  - apply IH. tauto.
Qed.

(** Among entries with distinct names [find] gives the entry of the
    name. *)
Lemma find_middle (made rest : list (jsstring * node)) name n :
  NoDup (map fst (made ++ (name, n) :: rest)) ->
  find name made = None /\ find name (made ++ (name, n) :: rest) = Some n.
Proof.
  induction made as [|[k v] t IH]; simpl.
  - rewrite eqs_refl. auto.
  - intros N. inversion N as [|? ? Hk Nt]; subst.
    destruct (eqs k name) eqn:E.
    + apply eqs_eq in E. subst k. exfalso. apply Hk.
      rewrite map_app. apply in_or_app. right. left. reflexivity.
    + apply IH, Nt.
Qed.

Lemma alter_entry_fresh name f (es : list (jsstring * node)) n :
  find name es = None ->
  alter_entry name f (es ++ [(name, n)]) = es ++ [(name, f n)].
Proof.
  induction es as [|[k v] t IH]; simpl.
  - rewrite eqs_refl. reflexivity.
  - destruct (eqs k name); [discriminate|].
    intros H. rewrite (IH H). reflexivity.
Qed.

(** ** Paths that diverge *)






(** ** What the writing calls leave alone *)



(** A file that has been written holds what was written. *)
Lemma write_at_reads whole content p : forall s s',
  write_at whole p content s = Ok s' -> lookup s' p = Some (File content).
Proof.
  induction p as [|name p' IH]; intros s s'; [discriminate|].
  cbn [write_at]. destruct s as [c|es]; [discriminate|].
  destruct (find name es) as [child|] eqn:F.
  - destruct p' as [|name' p''].
    + destruct child; [|discriminate]. intros H. inversion H. cbn [lookup].
      rewrite find_alter_entry, F. reflexivity.
    + destruct (write_at whole (name' :: p'') content child) as [c'|err] eqn:W;
        [|destruct child; discriminate].
      intros H.
      assert (E : s' = Dir (alter_entry name (fun _ => c') es))
        by (destruct child; inversion H; reflexivity).
      subst s'. clear H.
      change (lookup (Dir (alter_entry name (fun _ => c') es))
                (name :: name' :: p''))
        with (match find name (alter_entry name (fun _ => c') es) with
              | Some ch => lookup ch (name' :: p'')
              | None => None
              end).
      rewrite find_alter_entry, F. apply (IH _ _ W).
  - destruct p' as [|name' p'']; [|discriminate].
    intros H. inversion H. cbn [lookup].
    rewrite (@find_app_fresh name es (File content) F). reflexivity.
Qed.




(** What [copy] gives does not depend on the fuel, once there is
    enough of it. *)
Lemma copy_files_more (f g : path -> path -> fs -> option effect)
    srcDir destinationDir listed :
  (forall src destination s r,
     f src destination s = Some r -> g src destination s = Some r) ->
  forall s r,
    copy_files f srcDir destinationDir listed s = Some r ->
    copy_files g srcDir destinationDir listed s = Some r.
Proof.
  intros M. induction listed as [|file t IH]; intros s r; [auto|].
  cbn [copy_files].
  destruct (f (srcDir ++ [file]) (destinationDir ++ [file]) s)
    as [[[u|err] s1]|] eqn:E; [| |discriminate];
    rewrite (M _ _ _ _ E); [apply IH|auto].
Qed.

Lemma copy_more fuel : forall fuel' src destination s r,
  copy fuel src destination s = Some r -> fuel <= fuel' ->
  copy fuel' src destination s = Some r.
Proof.
  induction fuel as [|fuel IH]; intros fuel' src destination s r;
    [discriminate|].
  intros H L. destruct fuel' as [|fuel']; [lia|].
  cbn [copy] in *.
  destruct (statSync_isDirectory s src) as [[|]|err]; [|exact H|exact H].
  unfold copyDir in *.
  destruct (mkdirSync s destination) as [s1|err]; [|exact H].
  destruct (readdirSync s1 src) as [listed|err]; [|exact H].
  revert H. apply copy_files_more. intros src0 destination0 s0 r0 H.
  apply (IH fuel' _ _ _ _ H). lia.
Qed.

(** ** The copy of a tree *)

(** The copy of the source tree as it is when [copy] is called: first
    the directory, then its entries in their order, each of them read
    from the tree and not from the file system.  This is what the
    recursion of [copy] would give if nothing that it reads changed
    under it; it is here to be compared with [copy]. *)
Fixpoint copy_node (src : node) (destination : path) (s : fs) : result fs :=
  match src with
  | File content => writeFileSync s destination content
  | Dir es =>
      s1 <- mkdirSync s destination ;;
      (fix copy_entries (es : list (jsstring * node)) (s : fs) : result fs :=
         match es with
         | [] => Ok s
         | (file, child) :: t =>
             s' <- copy_node child (destination ++ [file]) s ;;
             copy_entries t s'
         end) es s1
  end.

Definition copy_snapshot (src destination : path) (s : fs) : result fs :=
  match lookup s src with
  | None => Throw (nothing_at s src)
  | Some n => copy_node n destination s
  end.

(** The loop over the entries of the tree. *)
Fixpoint copy_all (destination : path) (es : list (jsstring * node)) (s : fs)
  : result fs :=
  match es with
  | [] => Ok s
  | (file, child) :: t =>
      s' <- copy_node child (destination ++ [file]) s ;;
      copy_all destination t s'
  end.

Lemma copy_node_dir es destination s :
  copy_node (Dir es) destination s =
  s1 <- mkdirSync s destination ;; copy_all destination es s1.
Proof.
  cbn [copy_node]. destruct (mkdirSync s destination) as [s1|err];
    [|reflexivity].
  cbn [bind]. revert s1. induction es as [|[file child] t IH]; intros s1;
    [reflexivity|].
  cbn [copy_all]. destruct (copy_node child (destination ++ [file]) s1);
    [|reflexivity].
  cbn [bind]. apply IH.
Qed.

(** ** Copying to a fresh destination *)

(** Are the names pairwise distinct? *)
Fixpoint no_twins (names : list jsstring) : bool :=
  match names with
  | [] => true
  | k :: t => negb (existsb (eqs k) t) && no_twins t
  end.

(** A tree in which the entries of every directory have distinct
    names. *)
Fixpoint well_formed (n : node) : bool :=
  match n with
  | File _ => true
  | Dir es =>
      no_twins (map fst es)
      && (fix all (es : list (jsstring * node)) : bool :=
            match es with
            | [] => true
            | (_, child) :: t => well_formed child && all t
            end) es
  end.

(** The number of directories on the longest way down. *)
Fixpoint depth (n : node) : nat :=
  match n with
  | File _ => 0
  | Dir es =>
      S ((fix deepest (es : list (jsstring * node)) : nat :=
            match es with
            | [] => 0
            | (_, child) :: t => Nat.max (depth child) (deepest t)
            end) es)
  end.

Lemma no_twins_NoDup names : no_twins names = true -> NoDup names.
Proof.
  induction names as [|k t IH]; simpl; [constructor|].
  intros H. apply andb_prop in H as [H1 H2]. constructor; [|apply IH, H2].
  intros Hin. apply negb_true_iff in H1.
  assert (X : existsb (eqs k) t = true)
    by (apply existsb_exists; exists k; split; [exact Hin|apply eqs_refl]).
  congruence.
Qed.

Lemma well_formed_dir es :
  well_formed (Dir es) = true ->
  NoDup (map fst es) /\
  Forall (fun entry => well_formed (snd entry) = true) es.
Proof.
  cbn [well_formed]. intros H. apply andb_prop in H as [H1 H2].
  split; [apply no_twins_NoDup, H1|]. clear H1.
  induction es as [|[k v] t IH]; constructor.
  - apply andb_prop in H2 as [H _]. exact H.
  - apply IH. apply andb_prop in H2 as [_ H]. exact H.
Qed.

Lemma depth_dir es fuel :
  depth (Dir es) < S fuel -> Forall (fun entry => depth (snd entry) < fuel) es.
Proof.
  cbn [depth]. intros H. apply PeanoNat.lt_S_n in H. revert H.
  induction es as [|[k v] t IH]; intros H; constructor.
  - cbn [snd]. lia.
  - apply IH. lia.
Qed.

Lemma put_app p q new : forall s n,
  lookup s p = Some n -> put (p ++ q) new s = put p (put q new n) s.
Proof.
  induction p as [|name p' IH]; intros s n H.
  - simpl in H. inversion H. reflexivity.
  - simpl in *. destruct s as [c|es]; [discriminate|].
    destruct (find name es) as [child|] eqn:F; [|discriminate].
    f_equal. apply (alter_entry_ext _ _ _ _ F). apply IH, H.
Qed.

(** Making the directory [name] in [parent], where there is none. *)
Lemma mkdir_at_fresh whole name parent : forall s es,
  lookup s parent = Some (Dir es) -> find name es = None ->
  mkdir_at whole (parent ++ [name]) s =
    Ok (put parent (Dir (es ++ [(name, Dir [])])) s).
Proof.
  induction parent as [|k p' IH]; intros s es L F.
  - simpl in L. inversion L; subst. simpl. rewrite F. reflexivity.
  - simpl in L. destruct s as [c|es0]; [discriminate|].
    destruct (find k es0) as [child|] eqn:Fk; [|discriminate].
    change ((k :: p') ++ [name]) with (k :: (p' ++ [name])).
    cbn [mkdir_at put]. rewrite Fk, (IH _ _ L F). cbn [bind].
    do 2 f_equal. symmetry. apply (alter_entry_ext _ _ _ _ Fk). reflexivity.
Qed.

(** Writing the file [name] in [parent], where there is none. *)
Lemma write_at_fresh whole content name parent : forall s es,
  lookup s parent = Some (Dir es) -> find name es = None ->
  write_at whole (parent ++ [name]) content s =
    Ok (put parent (Dir (es ++ [(name, File content)])) s).
Proof.
  induction parent as [|k p' IH]; intros s es L F.
  - simpl in L. inversion L; subst. simpl. rewrite F. reflexivity.
  - simpl in L. destruct s as [c|es0]; [discriminate|].
    destruct (find k es0) as [child|] eqn:Fk; [|discriminate].
    change ((k :: p') ++ [name]) with (k :: (p' ++ [name])).
    cbn [write_at put]. rewrite Fk.
    assert (E : match p' ++ [name] with
                | [] =>
                    match child with
                    | File _ =>
                        Ok (Dir (alter_entry k (fun _ => File content) es0))
                    | Dir _ => Throw (SystemError EISDIR whole)
                    end
                | _ :: _ =>
                    c <- write_at whole (p' ++ [name]) content child ;;
                    Ok (Dir (alter_entry k (fun _ => c) es0))
                end =
                c <- write_at whole (p' ++ [name]) content child ;;
                Ok (Dir (alter_entry k (fun _ => c) es0)))
      by (destruct p'; reflexivity).
    destruct child as [c|ces]; (etransitivity; [exact E|]);
      rewrite (IH _ _ L F); cbn [bind]; do 2 f_equal; symmetry;
      apply (alter_entry_ext _ _ _ _ Fk); reflexivity.
Qed.

(** A new entry in [parent] changes nothing at a path that exists and
    is no prefix of the path of the entry. *)
Lemma lookup_put_fresh name new parent : forall s es q n,
  lookup s parent = Some (Dir es) -> find name es = None ->
  lookup s q = Some n ->
  (forall rest, parent ++ [name] <> q ++ rest) ->
  lookup (put parent (Dir (es ++ [(name, new)])) s) q = Some n.
Proof.
  induction parent as [|k p' IH]; intros s es q n L F Q P.
  - simpl in L. inversion L; subst. cbn [put].
    destruct q as [|b q']; [exfalso; apply (P [name]); reflexivity|].
    cbn [lookup] in *. destruct (find b es) as [ch|] eqn:Fb; [|discriminate].
    rewrite (find_app_some b es _ Fb). exact Q.
  - simpl in L. destruct s as [c|es0]; [discriminate|].
    destruct (find k es0) as [child|] eqn:Fk; [|discriminate].
    destruct q as [|b q'];
      [exfalso; apply (P ((k :: p') ++ [name])); reflexivity|].
    cbn [put lookup] in *. destruct (eqs k b) eqn:E.
    + apply eqs_eq in E. subst b. rewrite find_alter_entry, Fk.
      rewrite Fk in Q. apply (IH _ _ _ _ L F Q).
      intros rest H. apply (P rest). simpl. rewrite H. reflexivity.
    + rewrite find_alter_entry_other by exact E. exact Q.
Qed.

(** One more entry in the directory that is being filled. *)
Lemma put_entry parent name es made entry s :
  lookup s parent = Some (Dir es) -> find name es = None ->
  put (parent ++ [name]) (Dir (made ++ [entry]))
    (put parent (Dir (es ++ [(name, Dir made)])) s) =
  put parent (Dir (es ++ [(name, Dir (made ++ [entry]))])) s.
Proof.
  intros L F.
  rewrite (put_app _ _ _ _ (lookup_put _ (Dir (es ++ [(name, Dir made)])) _ L)).
  rewrite put_put. f_equal. cbn [put]. f_equal.
  apply (alter_entry_fresh name (fun _ => Dir (made ++ [entry])) es
           (Dir made) F).
Qed.

Lemma filling_lookup parent name es made s :
  lookup s parent = Some (Dir es) -> find name es = None ->
  lookup (put parent (Dir (es ++ [(name, Dir made)])) s) (parent ++ [name]) =
    Some (Dir made).
Proof.
  intros L F. rewrite lookup_app, (lookup_put _ _ _ L). cbn [lookup].
  rewrite (@find_app_fresh name es (Dir made) F). reflexivity.
Qed.

Lemma not_below (src destination : path) (file name : jsstring) :
  (forall rest, destination <> src ++ rest) ->
  forall rest, destination ++ [name] <> (src ++ [file]) ++ rest.
Proof.
  intros P rest. induction rest as [|x r _] using rev_ind; intros H.
  - rewrite app_nil_r in H. apply app_inj_tail in H as [H _].
    apply (P []). rewrite app_nil_r. exact H.
  - rewrite app_assoc in H. apply app_inj_tail in H as [H _].
    apply (P ([file] ++ r)). rewrite H, <- app_assoc. reflexivity.
Qed.

Section Fresh.

Variables (src parent : path) (name : jsstring).
Variables (s : fs) (es : list (jsstring * node)).

(** The state while the directory is being filled. *)
Definition filling (made : list (jsstring * node)) : fs :=
  put parent (Dir (es ++ [(name, Dir made)])) s.

(** The loop over the entries, when each copy does what it should. *)
Lemma copy_files_fresh (copy : path -> path -> fs -> option effect)
    (all : list (jsstring * node)) :
  lookup s src = Some (Dir all) ->
  NoDup (map fst all) ->
  (forall made file child rest,
     all = made ++ (file, child) :: rest ->
     copy (src ++ [file]) ((parent ++ [name]) ++ [file]) (filling made) =
       Some (Ok tt, filling (made ++ [(file, child)]))) ->
  forall todo made,
    all = made ++ todo ->
    copy_files copy src (parent ++ [name]) (map fst todo) (filling made) =
      Some (Ok tt, filling all).
Proof.
  intros L N C. induction todo as [|[file child] t IH]; intros made E.
  - rewrite app_nil_r in E. subst made. reflexivity.
  - cbn [map fst copy_files]. rewrite (C _ _ _ _ E).
    apply IH. rewrite <- app_assoc. exact E.
Qed.

End Fresh.

(** [copy], which reads the file system at every step, gives the source
    tree as a new entry of the parent. *)
Lemma copy_fresh fuel : forall n src parent name s es,
  lookup s src = Some n -> well_formed n = true ->
  lookup s parent = Some (Dir es) -> find name es = None ->
  (forall rest, parent ++ [name] <> src ++ rest) ->
  depth n < fuel ->
  copy fuel src (parent ++ [name]) s =
    Some (Ok tt, put parent (Dir (es ++ [(name, n)])) s).
Proof.
  induction fuel as [|fuel IH]; intros n src parent name s es L W P F B D;
    [lia|].
  cbn [copy]. unfold statSync_isDirectory. rewrite L.
  destruct n as [content|all].
  - unfold atomically, copyFileSync, readFileSync, writeFileSync.
    rewrite L. cbn [bind].
    rewrite (write_at_fresh _ _ _ _ _ P F). reflexivity.
  - unfold copyDir, mkdirSync. rewrite (mkdir_at_fresh _ _ _ _ P F).
    unfold readdirSync.
    rewrite (lookup_put_fresh name (Dir []) parent s src P F L B).
    apply well_formed_dir in W as [N W]. apply depth_dir in D.
    apply (copy_files_fresh src parent name s es (copy fuel) L N)
      with (made := []); [|reflexivity].
    intros made file child rest E.
    assert (Hin : In (file, child) all)
      by (rewrite E; apply in_or_app; right; left; reflexivity).
    rewrite Forall_forall in W, D.
    rewrite E in N. destruct (find_middle _ _ _ _ N) as [Fm Fa].
    rewrite <- E in Fa.
    unfold filling.
    rewrite (IH child (src ++ [file]) (parent ++ [name]) file _ made).
    + rewrite (put_entry parent name made (file, child) s P F). reflexivity.
    + apply (lookup_put_fresh name (Dir made) parent s (src ++ [file]) P F).
      * rewrite lookup_app, L. cbn [lookup]. rewrite Fa. reflexivity.
      * intros r H. apply (B ([file] ++ r)). rewrite H, <- app_assoc.
        reflexivity.
    + apply (W _ Hin).
    + apply (filling_lookup parent name made s P F).
    + exact Fm.
    + apply not_below, B.
    + apply (D _ Hin).
Qed.

(** So does the copy of the source tree as it was. *)
Lemma copy_node_fresh n : forall parent name s es,
  well_formed n = true ->
  lookup s parent = Some (Dir es) -> find name es = None ->
  copy_node n (parent ++ [name]) s =
    Ok (put parent (Dir (es ++ [(name, n)])) s).
Proof.
  induction n as [content|all IH] using node_induction;
    intros parent name s es W P F.
  - cbn [copy_node]. unfold writeFileSync. apply (write_at_fresh _ _ _ _ _ P F).
  - rewrite copy_node_dir. unfold mkdirSync.
    rewrite (mkdir_at_fresh _ _ _ _ P F). cbn [bind].
    apply well_formed_dir in W as [N W].
    assert (G : forall todo made,
              all = made ++ todo ->
              copy_all (parent ++ [name]) todo
                (put parent (Dir (es ++ [(name, Dir made)])) s) =
              Ok (put parent (Dir (es ++ [(name, Dir all)])) s)).
    { induction todo as [|[file child] t IHt]; intros made E.
      - rewrite app_nil_r in E. subst made. reflexivity.
      - cbn [copy_all].
        assert (Hin : In (file, child) all)
          by (rewrite E; apply in_or_app; right; left; reflexivity).
        rewrite Forall_forall in W, IH.
        pose proof N as N'. rewrite E in N'.
        destruct (find_middle _ _ _ _ N') as [Fm _].
        pose proof (IH _ Hin (parent ++ [name]) file _ made (W _ Hin)
                      (filling_lookup parent name made s P F) Fm) as Hc.
        cbn [snd] in Hc. rewrite Hc. cbn [bind]. rewrite (put_entry parent name made (file, child) s P F).
        apply IHt. rewrite <- app_assoc. exact E. }
    apply (G all []). reflexivity.
Qed.

(** X22: copying to a fresh destination.  When the source exists, its
    directories have entries with distinct names, the parent of the
    destination is a directory without an entry of the destination's
    name, and the destination does not lie at or below the source,
    [copy] returns, with one unit of fuel more than the source is deep,
    and the file system is as before except that the parent has, as its
    last entry, the source tree under the destination's name; the source
    is as it was.  [copy], which reads the file system at every step,
    then gives what the copy of the source tree as it was at the call
    gives. *)
Theorem copy_to_fresh_destination (fuel : nat) (src parent : path)
    (name : jsstring) (s : fs) (n : node) (es : list (jsstring * node)) :
  lookup s src = Some n ->
  well_formed n = true ->
  lookup s parent = Some (Dir es) ->
  find name es = None ->
  (forall rest, parent ++ [name] <> src ++ rest) ->
  depth n < fuel ->
  let s' := put parent (Dir (es ++ [(name, n)])) s in
  copy fuel src (parent ++ [name]) s = Some (Ok tt, s') /\
  copy_snapshot src (parent ++ [name]) s = Ok s' /\
  lookup s' (parent ++ [name]) = Some n /\
  lookup s' src = Some n.
Proof.
  intros L W P F B D s'. split; [|split; [|split]].
  - apply copy_fresh; assumption.
  - unfold copy_snapshot. rewrite L. apply copy_node_fresh; assumption.
  - unfold s'. rewrite lookup_app, (lookup_put _ _ _ P). cbn [lookup].
    rewrite (@find_app_fresh name es n F). reflexivity.
  - apply (lookup_put_fresh name n parent s src P F L B).
Qed.

Lemma copy_to_fresh_destination_witness :
  let template :=
    Dir [(str "index.html", File (str "<html>"));
         (str "src", Dir [(str "main.js", File (str "1"))])] in
  let s := Dir [(str "tool", template); (str "work", Dir [])] in
  copy 3 [str "tool"] [str "work"; str "demo"] s =
    Some (Ok tt, Dir [(str "tool", template);
                      (str "work", Dir [(str "demo", template)])]).
Proof.
  intros template s.
  apply (@copy_to_fresh_destination 3 [str "tool"] [str "work"] (str "demo")
           s template []).
  - reflexivity.
  - reflexivity.
  - reflexivity.
  - reflexivity.
  - intros rest H. inversion H.
  - simpl. lia.
Defined.

End TreeFacts.

(* ================================================================== *)
(** * More about [init] *)
(* ================================================================== *)

Module InitFacts.
Import JsString Exn Fs Names Paths Catalog Prompts Workflow.
Import WalkFacts RunFacts TreeFacts.

Section Program.

Variable toLowerCase : jsstring -> jsstring.
Variable number : Type.
Variable number_of_token : jsstring -> number.
Variable token_of_number : number -> option jsstring.
Variables cyan green magenta red reset : jsstring -> jsstring.
Variable runtime_message : exn -> jsstring.
Variable e : env.

Local Abbreviation argTargetDir := (Workflow.argTargetDir e).
Local Abbreviation getProjectName := (Workflow.getProjectName e).
Local Abbreviation ask :=
  (Workflow.ask toLowerCase cyan green magenta red reset e).
Local Abbreviation effective_template := (Workflow.effective_template e).
Local Abbreviation materialize :=
  (Workflow.materialize number_of_token token_of_number e).
Local Abbreviation init :=
  (Workflow.init toLowerCase number_of_token token_of_number
     cyan green magenta red reset runtime_message e).
Local Abbreviation inherited :=
  (fun file : jsstring => existsb (eqs file) object_prototype_members).
Local Abbreviation rewrite_manifest :=
  (Json.rewrite_manifest number_of_token token_of_number).

(** [path.join(cwd, targetDir)] *)
Definition root_of (targetDir : jsstring) : path := join (cwd e) targetDir.

(** The directory of the template. *)
Definition templateDir_of (a : answers) : path :=
  program_dir e
  ++ [str "packages"; str "template-" ++ to_text (effective_template a)].

(** [pkgInfo ? pkgInfo.name : 'npm'] *)
Definition pkgManager : jsstring :=
  match pkgFromUserAgent (npm_config_user_agent e) with
  | Some info => pkg_name info
  | None => str "npm"
  end.

(** [packageName || getProjectName()] *)
Definition name_of_run (a : answers) (targetDir : jsstring) : jsstring :=
  Json.manifest_name (as_string (get a packageName))
    (getProjectName targetDir).

(** The lines that a run writes. *)
Definition scaffolding_line (targetDir : jsstring) : jsstring :=
  [10%N] ++ str "Scaffolding project in " ++ show (root_of targetDir)
  ++ str "...".

Definition done_line : jsstring := [10%N] ++ str "Done. Now run:" ++ [10%N].

Definition cd_lines (targetDir : jsstring) : list jsstring :=
  if negb (same_path (root_of targetDir) (cwd e)) then
    [str "  cd "
     ++ (if has_space (relative (cwd e) (root_of targetDir))
         then [34%N] ++ relative (cwd e) (root_of targetDir) ++ [34%N]
         else relative (cwd e) (root_of targetDir))]
  else [].

Definition run_lines : list jsstring :=
  if eqs pkgManager (str "yarn") then [str "  yarn"; str "  yarn dev"]
  else [str "  " ++ pkgManager ++ str " install";
        str "  " ++ pkgManager ++ str " run dev"].

(** The name under which [write] writes a file that it writes: the
    entry of [renameFiles], and the name of the file when there is
    none. *)
Definition written_as (file : jsstring) : jsstring :=
  match renamed file with
  | Some name => name
  | None => file
  end.

Lemma renamed_own file :
  inherited file = false -> renamed file = Some (written_as file).
Proof.
  unfold written_as, renamed. intros H.
  destruct (List.find _ renameFiles); [reflexivity|]. rewrite H. reflexivity.
Qed.

(** The calls of a run. *)
Definition copy_call (a : answers) (targetDir file : jsstring) : call :=
  Copy (templateDir_of a ++ [file]) (root_of targetDir ++ [written_as file]).

Definition manifest_call (targetDir : jsstring) : call :=
  WriteFileSync (root_of targetDir ++ [package_json]).

(** ** The steps of [materialize] *)

Definition prepare (a : answers) (targetDir : jsstring) : action unit :=
  if truthy (get a overwrite) then
    changing_call (EmptyDir (root_of targetDir))
      (atomically (emptyDir (root_of targetDir)))
  else
    there <~ reading_call (fun s => Ok (existsSync s (root_of targetDir))) ;;
    if negb there then
      changing_call (MkdirSync (root_of targetDir))
        (atomically (fun s => mkdirSync s (root_of targetDir)))
    else pure tt.

Definition announce (targetDir : jsstring) : action unit :=
  console_log ([10%N] ++ str "Done. Now run:" ++ [10%N]) ;;;
  (if negb (same_path (root_of targetDir) (cwd e)) then
     console_log
       (str "  cd "
        ++ (if has_space (relative (cwd e) (root_of targetDir))
            then [34%N] ++ relative (cwd e) (root_of targetDir) ++ [34%N]
            else relative (cwd e) (root_of targetDir)))
   else pure tt) ;;;
  if eqs pkgManager (str "yarn") then
    console_log (str "  yarn") ;;;
    console_log (str "  yarn dev")
  else
    console_log (str "  " ++ pkgManager ++ str " install") ;;;
    console_log (str "  " ++ pkgManager ++ str " run dev").

Lemma materialize_steps fuel a targetDir :
  materialize fuel a targetDir =
  (prepare a targetDir ;;;
   console_log (scaffolding_line targetDir) ;;;
   files <~ reading_call (fun s => readdirSync s (templateDir_of a)) ;;
   for_each (filter (fun f => negb (eqs f package_json)) files)
     (fun file => write fuel (root_of targetDir) (templateDir_of a) file None) ;;;
   manifest <~
     reading_call
       (fun s => readFileSync s (templateDir_of a ++ [package_json])) ;;
   content <~
     reading_call
       (fun _ => rewrite_manifest manifest (name_of_run a targetDir)) ;;
   write fuel (root_of targetDir) (templateDir_of a) package_json
     (Some content) ;;;
   announce targetDir).
Proof. reflexivity. Qed.

Lemma andThen_run (A B : Type) (m : action A) (k : A -> action B) w :
  andThen m k w =
  match m w with
  | Some (Ok a, w') => k a w'
  | Some (Throw err, w') => Some (Throw err, w')
  | None => None
  end.
Proof. reflexivity. Qed.

Lemma changing_call_trace c f w r w' :
  changing_call c f w = Some (r, w') ->
  console w' = console w /\ calls w' = calls w ++ [c] /\
  f (files w) = Some (r, files w').
Proof.
  unfold changing_call. destruct (f (files w)) as [[r0 s]|];
    intros H; inversion H; subst; cbn [console calls files];
    repeat split; auto.
Qed.

Lemma atomically_returns (f : fs -> result fs) s u s' :
  atomically f s = Some (Ok u, s') -> f s = Ok s'.
Proof.
  unfold atomically. destruct (f s); intros H; inversion H; reflexivity.
Qed.

Lemma renamed_package_json : renamed package_json = Some package_json.
Proof. reflexivity. Qed.

Lemma prepare_trace a targetDir w r w' :
  prepare a targetDir w = Some (r, w') ->
  console w' = console w /\
  ((calls w' = calls w ++ [EmptyDir (root_of targetDir)] /\
    truthy (get a overwrite) = true) \/
   (calls w' = calls w ++ [MkdirSync (root_of targetDir)] /\
    truthy (get a overwrite) = false /\
    existsSync (files w) (root_of targetDir) = false) \/
   (calls w' = calls w /\ truthy (get a overwrite) = false /\
    existsSync (files w) (root_of targetDir) = true)).
Proof.
  unfold prepare. destruct (truthy (get a overwrite)).
  - intros H. apply changing_call_trace in H as (C & K & _). auto.
  - rewrite andThen_run. unfold reading_call at 1.
    destruct (existsSync (files w) (root_of targetDir)); cbn [negb].
    + intros H. inversion H; subst. split; [reflexivity|].
      right. right. auto.
    + intros H. apply changing_call_trace in H as (C & K & _).
      split; [exact C|]. right. left. auto.
Qed.

(** One copy of [write]: a file whose name is a member of
    [Object.prototype] makes it throw before any call. *)
Lemma write_trace fuel a targetDir file w r w' :
  write fuel (root_of targetDir) (templateDir_of a) file None w =
    Some (r, w') ->
  console w' = console w /\
  ((renamed file = None /\ r = Throw TypeError /\ calls w' = calls w /\
    files w' = files w) \/
   (renamed file = Some (written_as file) /\
    calls w' = calls w ++ [copy_call a targetDir file])).
Proof.
  unfold write, copy_call, written_as.
  destruct (renamed file) as [name|].
  - intros H. apply changing_call_trace in H as (C & K & _). auto.
  - intros H. inversion H; subst. auto 6.
Qed.

Lemma copies_trace fuel a targetDir l : forall w r w',
  for_each l
    (fun file =>
       write fuel (root_of targetDir) (templateDir_of a) file None) w =
    Some (r, w') ->
  console w' = console w /\
  exists made rest,
    l = made ++ rest /\
    calls w' = calls w ++ map (copy_call a targetDir) made /\
    (forall file, In file made -> renamed file = Some (written_as file)) /\
    (forall u, r = Ok u -> rest = []).
Proof.
  induction l as [|f t IH]; intros w r w'.
  - intros H. inversion H; subst. split; [reflexivity|].
    exists [], []. cbn [map].
    split; [reflexivity|].
    split; [symmetry; apply app_nil_r|].
    split; [intros file []|intros; reflexivity].
  - cbn [for_each]. rewrite andThen_run.
    destruct (write fuel (root_of targetDir) (templateDir_of a) f None w)
      as [[[u|err] w1]|] eqn:W; [| |discriminate];
      apply write_trace in W as (C & [(N & E & K & _)|(N & K)]);
      try discriminate.
    + intros H. apply IH in H as (C' & made & rest & -> & K' & O & R).
      split; [congruence|]. exists (f :: made), rest.
      split; [reflexivity|]. split; [|split; [|exact R]].
      * rewrite K', K, <- app_assoc. reflexivity.
      * intros file [<-|Hin]; [exact N|apply O, Hin].
    + intros H. inversion H; subst. split; [exact C|].
      exists [], (f :: t). split; [reflexivity|].
      split; [rewrite K; symmetry; apply app_nil_r|].
      split; [intros file []|discriminate].
    + intros H. inversion H; subst. split; [exact C|].
      exists [f], t. split; [reflexivity|]. split; [exact K|].
      split; [intros file [<-|[]]; exact N|discriminate].
Qed.

Lemma announce_run targetDir w :
  announce targetDir w =
  Some (Ok tt,
        {| files := files w;
           console := console w ++ done_line :: cd_lines targetDir ++ run_lines;
           calls := calls w |}).
Proof.
  unfold announce, cd_lines, run_lines, done_line.
  destruct (negb (same_path (root_of targetDir) (cwd e)));
    destruct (eqs pkgManager (str "yarn"));
    unfold andThen, console_log, pure; cbn [files console calls];
    rewrite <- ?app_assoc; reflexivity.
Qed.

Lemma rewritten_not_empty text name content :
  rewrite_manifest text name = Ok content -> is_nil content = false.
Proof.
  unfold Json.rewrite_manifest.
  destruct (Json.JSON_parse number_of_token text) as [pkg|]; [|discriminate].
  cbn [bind]. destruct (Json.assign_name pkg name) as [pkg'|]; [|discriminate].
  cbn [bind]. intros H. inversion H.
  destruct (Json.JSON_stringify token_of_number pkg'); reflexivity.
Qed.

(** What a run of [materialize] leaves behind: the calls it made, the
    lines it wrote, and on success the manifest. *)
Lemma materialize_trace fuel a targetDir w r w' :
  materialize fuel a targetDir w = Some (r, w') ->
  exists first made last said,
    calls w' =
      calls w ++ first ++ map (copy_call a targetDir) made ++ last /\
    console w' = console w ++ said /\
    ((first = [EmptyDir (root_of targetDir)] /\
      truthy (get a overwrite) = true) \/
     (first = [MkdirSync (root_of targetDir)] /\
      truthy (get a overwrite) = false /\
      existsSync (files w) (root_of targetDir) = false) \/
     (first = [] /\ truthy (get a overwrite) = false /\
      existsSync (files w) (root_of targetDir) = true)) /\
    ~ In package_json made /\
    (forall file, In file made -> renamed file = Some (written_as file)) /\
    match r with
    | Ok _ =>
        last = [manifest_call targetDir] /\
        said = scaffolding_line targetDir :: done_line
               :: cd_lines targetDir ++ run_lines /\
        exists text content,
          rewrite_manifest text (name_of_run a targetDir) = Ok content /\
          readFileSync (files w') (root_of targetDir ++ [package_json]) =
            Ok content
    | Throw _ =>
        (last = [] \/ last = [manifest_call targetDir]) /\
        (said = [] \/ said = [scaffolding_line targetDir])
    end.
Proof.
  rewrite materialize_steps, andThen_run.
  destruct (prepare a targetDir w) as [[[u1|err] w1]|] eqn:E1;
    [| |discriminate]; apply prepare_trace in E1 as (C1 & K1).
  2:{ intros H. inversion H; subst.
      assert (F : exists first,
                calls w' = calls w ++ first /\
                ((first = [EmptyDir (root_of targetDir)] /\
                  truthy (get a overwrite) = true) \/
                 (first = [MkdirSync (root_of targetDir)] /\
                  truthy (get a overwrite) = false /\
                  existsSync (files w) (root_of targetDir) = false) \/
                 (first = [] /\ truthy (get a overwrite) = false /\
                  existsSync (files w) (root_of targetDir) = true))).
      { destruct K1 as [(K & T)|[(K & T)|(K & T)]]; eexists; split;
          try exact K; auto.
        rewrite app_nil_r. exact K. }
      destruct F as (first & K & F).
      exists first, [], [], []. cbn [map]. rewrite !app_nil_r.
      repeat split; auto. intros file []. }
  assert (F : exists first,
            calls w1 = calls w ++ first /\
            ((first = [EmptyDir (root_of targetDir)] /\
              truthy (get a overwrite) = true) \/
             (first = [MkdirSync (root_of targetDir)] /\
              truthy (get a overwrite) = false /\
              existsSync (files w) (root_of targetDir) = false) \/
             (first = [] /\ truthy (get a overwrite) = false /\
              existsSync (files w) (root_of targetDir) = true))).
  { destruct K1 as [(K & T)|[(K & T)|(K & T)]]; eexists; split;
      try exact K; auto.
    rewrite app_nil_r. exact K. }
  clear K1. destruct F as (first & K1 & F).
  rewrite andThen_run. unfold console_log at 1.
  set (w2 := {| files := files w1;
                console := console w1 ++ [scaffolding_line targetDir];
                calls := calls w1 |}).
  assert (C2 : console w2 = console w ++ [scaffolding_line targetDir])
    by (cbn [console w2]; rewrite C1; reflexivity).
  assert (K2 : calls w2 = calls w ++ first) by exact K1.
  clearbody w2.
  assert (Fail : forall made last w',
            console w' = console w2 ->
            calls w' = calls w2 ++ map (copy_call a targetDir) made ++ last ->
            ~ In package_json made ->
            (forall file, In file made ->
               renamed file = Some (written_as file)) ->
            last = [] \/ last = [manifest_call targetDir] ->
            forall err,
            exists first made last said,
              calls w' =
                calls w ++ first ++ map (copy_call a targetDir) made ++ last /\
              console w' = console w ++ said /\
              ((first = [EmptyDir (root_of targetDir)] /\
                truthy (get a overwrite) = true) \/
               (first = [MkdirSync (root_of targetDir)] /\
                truthy (get a overwrite) = false /\
                existsSync (files w) (root_of targetDir) = false) \/
               (first = [] /\ truthy (get a overwrite) = false /\
                existsSync (files w) (root_of targetDir) = true)) /\
              ~ In package_json made /\
              (forall file, In file made ->
                 renamed file = Some (written_as file)) /\
              match @Throw unit err with
              | Ok _ =>
                  last = [manifest_call targetDir] /\
                  said = scaffolding_line targetDir :: done_line
                         :: cd_lines targetDir ++ run_lines /\
                  exists text content,
                    rewrite_manifest text (name_of_run a targetDir) =
                      Ok content /\
                    readFileSync (files w')
                      (root_of targetDir ++ [package_json]) = Ok content
              | Throw _ =>
                  (last = [] \/ last = [manifest_call targetDir]) /\
                  (said = [] \/ said = [scaffolding_line targetDir])
              end).
  { intros made last w0 C K N O L err0.
    exists first, made, last, [scaffolding_line targetDir].
    split; [rewrite K, K2, <- app_assoc; reflexivity|].
    split; [congruence|]. split; [exact F|]. split; [exact N|].
    split; [exact O|]. auto. }
  rewrite andThen_run. unfold reading_call at 1.
  destruct (readdirSync (files w2) (templateDir_of a)) as [listed|err].
  2:{ intros H. inversion H; subst.
      apply (Fail [] []); auto; [|intros file []].
      rewrite app_nil_r. reflexivity. }
  rewrite andThen_run.
  destruct (for_each _ _ w2) as [[[u3|err] w3]|] eqn:E3; [| |discriminate];
    apply copies_trace in E3 as (C3 & made & rest & EL & K3 & O3 & R3).
  2:{ intros H. inversion H; subst.
      apply (Fail made []); auto.
      - rewrite app_nil_r. exact K3.
      - intros Hin. assert (Hin' : In package_json (made ++ rest))
          by (apply in_or_app; left; exact Hin).
        rewrite <- EL in Hin'. apply filter_In in Hin' as [_ Hn].
        rewrite eqs_refl in Hn. discriminate. }
  rewrite (R3 u3 eq_refl), app_nil_r in EL. clear R3 rest.
  assert (N : ~ In package_json made).
  { intros Hin. rewrite <- EL in Hin. apply filter_In in Hin as [_ Hn].
    rewrite eqs_refl in Hn. discriminate. }
  clear EL.
  rewrite andThen_run. unfold reading_call at 1.
  destruct (readFileSync (files w3) (templateDir_of a ++ [package_json]))
    as [text|err].
  2:{ intros H. inversion H; subst.
      apply (Fail made []); auto. rewrite app_nil_r. exact K3. }
  rewrite andThen_run. unfold reading_call at 1.
  destruct (rewrite_manifest text (name_of_run a targetDir))
    as [content|err] eqn:RW.
  2:{ intros H. inversion H; subst.
      apply (Fail made []); auto. rewrite app_nil_r. exact K3. }
  rewrite andThen_run. unfold write. rewrite renamed_package_json.
  rewrite (rewritten_not_empty _ _ RW). cbn [negb].
  destruct (changing_call _ _ w3) as [[[u5|err] w5]|] eqn:E5;
    [| |discriminate]; apply changing_call_trace in E5 as (C5 & K5 & W5).
  2:{ intros H. inversion H; subst.
      apply (Fail made [manifest_call targetDir]); auto.
      - congruence.
      - rewrite K5, K3, <- app_assoc. reflexivity. }
  rewrite announce_run. intros H. inversion H; subst. clear H.
  cbn [files console calls].
  exists first, made, [manifest_call targetDir],
    (scaffolding_line targetDir :: done_line
     :: cd_lines targetDir ++ run_lines).
  split; [rewrite K5, K3, K2, <- !app_assoc; reflexivity|].
  split; [rewrite C5, C3, C2, <- app_assoc; reflexivity|].
  split; [exact F|]. split; [exact N|]. split; [exact O3|].
  split; [reflexivity|]. split; [reflexivity|].
  exists text, content. split; [exact RW|].
  apply atomically_returns in W5. unfold writeFileSync in W5.
  unfold readFileSync. rewrite (write_at_reads _ _ _ _ W5). reflexivity.
Qed.

Lemma init_resolved fuel script w a targetDir :
  final (ask script (files w)) = Resolved a targetDir ->
  init fuel script w =
    match materialize fuel a targetDir w with
    | Some (Ok _, w') => Some (Returned, w')
    | Some (Throw err, w') => Some (Rejected err, w')
    | None => None
    end.
Proof. intros H. unfold Workflow.init. rewrite H. reflexivity. Qed.

(** X18: a target that is a regular file.  When the target directory
    given on the command line is found by the file system and is a
    regular file, the emptiness check of the overwrite question throws
    ENOTDIR inside the [try]; [init] writes the message of that error,
    returns as after a cancellation, and has changed nothing, whatever
    the user would type. *)
Theorem target_is_a_file (fuel : nat) (script : list response) (w : world)
    (p : path) (content : jsstring) :
  present argTargetDir = true ->
  locate (files w) (cwd e) (or_default argTargetDir) = inr p ->
  lookup (files w) p = Some (File content) ->
  init fuel script w =
    Some (Returned,
          {| files := files w;
             console :=
               console w
               ++ [runtime_message
                     (SystemErrorAt ENOTDIR (or_default argTargetDir))];
             calls := calls w |}).
Proof.
  intros P W L.
  assert (T : final (ask script (files w)) =
              Threw (SystemErrorAt ENOTDIR (or_default argTargetDir))).
  { unfold Workflow.ask, Workflow.questions.
    rewrite prompts_cons. cbn [q_type Workflow.ask_projectName]. rewrite P.
    rewrite prompts_cons. cbn [q_type Workflow.ask_overwrite].
    unfold existsSync_at, at_name. rewrite W.
    unfold existsSync, isEmpty, readdirSync. rewrite L. reflexivity. }
  unfold Workflow.init. rewrite T. reflexivity.
Qed.

(** X19: the lines of a run whose questions resolved.  When [init]
    returns it has written the scaffolding line, the line that says it
    is done, the [cd] line unless the root is the working directory, and
    the two lines for the package manager: [yarn] and [yarn dev] for
    yarn, [install] and [run dev] after the name of any other, [npm]
    when the user agent names none.  When [init] is rejected it has
    written nothing or the scaffolding line alone: it never says it is
    done unless every file was written. *)
Theorem lines_of_a_run (fuel : nat) (script : list response) (w w' : world)
    (a : answers) (targetDir : jsstring) (st : status) :
  final (ask script (files w)) = Resolved a targetDir ->
  init fuel script w = Some (st, w') ->
  (st = Returned /\
   console w' =
     console w ++ scaffolding_line targetDir :: done_line
                  :: cd_lines targetDir ++ run_lines) \/
  (exists err, st = Rejected err /\
     (console w' = console w \/
      console w' = console w ++ [scaffolding_line targetDir])).
Proof.
  intros H. rewrite (init_resolved _ _ _ H).
  destruct (materialize fuel a targetDir w) as [[[u|err] w1]|] eqn:M;
    [| |discriminate];
    apply materialize_trace in M
      as (first & made & last & said & _ & C & _ & _ & _ & R);
    intros E; inversion E; subst; clear E.
  - left. destruct R as (_ & -> & _). auto.
  - right. exists err. split; [reflexivity|].
    destruct R as (_ & [->| ->]); [left|right]; rewrite C;
      [apply app_nil_r|reflexivity].
Qed.

(** X20: the calls of a run whose questions resolved.  [init] changes
    the file system through nothing but: one [emptyDir] of the root,
    when the overwrite was confirmed, or one [mkdirSync] of the root,
    when the root does not exist; then copies of entries of the template
    directory to entries of the root under their names after renaming,
    never of [package.json] and never of an entry whose name is a member
    of [Object.prototype]; then one [writeFileSync] of [package.json] in
    the root, which has been made whenever [init] returns. *)
Theorem calls_of_a_run (fuel : nat) (script : list response) (w w' : world)
    (a : answers) (targetDir : jsstring) (st : status) :
  final (ask script (files w)) = Resolved a targetDir ->
  init fuel script w = Some (st, w') ->
  exists first made last,
    calls w' =
      calls w ++ first ++ map (copy_call a targetDir) made ++ last /\
    ((first = [EmptyDir (root_of targetDir)] /\
      get a overwrite = VBool true) \/
     (first = [MkdirSync (root_of targetDir)] /\
      get a overwrite = VUndefined /\
      existsSync (files w) (root_of targetDir) = false) \/
     (first = [] /\ get a overwrite = VUndefined /\
      existsSync (files w) (root_of targetDir) = true)) /\
    ~ In package_json made /\
    (last = [] \/ last = [manifest_call targetDir]) /\
    (st = Returned -> last = [manifest_call targetDir]) /\
    (forall file, In file made ->
       inherited file = false /\ renamed file = Some (written_as file)).
Proof.
  intros H. rewrite (init_resolved _ _ _ H).
  assert (O : (truthy (get a overwrite) = true -> get a overwrite = VBool true)
              /\ (truthy (get a overwrite) = false ->
                  get a overwrite = VUndefined)).
  { apply resolved_run in H as (pn & ow & pk & tp & -> & _).
    destruct (get_answers_of pn ow pk tp) as (_ & -> & _).
    destruct ow; split; intros T; try reflexivity; discriminate. }
  destruct O as [O1 O2].
  assert (I : forall file,
            renamed file = Some (written_as file) ->
            inherited file = false /\ renamed file = Some (written_as file)).
  { intros file E. split; [|exact E]. unfold renamed in E.
    destruct (existsb (eqs file) object_prototype_members) eqn:X;
      [|reflexivity].
    destruct (List.find _ renameFiles) as [r|] eqn:Fr; [|discriminate].
    exfalso. clear E. cbn [renameFiles List.find fst] in Fr.
    destruct (eqs (str "_gitignore") file) eqn:G; [|discriminate].
    apply eqs_eq in G. subst file. discriminate X. }
  destruct (materialize fuel a targetDir w) as [[[u|err] w1]|] eqn:M;
    [| |discriminate];
    apply materialize_trace in M
      as (first & made & last & said & K & _ & F & N & W & R);
    intros E; inversion E; subst; clear E;
    exists first, made, last; (split; [exact K|]);
    (split; [destruct F as [(F & T)|[(F & T & X)|(F & T & X)]]; auto 6|]);
    (split; [exact N|]).
  - destruct R as (-> & _). auto.
  - destruct R as (R & _). split; [exact R|].
    split; [discriminate|auto].
Qed.

(** X21: the manifest of a run.  When the questions have resolved and
    [init] returns, the file [package.json] in the root holds the text
    that the rewriting of a manifest gives for the name of the run, and
    that name is an accepted package name. *)
Theorem manifest_of_a_run (fuel : nat) (script : list response)
    (w w' : world) (a : answers) (targetDir : jsstring) :
  final (ask script (files w)) = Resolved a targetDir ->
  init fuel script w = Some (Returned, w') ->
  isValidPackageName (name_of_run a targetDir) = true /\
  exists text content,
    rewrite_manifest text (name_of_run a targetDir) = Ok content /\
    readFileSync (files w') (root_of targetDir ++ [package_json]) = Ok content.
Proof.
  intros H. rewrite (init_resolved _ _ _ H). intros I. split.
  - apply resolved_run in H as (pn & ow & pk & tp & -> & _ & _ & Hpk & _).
    unfold name_of_run.
    destruct (get_answers_of pn ow pk tp) as (_ & _ & -> & _).
    destruct pk as [p|]; cbn [package_answer] in Hpk.
    + destruct Hpk as [_ Hp]. cbn [as_string Json.manifest_name].
      destruct p; [discriminate|exact Hp].
    + exact Hpk.
  - destruct (materialize fuel a targetDir w) as [[[u|err] w1]|] eqn:M;
      [|discriminate|discriminate].
    apply materialize_trace in M
      as (first & made & last & said & _ & _ & _ & _ & _ & R).
    inversion I; subst. destruct R as (_ & _ & R). exact R.
Qed.

(** ** What [init] leaves alone *)












(** ** Fuel *)

(** An action that gives what another gives, wherever that gives
    something. *)
Definition extends (A : Type) (m m' : action A) : Prop :=
  forall w r, m w = Some r -> m' w = Some r.

Lemma extends_refl (A : Type) (m : action A) : extends m m.
Proof. intros w r H. exact H. Qed.

Lemma extends_andThen (A B : Type) (m m' : action A) (k k' : A -> action B) :
  extends m m' -> (forall x, extends (k x) (k' x)) ->
  extends (andThen m k) (andThen m' k').
Proof.
  intros Hm Hk w r. rewrite !andThen_run.
  destruct (m w) as [[[x|err] w1]|] eqn:E; [| |discriminate];
    rewrite (Hm _ _ E); [apply Hk|auto].
Qed.

Lemma extends_for_each (A : Type) (l : list A) (body body' : A -> action unit) :
  (forall x, extends (body x) (body' x)) ->
  extends (for_each l body) (for_each l body').
Proof.
  intros Hb. induction l as [|x t IH]; cbn [for_each].
  - apply extends_refl.
  - apply extends_andThen; [apply Hb|intros _; exact IH].
Qed.

Lemma extends_write fuel fuel' root templateDir file content :
  fuel <= fuel' ->
  extends (write fuel root templateDir file content)
    (write fuel' root templateDir file content).
Proof.
  intros L. unfold write. destruct (renamed file) as [name|];
    [|apply extends_refl].
  assert (C : extends
                (changing_call
                   (Copy (templateDir ++ [file]) (root ++ [name]))
                   (copy fuel (templateDir ++ [file]) (root ++ [name])))
                (changing_call
                   (Copy (templateDir ++ [file]) (root ++ [name]))
                   (copy fuel' (templateDir ++ [file]) (root ++ [name])))).
  { intros w r. unfold changing_call.
    destruct (copy fuel _ _ (files w)) as [[r0 s0]|] eqn:E; [|discriminate].
    rewrite (copy_more _ _ _ E L). auto. }
  destruct content as [c|]; [|exact C].
  destruct (negb (is_nil c)); [apply extends_refl|exact C].
Qed.

(** A run that has come to an end with some fuel comes to the same end
    with more. *)
Lemma init_more_fuel fuel fuel' script w r :
  init fuel script w = Some r -> fuel <= fuel' ->
  init fuel' script w = Some r.
Proof.
  unfold Workflow.init. intros H L.
  destruct (final (ask script (files w))) as [a targetDir|thrown|];
    [|exact H|exact H].
  assert (M : extends (materialize fuel a targetDir)
                (materialize fuel' a targetDir)).
  { rewrite !materialize_steps.
    apply extends_andThen; [apply extends_refl|]. intros _.
    apply extends_andThen; [apply extends_refl|]. intros _.
    apply extends_andThen; [apply extends_refl|]. intros listed.
    apply extends_andThen.
    { apply extends_for_each. intros file. apply extends_write, L. }
    intros _. apply extends_andThen; [apply extends_refl|]. intros manifest.
    apply extends_andThen; [apply extends_refl|]. intros content.
    apply extends_andThen; [apply extends_write, L|].
    intros _. apply extends_refl. }
  destruct (materialize fuel a targetDir w) as [[[u|err] w1]|] eqn:E;
    [| |discriminate]; rewrite (M _ _ E); exact H.
Qed.

(** ** A fresh directory *)

(** What is scaffolded from the entries of a template: every entry but
    [package.json] under its name after renaming, in the order of the
    template, and then the manifest written. *)
Definition ren (entry : jsstring * node) : jsstring * node :=
  (written_as (fst entry), snd entry).

Definition kept (tes : list (jsstring * node)) : list (jsstring * node) :=
  filter (fun entry => negb (eqs (fst entry) package_json)) tes.

Definition scaffold (tes : list (jsstring * node)) (content : jsstring)
  : list (jsstring * node) :=
  map ren (kept tes) ++ [(package_json, File content)].

Lemma filter_names tes :
  filter (fun f => negb (eqs f package_json)) (map fst tes) =
  map fst (kept tes).
Proof.
  induction tes as [|[k v] t IH]; [reflexivity|].
  cbn [map fst kept filter]. destruct (negb (eqs k package_json));
    cbn [map fst]; [f_equal|]; exact IH.
Qed.

Lemma written_as_package_json f : written_as f = package_json -> f = package_json.
Proof.
  unfold written_as, renamed, renameFiles. cbn [List.find fst snd].
  destruct (eqs (str "_gitignore") f); [discriminate|].
  destruct (existsb (eqs f) object_prototype_members); auto.
Qed.

Lemma kept_find tes entry :
  NoDup (map fst tes) -> In entry (kept tes) ->
  find (fst entry) tes = Some (snd entry).
Proof.
  intros N Hin. apply filter_In in Hin as [Hin _].
  apply in_split in Hin as (pre & post & ->). destruct entry as [k v].
  apply (find_middle _ _ _ _ N).
Qed.

(** What [write] needs of an entry of the template to copy it. *)
Definition copied (fuel : nat) (tes : list (jsstring * node))
    (entry : jsstring * node) : Prop :=
  find (fst entry) tes = Some (snd entry) /\
  well_formed (snd entry) = true /\
  depth (snd entry) < fuel /\
  inherited (fst entry) = false.

Lemma kept_copied fuel tes entry :
  well_formed (Dir tes) = true ->
  depth (Dir tes) <= fuel ->
  (forall entry, In entry tes -> inherited (fst entry) = false) ->
  In entry (kept tes) -> copied fuel tes entry.
Proof.
  intros W B O Hin. apply well_formed_dir in W as [Nt Wt].
  assert (Hin' : In entry tes) by (apply filter_In in Hin as [Hin _]; exact Hin).
  split; [apply (kept_find _ _ Nt Hin)|].
  rewrite Forall_forall in Wt. split; [apply (Wt _ Hin')|].
  split; [|apply (O _ Hin')].
  assert (B' : depth (Dir tes) < S fuel) by lia.
  apply depth_dir in B'. rewrite Forall_forall in B'. apply (B' _ Hin').
Qed.

Section Fresh.

Variables (fuel : nat) (a : answers) (targetDir : jsstring).
Variables (parent : path) (name : jsstring).
Variables (s : fs) (es tes : list (jsstring * node)).
Hypothesis root_is : root_of targetDir = parent ++ [name].
Hypothesis parent_there : lookup s parent = Some (Dir es).
Hypothesis name_free : find name es = None.
Hypothesis template_there : lookup s (templateDir_of a) = Some (Dir tes).
Hypothesis not_inside : forall rest, parent ++ [name] <> templateDir_of a ++ rest.

(** The file system while the root is being filled. *)
Definition filled (made : list (jsstring * node)) : fs :=
  put parent (Dir (es ++ [(name, Dir made)])) s.

Lemma filled_template file n made :
  find file tes = Some n ->
  lookup (filled made) (templateDir_of a ++ [file]) = Some n.
Proof.
  intros F. apply (lookup_put_fresh name (Dir made) parent s _
                     parent_there name_free).
  - rewrite lookup_app, template_there. cbn [lookup]. rewrite F. reflexivity.
  - intros rest H. apply (not_inside ([file] ++ rest)).
    rewrite H, <- app_assoc. reflexivity.
Qed.

Lemma copy_step made file n w :
  files w = filled (map ren made) ->
  copied fuel tes (file, n) ->
  find (written_as file) (map ren made) = None ->
  write fuel (root_of targetDir) (templateDir_of a) file None w =
  Some (Ok tt,
        {| files := filled (map ren made ++ [(written_as file, n)]);
           console := console w;
           calls := calls w ++ [copy_call a targetDir file] |}).
Proof.
  intros E (Ft & Wn & Dn & On) Fm. cbn [fst snd] in *.
  unfold write. rewrite (renamed_own _ On).
  unfold changing_call, copy_call. rewrite E, root_is.
  rewrite (@copy_fresh fuel n (templateDir_of a ++ [file]) (parent ++ [name])
             (written_as file) (filled (map ren made)) (map ren made)
             (@filled_template file n (map ren made) Ft) Wn
             (filling_lookup parent name (map ren made) s
                parent_there name_free) Fm
             (@not_below (templateDir_of a) (parent ++ [name]) file
                (written_as file) not_inside) Dn).
  unfold filled at 1.
  rewrite (put_entry parent name (map ren made) (written_as file, n) s
             parent_there name_free).
  reflexivity.
Qed.

Lemma copies_fresh : forall todo made w,
  (forall entry, In entry todo -> copied fuel tes entry) ->
  NoDup (map fst (map ren (made ++ todo))) ->
  files w = filled (map ren made) ->
  for_each (map fst todo)
    (fun file =>
       write fuel (root_of targetDir) (templateDir_of a) file None) w =
  Some (Ok tt,
        {| files := filled (map ren (made ++ todo));
           console := console w;
           calls := calls w ++ map (copy_call a targetDir) (map fst todo) |}).
Proof.
  induction todo as [|[file n] t IH]; intros made w T N E.
  - cbn [map for_each]. unfold pure. rewrite !app_nil_r, <- E.
    destruct w; reflexivity.
  - cbn [map fst for_each]. rewrite andThen_run.
    pose proof (T (file, n) (or_introl eq_refl)) as Tn.
    pose proof N as N'. rewrite map_app in N'.
    change (map ren ((file, n) :: t))
      with ((written_as file, n) :: map ren t) in N'.
    destruct (find_middle _ _ _ _ N') as [Fm _]. clear N'.
    rewrite (@copy_step made file n w E Tn Fm).
    rewrite (IH (made ++ [(file, n)])).
    + cbn [files console calls]. rewrite <- !app_assoc. reflexivity.
    + intros entry Hin. apply T. right. exact Hin.
    + rewrite <- app_assoc. exact N.
    + cbn [files]. rewrite map_app. reflexivity.
Qed.

End Fresh.

(** A run into a fresh directory, up to the manifest: the root is made
    and the entries of the template are copied. *)
Lemma fresh_copies (fuel : nat) (script : list response) (w : world)
    (a : answers) (targetDir : jsstring) (parent : path) (name : jsstring)
    (es tes : list (jsstring * node)) :
  final (ask script (files w)) = Resolved a targetDir ->
  starts_in (chr "/") targetDir = false ->
  root_of targetDir = parent ++ [name] ->
  lookup (files w) parent = Some (Dir es) ->
  find name es = None ->
  lookup (files w) (templateDir_of a) = Some (Dir tes) ->
  well_formed (Dir tes) = true ->
  depth (Dir tes) <= fuel ->
  (forall entry, In entry tes -> inherited (fst entry) = false) ->
  no_twins (map written_as (map fst (kept tes))) = true ->
  (forall rest, parent ++ [name] <> templateDir_of a ++ rest) ->
  materialize fuel a targetDir w =
  (manifest <~
     reading_call
       (fun s => readFileSync s (templateDir_of a ++ [package_json])) ;;
   content <~
     reading_call
       (fun _ => rewrite_manifest manifest (name_of_run a targetDir)) ;;
   write fuel (root_of targetDir) (templateDir_of a) package_json
     (Some content) ;;;
   announce targetDir)
    {| files := filled parent name (files w) es (map ren (kept tes));
       console := console w ++ [scaffolding_line targetDir];
       calls :=
         calls w ++ MkdirSync (root_of targetDir)
                    :: map (copy_call a targetDir) (map fst (kept tes)) |}.
Proof.
  intros H Rel R P F T W Dp Own N B.
  rewrite materialize_steps.
  assert (X : existsSync (files w) (root_of targetDir) = false).
  { unfold existsSync. rewrite R, lookup_app, P. cbn [lookup].
    rewrite F. reflexivity. }
  assert (O : truthy (get a overwrite) = false).
  { apply resolved_run in H as (pn & ow & pk & tp & -> & _ & How & _).
    destruct (get_answers_of pn ow pk tp) as (_ & -> & _).
    destruct ow; [|reflexivity]. cbn [overwrite_answer] in How.
    destruct How as [How _]. unfold existsSync_at in How.
    destruct (locate (files w) (cwd e) targetDir) as [code|p] eqn:L;
      [discriminate|].
    apply (locate_relative _ _ _ L) in Rel. subst p.
    unfold root_of in X. congruence. }
  rewrite andThen_run. unfold prepare at 1. rewrite O, andThen_run.
  unfold reading_call at 1. rewrite X. cbn [negb].
  unfold changing_call at 1, atomically, mkdirSync. rewrite R at 1 2.
  rewrite (mkdir_at_fresh (parent ++ [name]) name parent (files w) P F).
  rewrite andThen_run. unfold console_log at 1. cbn [files console calls].
  rewrite andThen_run. unfold reading_call at 1. cbn [files].
  unfold readdirSync.
  rewrite (lookup_put_fresh name (Dir []) parent (files w)
             (templateDir_of a) P F T B).
  rewrite andThen_run, filter_names.
  rewrite (copies_fresh a targetDir parent name (files w) R P F T B
             (kept tes) []).
  2:{ intros entry Hin. apply (@kept_copied fuel tes entry W Dp Own Hin). }
  2:{ cbn [app]. rewrite map_map. cbn [ren fst].
      rewrite <- (map_map fst written_as). apply no_twins_NoDup, N. }
  2:{ reflexivity. }
  cbn [app files console calls]. rewrite R.
  repeat (rewrite <- app_assoc; cbn [app]). reflexivity.
Qed.

(** X11: a manifest that cannot be rewritten.  [init] copies the entries
    of the template before it reads the manifest.  So when the questions
    have resolved for a relative target directory whose root does not
    exist, under the conditions on the template of a run into a fresh
    directory, and the text of the manifest of the template is one that
    the rewriting throws on (it is no JSON text, or JSON for what takes
    no property), [init] is rejected with what was thrown, and leaves
    the root made and filled with the entries of the template under
    their names after renaming, but without [package.json]; it has
    written the scaffolding line and not that it is done. *)
Theorem manifest_not_rewritten (fuel : nat) (script : list response)
    (w : world) (a : answers) (targetDir : jsstring) (parent : path)
    (name : jsstring) (es tes : list (jsstring * node))
    (text : jsstring) (err : exn) :
  final (ask script (files w)) = Resolved a targetDir ->
  starts_in (chr "/") targetDir = false ->
  root_of targetDir = parent ++ [name] ->
  lookup (files w) parent = Some (Dir es) ->
  find name es = None ->
  lookup (files w) (templateDir_of a) = Some (Dir tes) ->
  well_formed (Dir tes) = true ->
  depth (Dir tes) <= fuel ->
  (forall entry, In entry tes -> inherited (fst entry) = false) ->
  no_twins (map written_as (map fst (kept tes))) = true ->
  (forall rest, parent ++ [name] <> templateDir_of a ++ rest) ->
  find package_json tes = Some (File text) ->
  rewrite_manifest text (name_of_run a targetDir) = Throw err ->
  init fuel script w =
    Some (Rejected err,
          {| files :=
               put parent (Dir (es ++ [(name, Dir (map ren (kept tes)))]))
                 (files w);
             console := console w ++ [scaffolding_line targetDir];
             calls :=
               calls w ++ MkdirSync (root_of targetDir)
                          :: map (copy_call a targetDir)
                               (map fst (kept tes)) |}) /\
  find package_json (map ren (kept tes)) = None.
Proof.
  intros H Rel R P F T W Dp Own N B Fp RW. split.
  - rewrite (init_resolved _ _ _ H).
    rewrite (@fresh_copies fuel script w a targetDir parent name es tes
             H Rel R P F T W Dp Own N B).
    rewrite andThen_run. unfold reading_call at 1. cbn [files].
    unfold readFileSync.
    rewrite (filled_template a parent name (files w) P F T B
               package_json (map ren (kept tes)) Fp).
    rewrite andThen_run. unfold reading_call at 1. rewrite RW.
    reflexivity.
  - apply find_none. intros Hin. rewrite map_map in Hin.
    apply in_map_iff in Hin as (entry & E & Hin). cbn [ren fst] in E.
    apply written_as_package_json in E. apply filter_In in Hin as [_ Hn].
    rewrite E, eqs_refl in Hn. discriminate.
Qed.

(** X24: scaffolding into a fresh directory.  When the questions have
    resolved for a relative target directory, the root does not exist
    and its parent is a directory, the template directory has entries
    with distinct names, at every level and after renaming, none of them
    named as a member of [Object.prototype], and does not contain the
    root, and the manifest of the template is rewritten to some text,
    then [init] returns, with fuel for the depth of the template; the
    root is a new last entry of its parent and holds the entries of the
    template but [package.json], in their order and under their names
    after renaming, and then [package.json] with the text rewritten; the
    rest of the file system is as it was. *)
Theorem scaffold_in_fresh_directory (fuel : nat) (script : list response)
    (w : world) (a : answers) (targetDir : jsstring) (parent : path)
    (name : jsstring) (es tes : list (jsstring * node))
    (text content : jsstring) :
  final (ask script (files w)) = Resolved a targetDir ->
  starts_in (chr "/") targetDir = false ->
  root_of targetDir = parent ++ [name] ->
  lookup (files w) parent = Some (Dir es) ->
  find name es = None ->
  lookup (files w) (templateDir_of a) = Some (Dir tes) ->
  well_formed (Dir tes) = true ->
  depth (Dir tes) <= fuel ->
  (forall entry, In entry tes -> inherited (fst entry) = false) ->
  no_twins (map written_as (map fst (kept tes))) = true ->
  (forall rest, parent ++ [name] <> templateDir_of a ++ rest) ->
  find package_json tes = Some (File text) ->
  rewrite_manifest text (name_of_run a targetDir) = Ok content ->
  init fuel script w =
    Some (Returned,
          {| files :=
               put parent (Dir (es ++ [(name, Dir (scaffold tes content))]))
                 (files w);
             console :=
               console w ++ scaffolding_line targetDir :: done_line
                            :: cd_lines targetDir ++ run_lines;
             calls :=
               calls w ++ MkdirSync (root_of targetDir)
                          :: map (copy_call a targetDir) (map fst (kept tes))
                          ++ [manifest_call targetDir] |}).
Proof.
  intros H Rel R P F T W Dp Own N B Fp RW.
  rewrite (init_resolved _ _ _ H).
  rewrite (@fresh_copies fuel script w a targetDir parent name es tes
             H Rel R P F T W Dp Own N B).
  rewrite andThen_run. unfold reading_call at 1. cbn [files].
  unfold readFileSync.
  rewrite (filled_template a parent name (files w) P F T B
             package_json (map ren (kept tes)) Fp).
  rewrite andThen_run. unfold reading_call at 1. rewrite RW.
  rewrite andThen_run. unfold write. rewrite renamed_package_json.
  rewrite (rewritten_not_empty _ _ RW). cbn [negb].
  unfold changing_call at 1, atomically. cbn [files console calls].
  unfold writeFileSync. rewrite R at 1 2.
  rewrite (write_at_fresh ((parent ++ [name]) ++ [package_json]) content
             package_json
             (parent ++ [name]) (filled parent name (files w) es
                                   (map ren (kept tes)))
             (filling_lookup parent name (map ren (kept tes)) (files w) P F)).
  2:{ apply find_none. intros Hin. rewrite map_map in Hin.
      apply in_map_iff in Hin as (entry & E & Hin). cbn [ren fst] in E.
      apply written_as_package_json in E. apply filter_In in Hin as [_ Hn].
      rewrite E, eqs_refl in Hn. discriminate. }
  rewrite announce_run. cbn [files console calls].
  unfold filled at 1.
  rewrite (put_entry parent name (map ren (kept tes))
             (package_json, File content) (files w) P F).
  unfold scaffold, manifest_call. rewrite R.
  repeat (rewrite <- app_assoc; cbn [app]). reflexivity.
Qed.

(** ** A directory that is there *)

Lemma diverge_below p q r : diverge p q -> diverge p (q ++ r).
Proof.
  intros (pre & x & y & p' & q' & -> & -> & H).
  exists pre, x, y, p', (q' ++ r). rewrite <- app_assoc. auto.
Qed.

(** Of two paths that diverge none leads to the other. *)
Lemma diverge_apart p q r r' : diverge p q -> p ++ r <> q ++ r'.
Proof.
  intros (pre & x & y & p' & q' & -> & -> & H) E.
  rewrite <- !app_assoc in E. apply app_inv_head in E.
  inversion E. contradiction.
Qed.

Section Fill.

Variables (fuel : nat) (a : answers) (targetDir : jsstring).
Variables (s : fs) (base tes : list (jsstring * node)).
Hypothesis root_there : lookup s (root_of targetDir) = Some (Dir base).
Hypothesis template_there : lookup s (templateDir_of a) = Some (Dir tes).
Hypothesis apart : diverge (root_of targetDir) (templateDir_of a).

(** The file system while the root is being filled. *)
Definition filled_root (made : list (jsstring * node)) : fs :=
  put (root_of targetDir) (Dir (base ++ made)) s.

Lemma filled_root_template file n made :
  find file tes = Some n ->
  lookup (filled_root made) (templateDir_of a ++ [file]) = Some n.
Proof.
  intros F. unfold filled_root.
  rewrite (lookup_put_diverge _ _ (diverge_below [file] apart)).
  rewrite lookup_app, template_there. cbn [lookup]. rewrite F. reflexivity.
Qed.

Lemma filled_root_lookup made :
  lookup (filled_root made) (root_of targetDir) = Some (Dir (base ++ made)).
Proof. apply (lookup_put _ _ _ root_there). Qed.

Lemma copy_into made file n w :
  files w = filled_root (map ren made) ->
  copied fuel tes (file, n) ->
  find (written_as file) (base ++ map ren made) = None ->
  write fuel (root_of targetDir) (templateDir_of a) file None w =
  Some (Ok tt,
        {| files := filled_root (map ren made ++ [(written_as file, n)]);
           console := console w;
           calls := calls w ++ [copy_call a targetDir file] |}).
Proof.
  intros E (Ft & Wn & Dn & On) Fm. cbn [fst snd] in *.
  unfold write. rewrite (renamed_own _ On).
  unfold changing_call, copy_call. rewrite E.
  rewrite (@copy_fresh fuel n (templateDir_of a ++ [file])
             (root_of targetDir) (written_as file)
             (filled_root (map ren made)) (base ++ map ren made)
             (@filled_root_template file n (map ren made) Ft) Wn
             (filled_root_lookup (map ren made)) Fm).
  - unfold filled_root. rewrite put_put, <- app_assoc. reflexivity.
  - intros rest. rewrite <- app_assoc. apply diverge_apart, apart.
  - exact Dn.
Qed.

Lemma copies_into : forall todo made w,
  (forall entry, In entry todo -> copied fuel tes entry) ->
  NoDup (map fst (base ++ map ren (made ++ todo))) ->
  files w = filled_root (map ren made) ->
  for_each (map fst todo)
    (fun file =>
       write fuel (root_of targetDir) (templateDir_of a) file None) w =
  Some (Ok tt,
        {| files := filled_root (map ren (made ++ todo));
           console := console w;
           calls := calls w ++ map (copy_call a targetDir) (map fst todo) |}).
Proof.
  induction todo as [|[file n] t IH]; intros made w T N E.
  - cbn [map for_each]. unfold pure. rewrite !app_nil_r, <- E.
    destruct w; reflexivity.
  - cbn [map fst for_each]. rewrite andThen_run.
    pose proof (T (file, n) (or_introl eq_refl)) as Tn.
    pose proof N as N'. rewrite (map_app ren) in N'.
    change (map ren ((file, n) :: t))
      with ((written_as file, n) :: map ren t) in N'.
    rewrite app_assoc in N'.
    destruct (find_middle _ _ _ _ N') as [Fm _]. clear N'.
    rewrite (@copy_into made file n w E Tn Fm).
    rewrite (IH (made ++ [(file, n)])).
    + cbn [files console calls]. rewrite <- !app_assoc. reflexivity.
    + intros entry Hin. apply T. right. exact Hin.
    + rewrite <- app_assoc. exact N.
    + cbn [files]. rewrite map_app. reflexivity.
Qed.

End Fill.

(** X25: scaffolding into a directory that is there.  Let the questions
    have resolved and the root be a directory.  What is kept of its
    entries is: the entries called [.git], when the overwrite was
    confirmed, and all of them otherwise.  When the template directory
    diverges from the root and has entries with distinct names at every
    level, none of them named as a member of [Object.prototype], the
    names kept and the names scaffolded are pairwise distinct, and the
    manifest of the template is rewritten to some text, then [init]
    returns, with fuel for the depth of the template; the root holds the
    entries kept and after them the entries of the template but
    [package.json], under their names after renaming, and [package.json]
    with the text rewritten; [emptyDir] was called exactly when the
    overwrite was confirmed, and [mkdirSync] was not. *)
Theorem scaffold_over_directory (fuel : nat) (script : list response)
    (w : world) (a : answers) (targetDir : jsstring)
    (found tes : list (jsstring * node)) (text content : jsstring) :
  final (ask script (files w)) = Resolved a targetDir ->
  lookup (files w) (root_of targetDir) = Some (Dir found) ->
  lookup (files w) (templateDir_of a) = Some (Dir tes) ->
  diverge (root_of targetDir) (templateDir_of a) ->
  well_formed (Dir tes) = true ->
  depth (Dir tes) <= fuel ->
  (forall entry, In entry tes -> inherited (fst entry) = false) ->
  let keep := if truthy (get a overwrite) then filter is_git found else found in
  no_twins (map fst (keep ++ scaffold tes content)) = true ->
  find package_json tes = Some (File text) ->
  rewrite_manifest text (name_of_run a targetDir) = Ok content ->
  init fuel script w =
    Some (Returned,
          {| files :=
               put (root_of targetDir) (Dir (keep ++ scaffold tes content))
                 (files w);
             console :=
               console w ++ scaffolding_line targetDir :: done_line
                            :: cd_lines targetDir ++ run_lines;
             calls :=
               calls w
               ++ (if truthy (get a overwrite)
                   then [EmptyDir (root_of targetDir)] else [])
               ++ map (copy_call a targetDir) (map fst (kept tes))
               ++ [manifest_call targetDir] |}).
Proof.
  intros H R T D W Dp Own keep N Fp RW.
  rewrite (init_resolved _ _ _ H), materialize_steps.
  apply no_twins_NoDup in N.
  set (s1 := put (root_of targetDir) (Dir keep) (files w)).
  assert (R1 : lookup s1 (root_of targetDir) = Some (Dir keep))
    by apply (lookup_put _ _ _ R).
  assert (T1 : lookup s1 (templateDir_of a) = Some (Dir tes))
    by (unfold s1; rewrite (lookup_put_diverge _ _ D); exact T).
  assert (E1 : prepare a targetDir w =
               Some (Ok tt,
                     {| files := s1; console := console w;
                        calls := calls w
                                 ++ (if truthy (get a overwrite)
                                     then [EmptyDir (root_of targetDir)]
                                     else []) |})).
  { unfold prepare, s1, keep. destruct (truthy (get a overwrite)).
    - unfold changing_call, atomically.
      rewrite (emptyDir_directory _ _ R). reflexivity.
    - rewrite andThen_run. unfold reading_call, existsSync. rewrite R.
      cbn [negb]. unfold pure. rewrite (put_same _ _ R), app_nil_r.
      destruct w; reflexivity. }
  rewrite andThen_run, E1.
  rewrite andThen_run. unfold console_log at 1. cbn [files console calls].
  rewrite andThen_run. unfold reading_call at 1. cbn [files].
  unfold readdirSync. rewrite T1.
  rewrite andThen_run, filter_names.
  rewrite (copies_into a targetDir s1 R1 T1 D (kept tes) []).
  2:{ intros entry Hin. apply (@kept_copied fuel tes entry W Dp Own Hin). }
  2:{ cbn [app]. unfold scaffold in N. rewrite app_assoc, map_app in N.
      apply NoDup_app_remove_r in N. exact N. }
  2:{ cbn [map files]. unfold filled_root. rewrite app_nil_r.
      symmetry. apply (put_same _ _ R1). }
  cbn [app files console calls].
  rewrite andThen_run. unfold reading_call at 1. cbn [files].
  unfold readFileSync.
  rewrite (filled_root_template a targetDir s1 keep T1 D
             package_json (map ren (kept tes)) Fp).
  rewrite andThen_run. unfold reading_call at 1. rewrite RW.
  rewrite andThen_run. unfold write. rewrite renamed_package_json.
  rewrite (rewritten_not_empty _ _ RW). cbn [negb].
  unfold changing_call at 1, atomically. cbn [files console calls].
  unfold writeFileSync.
  rewrite (write_at_fresh (root_of targetDir ++ [package_json]) content
             package_json (root_of targetDir)
             (filled_root targetDir s1 keep (map ren (kept tes)))
             (filled_root_lookup targetDir s1 R1 (map ren (kept tes)))).
  2:{ unfold scaffold in N. rewrite app_assoc in N.
      destruct (find_middle _ _ _ _ N) as [Fm _]. exact Fm. }
  rewrite announce_run. cbn [files console calls].
  unfold filled_root, s1. rewrite !put_put.
  unfold scaffold, manifest_call.
  repeat (rewrite <- app_assoc; cbn [app]). reflexivity.
Qed.

End Program.

Definition no_file_world : world :=
  {| files := Dir [(str "work", Dir [(str "demo", File (str "x"))])];
     console := [];
     calls := [] |}.

Lemma target_is_a_file_witness :
  example_init 0 [YesNo true] no_file_world =
    Some (Returned,
          {| files := files no_file_world; console := [[]]; calls := [] |}).
Proof.
  apply (@target_is_a_file toLowerCase_ascii_strings _
           Json.token_number_of_token Json.token_of_token_number
           plain_text plain_text plain_text plain_text plain_text no_message
           example_env 0 [YesNo true] no_file_world
           [str "work"; str "demo"] (str "x")).
  - reflexivity.
  - reflexivity.
  - reflexivity.
Defined.

Lemma lines_of_a_run_witness :
  exists w',
    example_init 1 [YesNo true] example_world = Some (Returned, w') /\
    console w' =
      [[10%N] ++ str "Scaffolding project in /work/demo...";
       [10%N] ++ str "Done. Now run:" ++ [10%N];
       str "  cd demo"; str "  pnpm install"; str "  pnpm run dev"].
Proof.
  destruct (example_init 1 [YesNo true] example_world) as [[st w']|] eqn:I;
    [|vm_compute in I; discriminate].
  destruct (final (example_ask example_env [YesNo true]
                     (files example_world))) as [a targetDir| |] eqn:F;
    [|vm_compute in F; discriminate|vm_compute in F; discriminate].
  destruct (@lines_of_a_run toLowerCase_ascii_strings _
              Json.token_number_of_token Json.token_of_token_number
              plain_text plain_text plain_text plain_text plain_text
              no_message example_env _ _ _ _ _ _ _ F I)
    as [(-> & C)|(err & -> & _)].
  - exists w'. split; [reflexivity|]. rewrite C.
    vm_compute in F. inversion F; subst a targetDir. vm_compute. reflexivity.
  - vm_compute in I. discriminate.
Defined.

Lemma calls_of_a_run_witness :
  exists w' made,
    example_init 1 [YesNo true] example_world = Some (Returned, w') /\
    calls w' =
      EmptyDir [str "work"; str "demo"]
      :: map (fun file =>
                Copy [str "tool"; str "packages"; str "template-html-css"; file]
                     [str "work"; str "demo"; written_as file]) made
      ++ [WriteFileSync [str "work"; str "demo"; package_json]] /\
    ~ In package_json made.
Proof.
  destruct (example_init 1 [YesNo true] example_world) as [[st w']|] eqn:I;
    [|vm_compute in I; discriminate].
  destruct (final (example_ask example_env [YesNo true]
                     (files example_world))) as [a targetDir| |] eqn:F;
    [|vm_compute in F; discriminate|vm_compute in F; discriminate].
  destruct (@calls_of_a_run toLowerCase_ascii_strings _
              Json.token_number_of_token Json.token_of_token_number
              plain_text plain_text plain_text plain_text plain_text
              no_message example_env _ _ _ _ _ _ _ F I)
    as (first & made & last & K & Fi & N & _ & L & _).
  assert (S : st = Returned) by (vm_compute in I; congruence).
  subst st. specialize (L eq_refl). subst last.
  vm_compute in F. inversion F; subst a targetDir. clear F.
  destruct Fi as [(-> & _)|[(_ & G & _)|(_ & G & _)]];
    [|vm_compute in G; discriminate|vm_compute in G; discriminate].
  exists w', made. split; [reflexivity|]. split; [|exact N].
  rewrite K. reflexivity.
Defined.

Lemma manifest_of_a_run_witness :
  exists w' content,
    example_init 1 [YesNo true] example_world = Some (Returned, w') /\
    readFileSync (files w') [str "work"; str "demo"; package_json] =
      Ok content.
Proof.
  destruct (example_init 1 [YesNo true] example_world) as [[st w']|] eqn:I;
    [|vm_compute in I; discriminate].
  destruct (final (example_ask example_env [YesNo true]
                     (files example_world))) as [a targetDir| |] eqn:F;
    [|vm_compute in F; discriminate|vm_compute in F; discriminate].
  assert (S : st = Returned) by (vm_compute in I; congruence).
  subst st.
  destruct (@manifest_of_a_run toLowerCase_ascii_strings _
              Json.token_number_of_token Json.token_of_token_number
              plain_text plain_text plain_text plain_text plain_text
              no_message example_env _ _ _ _ _ _ F I)
    as (_ & text & content & _ & R).
  vm_compute in F. inversion F; subst a targetDir. clear F.
  exists w', content. split; [reflexivity|exact R].
Defined.



(** [create fresh --template html-css], run from [/work], where there is
    no [fresh]. *)
Definition new_env : env :=
  {| argv_ := [str "fresh"];
     argv_template := VString (str "html-css");
     argv_t := VUndefined;
     cwd := [str "work"];
     program_dir := [str "tool"];
     npm_config_user_agent := None |}.

Lemma scaffold_in_fresh_directory_witness :
  exists content w',
    init toLowerCase_ascii_strings Json.token_number_of_token
      Json.token_of_token_number plain_text plain_text plain_text plain_text
      plain_text no_message new_env 1 [] example_world =
      Some (Returned, w') /\
    lookup (files w') [str "work"; str "fresh"] =
      Some (Dir [(str ".gitignore", File (str "node_modules"));
                 (str "index.html", File (str "<html>"));
                 (package_json, File content)]).
Proof.
  eexists. eexists. split.
  - apply (@scaffold_in_fresh_directory toLowerCase_ascii_strings _
             Json.token_number_of_token Json.token_of_token_number
             plain_text plain_text plain_text plain_text plain_text
             no_message new_env 1 [] example_world [] (str "fresh")
             [str "work"] (str "fresh")
             [(str "demo", Dir [(str "old.txt", File (str "x"));
                                (dot_git, Dir [])])]
             [(package_json, File example_manifest);
              (str "_gitignore", File (str "node_modules"));
              (str "index.html", File (str "<html>"))]
             example_manifest
             (Json.JSON_stringify Json.token_of_token_number
                (Json.JObject
                   [(str "name", Json.JString (str "fresh"));
                    (str "private", Json.JBool true);
                    (str "scripts",
                     Json.JObject [(str "dev", Json.JString (str "vite"))])])
              ++ [10%N])); try (vm_compute; reflexivity).
    + intros entry [<-|[<-|[<-|[]]]]; reflexivity.
    + intros rest H. vm_compute in H. discriminate.
  - vm_compute. reflexivity.
Defined.

(** A template whose manifest is cut short. *)
Definition broken_world : world :=
  {| files :=
       Dir [(str "work", Dir []);
            (str "tool",
             Dir [(str "packages",
                   Dir [(str "template-html-css",
                         Dir [(package_json, File (str "{"));
                              (str "_gitignore", File (str "node_modules"));
                              (str "src",
                               Dir [(str "main.js", File (str "1"))])])])])];
     console := [];
     calls := [] |}.

Lemma manifest_not_rewritten_witness :
  exists w',
    init toLowerCase_ascii_strings Json.token_number_of_token
      Json.token_of_token_number plain_text plain_text plain_text plain_text
      plain_text no_message new_env 2 [] broken_world =
      Some (Rejected SyntaxError, w') /\
    lookup (files w') [str "work"; str "fresh"] =
      Some (Dir [(str ".gitignore", File (str "node_modules"));
                 (str "src", Dir [(str "main.js", File (str "1"))])]).
Proof.
  eexists. split.
  - apply (@manifest_not_rewritten toLowerCase_ascii_strings _
             Json.token_number_of_token Json.token_of_token_number
             plain_text plain_text plain_text plain_text plain_text
             no_message new_env 2 [] broken_world [] (str "fresh")
             [str "work"] (str "fresh") []
             [(package_json, File (str "{"));
              (str "_gitignore", File (str "node_modules"));
              (str "src", Dir [(str "main.js", File (str "1"))])]
             (str "{") SyntaxError); try (vm_compute; reflexivity).
    + intros entry [<-|[<-|[<-|[]]]]; reflexivity.
    + intros rest H. vm_compute in H. discriminate.
  - vm_compute. reflexivity.
Defined.

Lemma scaffold_over_directory_witness :
  exists content w',
    example_init 1 [YesNo true] example_world = Some (Returned, w') /\
    lookup (files w') [str "work"; str "demo"] =
      Some (Dir [(dot_git, Dir []);
                 (str ".gitignore", File (str "node_modules"));
                 (str "index.html", File (str "<html>"));
                 (package_json, File content)]) /\
    calls w' =
      [EmptyDir [str "work"; str "demo"];
       Copy [str "tool"; str "packages"; str "template-html-css"; str "_gitignore"]
            [str "work"; str "demo"; str ".gitignore"];
       Copy [str "tool"; str "packages"; str "template-html-css"; str "index.html"]
            [str "work"; str "demo"; str "index.html"];
       WriteFileSync [str "work"; str "demo"; package_json]].
Proof.
  eexists. eexists. split.
  - apply (@scaffold_over_directory toLowerCase_ascii_strings _
             Json.token_number_of_token Json.token_of_token_number
             plain_text plain_text plain_text plain_text plain_text
             no_message example_env 1 [YesNo true] example_world
             [(overwrite, VBool true)] (str "demo")
             [(str "old.txt", File (str "x")); (dot_git, Dir [])]
             [(package_json, File example_manifest);
              (str "_gitignore", File (str "node_modules"));
              (str "index.html", File (str "<html>"))]
             example_manifest
             (Json.JSON_stringify Json.token_of_token_number
                (Json.JObject
                   [(str "name", Json.JString (str "demo"));
                    (str "private", Json.JBool true);
                    (str "scripts",
                     Json.JObject [(str "dev", Json.JString (str "vite"))])])
              ++ [10%N])); try (vm_compute; reflexivity).
    + exists [], (str "work"), (str "tool"), [str "demo"],
        [str "packages"; str "template-html-css"].
      split; [reflexivity|]. split; [reflexivity|discriminate].
    + intros entry [<-|[<-|[<-|[]]]]; reflexivity.
  - split; vm_compute; reflexivity.
Defined.

End InitFacts.

(* ================================================================== *)
(** * The directory checked and the directory written *)
(* ================================================================== *)

Module PathFacts.
Import JsString Exn Fs Paths WalkFacts.









End PathFacts.
